(** * A shallow embedding of the uday.sh terminal core

    Sources: [src/src/lib/parser.ts] (the tokenizer),
    [src/src/components/Terminal/Shell.tsx] (fuzzy ranking, path resolution,
    the session reducer, the command dispatcher [execute], the prompt's
    history and completion, the suggestion chips),
    [src/src/lib/fs_builder.ts] (the content tree) and
    [src/src/components/Sidebar/Sidebar.tsx] (the listed nodes).

    Modelling conventions:
    - a JavaScript string is a Stdlib [string]; one [ascii] stands for one
      UTF-16 code unit (Latin-1 range);
    - a JavaScript object used as a map (the [children] of a directory, the
      alias table) is an association list in insertion order, looked up by
      its own keys; keys inherited from [Object.prototype] are outside the
      model;
    - the React reducer is a pure function on [ShellState]; [execute] reads
      the state of the render it runs in, queues reducer actions and sets
      component state, which we model as: compute the actions from the
      pre-state, then fold the reducer over them;
    - browser side effects ([pushState], sidebar events) do not touch the
      session state and are not modelled. *)

From Stdlib Require Import String Ascii List Bool Arith Lia Sorting.Sorted Sorting.Permutation NArith
  DecimalString DecimalNat.
Set Warnings "-register-all".
Import ListNotations.
Open Scope string_scope.
Open Scope list_scope.
Open Scope nat_scope.

(* ------------------------------------------------------------------ *)
(** ** String primitives of the JavaScript runtime *)

Module JS.

Definition dquote : ascii := ascii_of_nat 34.
Definition squote : ascii := "'"%char.
Definition backslash : ascii := "\"%char.
Definition slash : ascii := "/"%char.
Definition space : ascii := " "%char.

(** [/\s/] and the characters removed by [trim]: tab, line feed,
    vertical tab, form feed, carriage return, space, no-break space. *)
Definition is_ws (c : ascii) : bool :=
  let n := nat_of_ascii c in
  ((9 <=? n) && (n <=? 13)) || (n =? 32) || (n =? 160).

Fixpoint trimStart (s : string) : string :=
  match s with
  | EmptyString => EmptyString
  | String c s' => if is_ws c then trimStart s' else s
  end.

Definition rev_string (s : string) : string :=
  string_of_list_ascii (rev (list_ascii_of_string s)).

Definition trimEnd (s : string) : string := rev_string (trimStart (rev_string s)).

Definition trim (s : string) : string := trimEnd (trimStart s).

(** [toLowerCase] on the Latin-1 range: A-Z and the upper-case letters
    U+00C0..U+00DE except U+00D7. *)
Definition lower_char (c : ascii) : ascii :=
  let n := nat_of_ascii c in
  if ((65 <=? n) && (n <=? 90)) || ((192 <=? n) && (n <=? 222) && negb (n =? 215))
  then ascii_of_nat (n + 32) else c.

Fixpoint toLowerCase (s : string) : string :=
  match s with
  | EmptyString => EmptyString
  | String c s' => String (lower_char c) (toLowerCase s')
  end.

(** [s.startsWith(p)] *)
Definition startsWith (s p : string) : bool := String.prefix p s.

(** [s.includes(p)] *)
Fixpoint includes (s p : string) : bool :=
  String.prefix p s ||
  match s with
  | EmptyString => false
  | String _ s' => includes s' p
  end.

Definition char_str (c : ascii) : string := String c EmptyString.

(** [s.split(c)]: the pieces between occurrences of [c], empty ones kept;
    the result is never empty. *)
Fixpoint split (c : ascii) (s : string) : list string :=
  match s with
  | EmptyString => [EmptyString]
  | String d s' =>
      let rest := split c s' in
      if Ascii.eqb d c then EmptyString :: rest
      else match rest with
           | r :: rs => String d r :: rs
           | [] => [char_str d]
           end
  end.

(** [.filter(Boolean)] on an array of strings. *)
Definition filter_nonempty (l : list string) : list string :=
  filter (fun s => negb (String.eqb s EmptyString)) l.

(** [arr.join(sep)] *)
Fixpoint join (sep : string) (l : list string) : string :=
  match l with
  | [] => EmptyString
  | [x] => x
  | x :: xs => x ++ sep ++ join sep xs
  end.

(** [s.indexOf(c)] for a single character, [None] for -1. *)
Fixpoint indexOf (c : ascii) (s : string) : option nat :=
  match s with
  | EmptyString => None
  | String d s' => if Ascii.eqb d c then Some 0
                   else option_map S (indexOf c s')
  end.

(** [s.lastIndexOf(c)] for a single character, [None] for -1. *)
Fixpoint lastIndexOf (c : ascii) (s : string) : option nat :=
  match s with
  | EmptyString => None
  | String d s' =>
      match lastIndexOf c s' with
      | Some i => Some (S i)
      | None => if Ascii.eqb d c then Some 0 else None
      end
  end.

(** [s.slice(i)] and [s.slice(0, j)] for indices within the string. *)
Definition slice_from (i : nat) (s : string) : string := substring i (String.length s - i) s.
Definition slice_to (j : nat) (s : string) : string := substring 0 j s.

End JS.

(* ------------------------------------------------------------------ *)
(** ** [parser.ts]: [parseCommand] *)

Module Parser.
Import JS.

Record ParsedCommand := mkParsed {
  raw : string;
  commandName : string;
  args : list string;
  error : option string
}.

(** [ALIASES] *)
Definition ALIASES : list (string * string) :=
  [("?", "help"); ("dir", "ls"); ("goto", "cd"); ("read", "cat"); ("tldr", "summary")].

Definition alias_lookup (k : string) : option string :=
  option_map snd (find (fun p => String.eqb (fst p) k) ALIASES).

(** The loop variables of the scanner. *)
Record ScanState := mkScan {
  tokens : list string;
  currentToken : string;
  insideQuote : option ascii;
  escaping : bool
}.

Definition scan_init : ScanState := mkScan [] EmptyString None false.

(** One iteration of the [for] loop of [parseCommand]. *)
Definition scan_step (st : ScanState) (char : ascii) : ScanState :=
  let '(mkScan toks cur q esc) := st in
  if esc then mkScan toks (cur ++ char_str char) q false
  else if Ascii.eqb char backslash then mkScan toks cur q true
  else match q with
       | Some qc =>
           if Ascii.eqb char qc then mkScan toks cur None false
           else mkScan toks (cur ++ char_str char) q false
       | None =>
           if Ascii.eqb char dquote || Ascii.eqb char squote then
             mkScan toks cur (Some char) false
           else if is_ws char then
             if 0 <? String.length cur then mkScan (toks ++ [cur]) EmptyString None false
             else st
           else mkScan toks (cur ++ char_str char) None false
       end.

Definition scan (input : string) : ScanState :=
  fold_left scan_step (list_ascii_of_string input) scan_init.

Definition unclosed_quote_message : string := "Unclosed quote found.".

(** [parseCommand]; [None] is the [null] result ("no command"). *)
Definition parseCommand (input : string) : option ParsedCommand :=
  if String.eqb (trim input) EmptyString then None
  else
    let st := scan input in
    match insideQuote st with
    | Some _ => Some (mkParsed input EmptyString [] (Some unclosed_quote_message))
    | None =>
        let toks := if 0 <? String.length (currentToken st)
                    then tokens st ++ [currentToken st] else tokens st in
        match toks with
        | [] => None
        | t0 :: rest =>
            let rawCmd := toLowerCase t0 in
            let name := match alias_lookup rawCmd with
                        | Some a => a
                        | None => rawCmd
                        end in
            Some (mkParsed input name rest None)
        end
    end.

End Parser.

(* ------------------------------------------------------------------ *)
(** ** [Shell.tsx]: history items, session state and [shellReducer] *)

Module Session.

Inductive ItemType := Command | Output | Error | Banner.

Definition ItemType_eqb (a b : ItemType) : bool :=
  match a, b with
  | Command, Command | Output, Output | Error, Error | Banner, Banner => true
  | _, _ => false
  end.

(** [HistoryItem] of [Output.tsx]. The React [content] is modelled by its
    text; an error entry built by [buildErrorContent] keeps the labels of
    the (at most four) fix suggestions it renders. The timestamp-based
    [id] is not modelled. *)
Record HistoryItem := mkItem {
  item_type : ItemType;
  content : string;
  fix_labels : list string;
  path : option string
}.

Definition defaultBanner : HistoryItem := mkItem Banner "init-banner" [] None.

Record ShellState := mkShell {
  history : list HistoryItem;
  commandHistory : list string;
  cwds : list string;
  currentCwd : string
}.

Inductive Action :=
| ADD_HISTORY (item : HistoryItem)
| CLEAR_HISTORY
| ADD_COMMAND (cmd : string)
| SET_CWD (p : string)
| GO_BACK
| REPLACE_STATE (newState : ShellState).

(** [ShellProps] as far as the initial state uses them; [None] is an
    absent (or falsy) prop. *)
Definition getInitialState (initialCwd : option string)
    (initialHistory : option (list HistoryItem)) : ShellState :=
  let cwd := match initialCwd with
             | Some c => if String.eqb c EmptyString then "/" else c
             | None => "/"
             end in
  mkShell (match initialHistory with Some h => h | None => [defaultBanner] end)
          [] [cwd] cwd.

Definition is_banner (i : HistoryItem) : bool := ItemType_eqb (item_type i) Banner.

Definition shellReducer (state : ShellState) (action : Action) : ShellState :=
  let '(mkShell h ch cs cur) := state in
  match action with
  | ADD_HISTORY item => mkShell (h ++ [item]) ch cs cur
  | CLEAR_HISTORY =>
      let banners := filter is_banner h in
      mkShell (match banners with [] => [defaultBanner] | _ => banners end) ch cs cur
  | ADD_COMMAND cmd => mkShell h (ch ++ [cmd]) cs cur
  | SET_CWD p => mkShell h ch (cs ++ [p]) p
  | GO_BACK =>
      if length cs <=? 1 then state
      else let newCwds := removelast cs in
           mkShell h ch newCwds (last newCwds EmptyString)
  | REPLACE_STATE ns => ns
  end.

Definition run_actions (s : ShellState) (acts : list Action) : ShellState :=
  fold_left shellReducer acts s.

End Session.

(* ------------------------------------------------------------------ *)
(** ** [fs_types.ts]: the content tree *)

Module FS.
Import JS.

Record MetaInfo := mkMeta {
  title : string;
  date : option string;
  tags : option (list string);
  description : option string
}.

(** [FSNode = DirectoryNode | FileNode]; [children] is the
    [Record<string, FSNode>] in insertion order. *)
Inductive FSNode :=
| Dir (name : string) (children : list (string * FSNode)) (meta : option MetaInfo)
| File (name : string) (slug : string) (meta : MetaInfo) (content : option string).

Definition is_dir (n : FSNode) : bool :=
  match n with Dir _ _ _ => true | File _ _ _ _ => false end.

Definition node_name (n : FSNode) : string :=
  match n with Dir nm _ _ => nm | File nm _ _ _ => nm end.

Definition node_title (n : FSNode) : option string :=
  match n with
  | Dir _ _ m => option_map title m
  | File _ _ m _ => Some (title m)
  end.

(** [children[p]] (own keys only). *)
Definition lookup_child (children : list (string * FSNode)) (p : string) : option FSNode :=
  option_map snd (find (fun e => String.eqb (fst e) p) children).

(** [x.split('/').filter(Boolean)] *)
Definition segments (s : string) : list string := filter_nonempty (split slash s).

(** The ranking and ordering routines compare names with
    [String.prototype.localeCompare], the collation of the runtime's
    locale. The executable definitions run with code-unit order, which it
    agrees with on lower-case ASCII letters; [getSortedChildren_with]
    takes the comparison as an argument, so that its facts can be stated
    for every collation. *)
Definition localeCompare (a b : string) : comparison := String.compare a b.

(** [Array.prototype.sort] with a comparator: a stable sort; for a
    consistent comparator every stable sort returns this list. *)
Fixpoint insert_by {A} (cmp : A -> A -> comparison) (x : A) (l : list A) : list A :=
  match l with
  | [] => [x]
  | y :: l' => match cmp x y with
               | Gt => y :: insert_by cmp x l'
               | _ => x :: l
               end
  end.

Definition sort_by {A} (cmp : A -> A -> comparison) (l : list A) : list A :=
  fold_right (insert_by cmp) [] l.

(** The comparator of [getSortedChildren]: directories first, then by
    name, the names compared with [lc] ([nameA.localeCompare(nameB)]). *)
Definition children_cmp (lc : string -> string -> comparison) (a b : string * FSNode)
    : comparison :=
  let '(na, ca) := a in
  let '(nb, cb) := b in
  if Bool.eqb (is_dir ca) (is_dir cb) then lc na nb
  else if is_dir ca then Lt else Gt.

Definition getSortedChildren_with (lc : string -> string -> comparison)
    (children : list (string * FSNode)) : list (string * FSNode) :=
  sort_by (children_cmp lc) children.

Definition getSortedChildren (children : list (string * FSNode)) : list (string * FSNode) :=
  getSortedChildren_with localeCompare children.

End FS.

(* ------------------------------------------------------------------ *)
(** ** [resolvePath] and [getNodeAtPath] *)

Module Path.
Import JS FS.

(** The left fold of [resolvePath] over the segments. *)
Definition fold_segment (stack : list string) (p : string) : list string :=
  if String.eqb p "." then stack
  else if String.eqb p ".." then removelast stack
  else stack ++ [p].

Definition fold_segments (parts : list string) : list string :=
  fold_left fold_segment parts [].

(** The checking loop of [resolvePath]: each segment must name a child of
    the directory reached so far. *)
Fixpoint walk_ok (cursor : FSNode) (stack : list string) : bool :=
  match stack with
  | [] => true
  | p :: ps =>
      match cursor with
      | Dir _ ch _ => match lookup_child ch p with
                      | Some c => walk_ok c ps
                      | None => false
                      end
      | File _ _ _ _ => false
      end
  end.

Definition resolve_parts (current target : string) : list string :=
  if startsWith target "/" then segments target
  else segments current ++ segments target.

Definition resolvePath (root : FSNode) (current target : string) : option string :=
  if String.eqb target "/" || String.eqb target "~" then Some "/"
  else
    let stack := fold_segments (resolve_parts current target) in
    if walk_ok root stack then Some ("/" ++ join "/" stack)%string else None.

Fixpoint walk_node (cursor : FSNode) (parts : list string) : option FSNode :=
  match parts with
  | [] => Some cursor
  | part :: ps =>
      match cursor with
      | Dir _ ch _ => match lookup_child ch part with
                      | Some n => walk_node n ps
                      | None => None
                      end
      | File _ _ _ _ => None
      end
  end.

Definition getNodeAtPath (root : FSNode) (path : string) : option FSNode :=
  if String.eqb path "/" || String.eqb path "" then Some root
  else walk_node root (segments path).

End Path.

(* ------------------------------------------------------------------ *)
(** ** Fuzzy ranking: [getMaxEditDistance], [levenshteinDistance],
    [rankCandidates] *)

Module Fuzzy.
Import JS FS.

Definition getMaxEditDistance (queryLength : nat) : nat :=
  if queryLength <=? 4 then 2
  else if queryLength <=? 8 then 3
  else 4.

(** The inner [for j] loop: [prev] is [prevRow[j..]], [diag] is
    [prevRow[j-1]], [left] is [nextRow[j-1]]. *)
Fixpoint next_row_from (aChar : ascii) (prev : list nat) (diag left : nat)
    (b : string) : list nat :=
  match b, prev with
  | String bc b', up :: prev' =>
      let cost := if Ascii.eqb aChar bc then 0 else 1 in
      let v := Nat.min (Nat.min (up + 1) (left + 1)) (diag + cost) in
      v :: next_row_from aChar prev' up v b'
  | _, _ => []
  end.

(** One iteration of the outer [for i] loop: [nextRow[0] = i], then the
    inner loop; the copy back into [prevRow] is the returned list. *)
Definition next_row (aChar : ascii) (i : nat) (prev : list nat) (b : string) : list nat :=
  match prev with
  | d :: prev' => i :: next_row_from aChar prev' d i b
  | [] => [i]
  end.

Fixpoint rows_from (a : string) (i : nat) (prev : list nat) (b : string) : list nat :=
  match a with
  | EmptyString => prev
  | String c a' => rows_from a' (S i) (next_row c i prev b) b
  end.

Definition levenshteinDistance (a b : string) : nat :=
  if String.eqb a b then 0
  else if String.length a =? 0 then String.length b
  else if String.length b =? 0 then String.length a
  else
    let prevRow := seq 0 (S (String.length b)) in
    last (rows_from a 1 prevRow b) 0.

(** The row built by the [map] of [rankCandidates]. *)
Record Row := mkRow {
  candidate : string;
  rstartsWith : bool;
  rincludes : bool;
  distance : nat;
  score : nat
}.

Definition group_of (sw inc : bool) : nat := if sw then 0 else if inc then 1 else 2.

Definition mk_row (normalizedQuery candidate : string) : Row :=
  let normalizedCandidate := toLowerCase candidate in
  let sw := startsWith normalizedCandidate normalizedQuery in
  let inc := includes normalizedCandidate normalizedQuery in
  let d := levenshteinDistance normalizedQuery normalizedCandidate in
  mkRow candidate sw inc d (group_of sw inc * 100 + d).

(** [a.score - b.score || a.candidate.localeCompare(b.candidate)] *)
Definition row_cmp (a b : Row) : comparison :=
  match Nat.compare (score a) (score b) with
  | Eq => localeCompare (candidate a) (candidate b)
  | c => c
  end.

Definition eligible (maxDistance : nat) (r : Row) : bool :=
  rstartsWith r || rincludes r || (distance r <=? maxDistance).

Definition normalize_query (query : string) : string := toLowerCase (trim query).

(** The ranked rows, before the final [map] to candidate names. *)
Definition ranked_rows (normalizedQuery : string) (candidates : list string)
    (limit : nat) : list Row :=
  let maxDistance := getMaxEditDistance (String.length normalizedQuery) in
  firstn limit
    (sort_by row_cmp (filter (eligible maxDistance)
                        (map (mk_row normalizedQuery) candidates))).

(** [rankCandidates]; the callers pass the limits 4 and 6. *)
Definition rankCandidates (query : string) (candidates : list string) (limit : nat)
    : list string :=
  let normalizedQuery := normalize_query query in
  if String.length normalizedQuery =? 0 then firstn limit candidates
  else map candidate (ranked_rows normalizedQuery candidates limit).

End Fuzzy.

(* ------------------------------------------------------------------ *)
(** ** Path suggestions, the tree renderer and [parseDepthArg] *)

Module Render.
Import JS FS Path Fuzzy.

Definition newline : string := char_str (ascii_of_nat 10).

Definition nat_to_string (n : nat) : string :=
  DecimalString.NilZero.string_of_uint (Nat.to_uint n).

(** [PathCompletionMode] *)
Inductive PathCompletionMode := MDir | MFile | MBoth.

Inductive SuggestionKind := KCommand | KDir | KFile.

Record AutocompleteSuggestion := mkSuggestion {
  kind : SuggestionKind;
  insertText : string;
  label : string
}.

(** A falsy-or-equal [meta?.title] gives no decoration. *)
Definition distinct_title (n : FSNode) (name : string) : option string :=
  match node_title n with
  | Some t => if String.eqb t "" || String.eqb t name then None else Some t
  | None => None
  end.

Definition mode_accepts (mode : PathCompletionMode) (n : FSNode) : bool :=
  match mode with
  | MDir => is_dir n
  | MFile => negb (is_dir n)
  | MBoth => true
  end.

Definition suggestion_for (prefixForRebuild name : string) (child : FSNode)
    : AutocompleteSuggestion :=
  let suffix := if is_dir child then "/" else "" in
  let insert := (prefixForRebuild ++ name ++ suffix)%string in
  let lbl := match distinct_title child name with
             | Some t => (insert ++ " — " ++ t)%string
             | None => insert
             end in
  mkSuggestion (if is_dir child then KDir else KFile) insert lbl.

(** [buildPathFuzzySuggestions] *)
Definition buildPathFuzzySuggestions (root : FSNode) (cwd token : string)
    (mode : PathCompletionMode) : list AutocompleteSuggestion :=
  let '(prefixForRebuild, dirToken, baseQuery) :=
    match lastIndexOf slash token with
    | None => (EmptyString, EmptyString, token)
    | Some i => (slice_to (S i) token, slice_to i token, slice_from (S i) token)
    end in
  let dirArg := if String.eqb dirToken EmptyString
                then (if startsWith token "/" then "/" else ".")
                else dirToken in
  match resolvePath root cwd dirArg with
  | None => []
  | Some resolvedDirPath =>
      match getNodeAtPath root resolvedDirPath with
      | Some (Dir _ ch _) =>
          let candidates :=
            map fst (filter (fun e => mode_accepts mode (snd e)) (getSortedChildren ch)) in
          let rankedNames :=
            if String.length (trim baseQuery) =? 0 then firstn 6 candidates
            else rankCandidates baseQuery candidates 6 in
          flat_map (fun name => match lookup_child ch name with
                                | Some child => [suggestion_for prefixForRebuild name child]
                                | None => []
                                end) rankedNames
      | _ => []
      end
  end.

(** [buildTreeText]: [fuel] is [maxDepth - depth], so the node at the
    bound is printed and not expanded. *)
Fixpoint tree_walk (fuel : nat) (current : FSNode) (name prefix : string)
    (isLast : bool) (depth : nat) : list string :=
  let connector := if depth =? 0 then "" else if isLast then "└── " else "├── " in
  let lbl := if is_dir current
             then (if String.eqb name "/" then "/" else (name ++ "/")%string)
             else name in
  let ttl := match distinct_title current name with
             | Some t => (" — " ++ t)%string
             | None => ""
             end in
  let line := (prefix ++ connector ++ lbl ++ ttl)%string in
  match current with
  | File _ _ _ _ => [line]
  | Dir _ ch _ =>
      match fuel with
      | 0 => [line]
      | S fuel' =>
          let childPrefix :=
            if depth =? 0 then "" else (prefix ++ (if isLast then "    " else "│   "))%string in
          line :: (fix go (es : list (string * FSNode)) : list string :=
                     match es with
                     | [] => []
                     | (cn, cnode) :: rest =>
                         tree_walk fuel' cnode cn childPrefix
                           (match rest with [] => true | _ => false end) (S depth)
                         ++ go rest
                     end) (getSortedChildren ch)
      end
  end.

Definition buildTreeText (node : FSNode) (displayName : string) (maxDepth : nat) : string :=
  join newline (tree_walk maxDepth node displayName "" true 0).

Definition digit_value (c : ascii) : option nat :=
  let n := nat_of_ascii c in
  if (48 <=? n) && (n <=? 57) then Some (n - 48) else None.

(** Leading decimal digits: their value, their count and the rest. *)
Fixpoint take_digits (acc count : nat) (s : string) : nat * nat * string :=
  match s with
  | String c s' =>
      match digit_value c with
      | Some d => take_digits (acc * 10 + d) (S count) s'
      | None => (acc, count, s)
      end
  | EmptyString => (acc, count, s)
  end.

(** [Math.max(0, Math.floor(Number(value)))] when finite, for the
    decimal forms [[+|-] digits [. digits]] (surrounding white space
    allowed, blank meaning 0); the exponent, hexadecimal, octal and binary
    forms of [Number] are not modelled and give [None]. *)
Definition number_floor_clamped (value : string) : option nat :=
  let v := trim value in
  if String.eqb v EmptyString then Some 0 else
  let '(neg, s1) := match v with
                    | String c s' => if Ascii.eqb c "-"%char then (true, s')
                                     else if Ascii.eqb c "+"%char then (false, s')
                                     else (false, v)
                    | EmptyString => (false, v)
                    end in
  let '(ip, nint, s2) := take_digits 0 0 s1 in
  let ok := match s2 with
            | EmptyString => 0 <? nint
            | String c s3 =>
                Ascii.eqb c "."%char &&
                (let '(_, nfrac, s4) := take_digits 0 0 s3 in
                 String.eqb s4 EmptyString && (0 <? nint + nfrac))
            end in
  if ok then Some (if neg then 0 else ip) else None.

(** [parseDepthArg]; [None] as argument is [undefined]. *)
Definition parseDepthArg (value : option string) : option nat :=
  match value with
  | None => None
  | Some v => if String.eqb v EmptyString then None else number_floor_clamped v
  end.

End Render.

(* ------------------------------------------------------------------ *)
(** ** The command dispatcher [execute] *)

Module Exec.
Import JS FS Path Fuzzy Render Session.

(** [helpWizardStep] *)
Inductive WizardStep := WNone | WStart | WExperience.

Definition WizardStep_eqb (a b : WizardStep) : bool :=
  match a, b with
  | WNone, WNone | WStart, WStart | WExperience, WExperience => true
  | _, _ => false
  end.

(** The component state next to the reducer's: [helpWizardStep],
    [helpWizardSeenRef], [hasUsedOpen] and [lastOpenedFilePathRef]. *)
Record UI := mkUI {
  helpWizardStep : WizardStep;
  helpWizardSeen : bool;
  hasUsedOpen : bool;
  lastOpenedFilePath : option string
}.

Record Sess := mkSess { shell : ShellState; ui : UI }.

Definition initialUI : UI := mkUI WNone false false None.

Definition initialSess (initialCwd : option string)
    (initialHistory : option (list HistoryItem)) : Sess :=
  mkSess (getInitialState initialCwd initialHistory) initialUI.

Definition set_step (u : UI) (st : WizardStep) : UI :=
  mkUI st (helpWizardSeen u) (hasUsedOpen u) (lastOpenedFilePath u).
Definition set_seen (u : UI) : UI :=
  mkUI (helpWizardStep u) true (hasUsedOpen u) (lastOpenedFilePath u).
Definition set_used_open (u : UI) : UI :=
  mkUI (helpWizardStep u) (helpWizardSeen u) true (lastOpenedFilePath u).
Definition set_last_opened (u : UI) (p : string) : UI :=
  mkUI (helpWizardStep u) (helpWizardSeen u) (hasUsedOpen u) (Some p).

Record FixSuggestion := mkFix { fix_command : string; fix_label : string }.

(** [addError]: [buildErrorContent] renders the first four fixes. *)
Definition addError (message : string) (fixes : list FixSuggestion) : Action :=
  ADD_HISTORY (mkItem Error message (map fix_label (firstn 4 fixes)) None).

Definition addOutput (c : string) : Action := ADD_HISTORY (mkItem Output c [] None).

Definition fixes_from (cmd : string) (ss : list AutocompleteSuggestion) : list FixSuggestion :=
  map (fun s => mkFix (cmd ++ insertText s)%string (cmd ++ label s)%string) ss.

Definition or_default (fixes dflt : list FixSuggestion) : list FixSuggestion :=
  match fixes with [] => dflt | _ => fixes end.

Definition AUTOCOMPLETE_COMMANDS : list string :=
  ["help"; "cd"; "ls"; "open"; "cat"; "search"; "tree"; "home"; "back"; "clear";
   "summary"; "pwd"].

(** The texts of the onboarding detour. *)
Definition wizard_reprompt := "Please answer: Yes/No".
Definition wizard_declined := "I understand. Take your time!".
Definition wizard_experience_question :=
  "Ah! Well in that case, do you have any experience in the art of terminal navigation? Yes/No".
Definition wizard_splendid := "Splendid! You may navigate my garden ...".
Definition wizard_basics := "No worries — we’ll start simple: ...".
Definition wizard_greeting :=
  "Greeting dear traveler! You seem wary from your travels. May I trouble you with a question? Yes/No".
Definition help_grid :=
  "Navigation cd, home, back, pwd; Discovery ls, search, tree; Reading cat, open; System clear, help, summary".
Definition summary_text := "Quick start: ...".

(** The [helpWizardStep !== 'none'] block of [execute]. *)
Definition run_wizard (raw : string) (u : UI) : list Action * UI :=
  let answer := toLowerCase (trim raw) in
  let isYes := String.eqb answer "y" || String.eqb answer "yes" in
  let isNo := String.eqb answer "n" || String.eqb answer "no" in
  if negb isYes && negb isNo then ([addOutput wizard_reprompt], u)
  else match helpWizardStep u with
       | WStart =>
           if isNo then ([addOutput wizard_declined], set_step u WNone)
           else ([addOutput wizard_experience_question], set_step (set_seen u) WExperience)
       | WExperience =>
           if isYes then ([addOutput wizard_splendid], set_step u WNone)
           else ([addOutput wizard_basics], set_step u WNone)
       | WNone => ([], u)
       end.

(** A [string | undefined] used in a boolean position. *)
Definition truthy (o : option string) : bool :=
  match o with Some s => negb (String.eqb s EmptyString) | None => false end.

Definition show_opt (o : option string) : string :=
  match o with Some s => s | None => "undefined" end.

Definition nth_arg (args : list string) (i : nat) : option string := nth_error args i.

(** [runTree] *)
Definition runTree (root : FSNode) (cwd : string) (args : list string) : list Action :=
  let '(targetPathArg, maxDepth, depthWasExplicit, usage_error) :=
    match args with
    | a0 :: rest =>
        if String.eqb a0 "-L" || String.eqb a0 "--depth" then
          match parseDepthArg (nth_arg args 1) with
          | None => (None, 4, true, true)
          | Some d => (nth_arg args 2, d, true, false)
          end
        else match rest with
             | [] => match parseDepthArg (Some a0) with
                     | Some d => (None, d, true, false)
                     | None => (Some a0, 4, false, false)
                     end
             | a1 :: _ =>
                 match parseDepthArg (Some a0) with
                 | Some d => (Some a1, d, true, false)
                 | None => match parseDepthArg (Some a1) with
                           | Some d => (Some a0, d, true, false)
                           | None => (Some a0, 4, false, false)
                           end
                 end
             end
    | [] => (None, 4, false, false)
    end in
  if usage_error then
    [addError "Usage: tree [-L depth] [path]" [mkFix "tree" "tree"; mkFix "tree -L 4" "tree -L 4"]]
  else
  let resolvedPath := if truthy targetPathArg
                      then resolvePath root cwd (show_opt targetPathArg)
                      else Some cwd in
  let basePrefix := if depthWasExplicit
                    then ("tree -L " ++ nat_to_string maxDepth ++ " ")%string else "tree " in
  let fixes := if truthy targetPathArg
               then fixes_from basePrefix
                      (buildPathFuzzySuggestions root cwd (show_opt targetPathArg) MBoth)
               else [] in
  let dflt := [mkFix "tree" "tree"; mkFix "ls" "ls"] in
  match resolvedPath with
  | None | Some "" =>
      [addError ("tree: no such file or directory: " ++ show_opt targetPathArg)
                (or_default fixes dflt)]
  | Some rp =>
      match getNodeAtPath root rp with
      | None =>
          [addError ("tree: no such file or directory: " ++
                     (if truthy targetPathArg then show_opt targetPathArg else rp))
                    (or_default fixes dflt)]
      | Some node =>
          let displayName := if String.eqb rp "/" then "/"
                             else last (segments rp) rp in
          [addOutput (buildTreeText node displayName maxDepth)]
      end
  end.

(** [runOpen]; it also records the last opened file. *)
Definition runOpen (root : FSNode) (cwd : string) (args : list string) (u : UI)
    : list Action * UI :=
  match nth_arg args 0 with
  | None | Some "" =>
      ([addError "Usage: open <path>"
                 [mkFix "open " "open <path>"; mkFix "ls" "ls"; mkFix "tree" "tree"]], u)
  | Some target =>
      let fixes := fixes_from "open " (buildPathFuzzySuggestions root cwd target MBoth) in
      let dflt := [mkFix "ls" "ls"; mkFix "tree" "tree"] in
      let notfound := addError ("open: " ++ target ++ ": No such file or directory")
                               (or_default fixes dflt) in
      match resolvePath root cwd target with
      | None | Some "" => ([notfound], u)
      | Some p =>
          match getNodeAtPath root p with
          | None => ([notfound], u)
          | Some (Dir _ _ _) => ([SET_CWD p], u)
          | Some (File _ _ _ c) =>
              let text := match c with
                          | Some t => if String.eqb t "" then "(Empty file)" else t
                          | None => "(Empty file)"
                          end in
              ([addOutput text], set_last_opened u p)
          end
      end
  end.

(** [case 'cd'] *)
Definition runCd (root : FSNode) (cwd : string) (args : list string) : list Action :=
  let target := match nth_arg args 0 with
                | Some a => if String.eqb a "" then "/" else a
                | None => "/"
                end in
  let fixes := fixes_from "cd " (buildPathFuzzySuggestions root cwd target MDir) in
  let dflt := [mkFix "ls" "ls"; mkFix "pwd" "pwd"] in
  let notfound := addError ("cd: no such file or directory: " ++ target) (or_default fixes dflt) in
  match resolvePath root cwd target with
  | None | Some "" => [notfound]
  | Some newPath =>
      match getNodeAtPath root newPath with
      | None => [notfound]
      | Some (File _ _ _ _) =>
          [addError ("cd: not a directory: " ++ target)
                    [mkFix ("open " ++ target) ("open " ++ target);
                     mkFix ("cat " ++ target) ("cat " ++ target)]]
      | Some (Dir _ _ _) => [SET_CWD newPath]
      end
  end.

(** [case 'cat'] *)
Definition runCat (root : FSNode) (cwd : string) (args : list string) : list Action :=
  match nth_arg args 0 with
  | None | Some "" =>
      [addError "Usage: cat <filename>"
                [mkFix "cat " "cat <filename>"; mkFix "ls" "ls"; mkFix "open " "open <path>"]]
  | Some target =>
      let fixes := fixes_from "cat " (buildPathFuzzySuggestions root cwd target MFile) in
      let dflt := [mkFix "ls" "ls"; mkFix "open " "open <path>"] in
      let notfound := addError ("cat: " ++ target ++ ": No such file") (or_default fixes dflt) in
      match resolvePath root cwd target with
      | None | Some "" => [notfound]
      | Some p =>
          match getNodeAtPath root p with
          | None => [notfound]
          | Some (Dir _ _ _) =>
              [addError ("cat: " ++ target ++ ": Is a directory")
                        [mkFix ("ls " ++ target) ("ls " ++ target);
                         mkFix ("open " ++ target) ("open " ++ target)]]
          | Some (File _ _ _ c) =>
              let text := match c with
                          | Some t => if String.eqb t "" then "(Empty file)" else t
                          | None => "(Empty file)"
                          end in
              [addOutput text]
          end
      end
  end.

(** [case 'ls'] *)
Definition runLs (root : FSNode) (cwd : string) : list Action :=
  match getNodeAtPath root cwd with
  | Some (Dir _ ch _) =>
      [addOutput (join " " (map (fun e => if is_dir (snd e) then (fst e ++ "/")%string
                                          else fst e) (getSortedChildren ch)))]
  | _ => [addError ("ls: not a directory: " ++ cwd) []]
  end.

(** The recursive [walk] of [case 'search'], visiting children in key
    order. *)
Fixpoint search_walk (term : string) (node : FSNode) (p : string)
    : list (string * FSNode) :=
  match node with
  | File name _ m _ =>
      if includes (toLowerCase name) term || includes (toLowerCase (title m)) term ||
         match tags m with
         | Some ts => existsb (fun t => includes t term) ts
         | None => false
         end
      then [(p, node)] else []
  | Dir name ch _ =>
      (if includes (toLowerCase name) term then [(p, node)] else []) ++
      (fix go (es : list (string * FSNode)) : list (string * FSNode) :=
         match es with
         | [] => []
         | (cn, c) :: rest =>
             search_walk term c (if String.eqb p "/" then ("/" ++ cn)%string
                                 else (p ++ "/" ++ cn)%string) ++ go rest
         end) ch
  end.

Definition result_line (r : string * FSNode) : string :=
  let '(p, n) := r in
  let kind := if is_dir n then "[DIR]" else "[FILE]" in
  let shown := match node_title n with
               | Some t => if String.eqb t "" then node_name n else t
               | None => node_name n
               end in
  (kind ++ " " ++ shown ++ " " ++ p)%string.

(** [case 'search'] *)
Definition runSearch (root : FSNode) (args : list string) : list Action :=
  let term := toLowerCase (join " " args) in
  if String.eqb term "" then
    [addError "Usage: search <term>"
              [mkFix "search " "search <term>"; mkFix "summary" "summary"; mkFix "help" "help"]]
  else
    let results := search_walk term root "/" in
    [addOutput (match results with
                | [] => ("No results for " ++ char_str dquote ++ term ++ char_str dquote)%string
                | _ => join newline (map result_line results)
                end)].

(** [default]: an unknown command name. *)
Definition runUnknown (commandName raw : string) : list Action :=
  let rawTrimStart := trimStart raw in
  let rest := match indexOf space rawTrimStart with
              | None => ""
              | Some i => slice_from i rawTrimStart
              end in
  let candidates := rankCandidates commandName AUTOCOMPLETE_COMMANDS 4 in
  let fixes := match candidates with
               | [] => [mkFix "help" "help"]
               | _ => map (fun c => mkFix (c ++ rest)%string (c ++ rest)%string) candidates
               end in
  [addError ("Command '" ++ commandName ++ "' not found.") fixes].

(** The [switch (commandName)] of [execute]. *)
Definition run_command (root : FSNode) (state : ShellState) (u : UI)
    (commandName : string) (args : list string) (raw : string) : list Action * UI :=
  let cwd := currentCwd state in
  if String.eqb commandName "help" then
    if negb (helpWizardSeen u) && WizardStep_eqb (helpWizardStep u) WNone
    then ([addOutput wizard_greeting], set_step u WStart)
    else ([addOutput help_grid], u)
  else if String.eqb commandName "clear" then ([CLEAR_HISTORY], u)
  else if String.eqb commandName "home" then ([SET_CWD "/"], u)
  else if String.eqb commandName "cd" then (runCd root cwd args, u)
  else if String.eqb commandName "ls" then (runLs root cwd, u)
  else if String.eqb commandName "pwd" then ([addOutput cwd], u)
  else if String.eqb commandName "back" then
    if length (cwds state) <=? 1 then ([addError "Already at root of session." []], u)
    else ([GO_BACK], u)
  else if String.eqb commandName "tree" then (runTree root cwd args, u)
  else if String.eqb commandName "open" then runOpen root cwd args (set_used_open u)
  else if String.eqb commandName "cat" then (runCat root cwd args, u)
  else if String.eqb commandName "search" then (runSearch root args, u)
  else if String.eqb commandName "summary" then ([addOutput summary_text], u)
  else (runUnknown commandName raw, u).

(** Everything [execute] does after echoing the line: the actions it
    queues and the component state it sets. *)
Definition dispatch (fs : option FSNode) (state : ShellState) (u : UI) (raw : string)
    : list Action * UI :=
  match Parser.parseCommand raw with
  | None => ([], u)
  | Some parsed =>
      match Parser.error parsed with
      | Some e => ([ADD_HISTORY (mkItem Error e [] None)], u)
      | None =>
          if negb (WizardStep_eqb (helpWizardStep u) WNone) then run_wizard raw u
          else match fs with
               | None => ([addError "FileSystem not loaded." []], u)
               | Some root =>
                   run_command root state u (Parser.commandName parsed)
                               (Parser.args parsed) raw
               end
      end
  end.

(** [execute]: blank lines are ignored; otherwise the line is echoed and
    recorded, then dispatched. *)
Definition execute (fs : option FSNode) (s : Sess) (raw : string) : Sess :=
  if String.eqb (trim raw) EmptyString then s
  else
    let state := shell s in
    let echo := [ADD_HISTORY (mkItem Command raw [] (Some (currentCwd state)));
                 ADD_COMMAND raw] in
    let '(acts, u') := dispatch fs state (ui s) raw in
    mkSess (run_actions state (echo ++ acts)) u'.

Definition execute_all (fs : option FSNode) (s : Sess) (lines : list string) : Sess :=
  fold_left (execute fs) lines s.

End Exec.

(* ------------------------------------------------------------------ *)
(** ** Predicates used by the statements *)

Module Props.
Import JS FS Path Session Exec.

(** The working-directory invariant of [ShellState]. *)
Definition cwd_inv (s : ShellState) : Prop :=
  cwds s <> [] /\ currentCwd s = last (cwds s) EmptyString.

(** The transitions the invariant is claimed for: every action but
    [REPLACE_STATE]. *)
Definition defined_transition (a : Action) : Prop :=
  match a with REPLACE_STATE _ => False | _ => True end.

Inductive reachable : ShellState -> Prop :=
| reach_init : forall c h, reachable (getInitialState c h)
| reach_step : forall s a, reachable s -> defined_transition a -> reachable (shellReducer s a).

(** The target expression [".." / ".." / ... / ".."] with [n] segments. *)
Fixpoint dotdots (n : nat) : string :=
  match n with
  | 0 => ""
  | 1 => ".."
  | S m => (".." ++ "/" ++ dotdots m)%string
  end.

(** A path of the tree as a session holds it: canonical segments. *)
Definition canonical_segments (l : list string) : Prop :=
  Forall (fun p => p <> "." /\ p <> "..") l.

(** The (group, distance) key of a row and its lexicographic order. *)
Definition row_group (r : Fuzzy.Row) : nat := Fuzzy.group_of (Fuzzy.rstartsWith r) (Fuzzy.rincludes r).

Definition key_le (a b : Fuzzy.Row) : Prop :=
  row_group a < row_group b \/
  (row_group a = row_group b /\ Fuzzy.distance a <= Fuzzy.distance b).

(** The echo entry [execute] appends before dispatching. *)
Definition echo_item (raw cwd : string) : HistoryItem := mkItem Command raw [] (Some cwd).

Definition banners_or_default (h : list HistoryItem) : list HistoryItem :=
  match filter is_banner h with [] => [defaultBanner] | b => b end.

(** Sample inputs. [sample_root] has the shape [buildFileSystem] gives the
    content tree: [books/], [about] and the hoisted book [dune/]. *)
Definition root_with_a : FSNode := Dir "" [("a", Dir "a" [] None)] None.

Definition meta_titled (t : string) : MetaInfo := mkMeta t None None None.

Definition sample_root : FSNode :=
  Dir "" [("books", Dir "books" [] (Some (meta_titled "Book Collection")));
          ("about", File "about" "about" (meta_titled "About Me") (Some "# About Me"));
          ("dune", Dir "dune"
             [("analysis", File "analysis" "dune/analysis" (meta_titled "Analysis") (Some "..."));
              ("chapter-2", File "chapter-2" "dune/chapter-2" (meta_titled "Chapter 2") None)]
             (Some (meta_titled "Dune")))] None.

Definition fresh_session : Sess := initialSess None None.

Definition long_prefix_candidate : string :=
  ("ab" ++ string_of_list_ascii (repeat "x"%char 102))%string.

(** A session in which the onboarding detour was entered, accepted and
    finished. *)
Definition help_accepted_session : Sess :=
  execute_all (Some sample_root) fresh_session ["help"; "yes"; "no"].

End Props.

(* ------------------------------------------------------------------ *)
(** ** JavaScript objects written by key *)

Module Obj.

(** [obj[k] = v] on an object kept in insertion order: an existing key
    keeps its place, a new one is appended. *)
Fixpoint obj_set {V} (o : list (string * V)) (k : string) (v : V) : list (string * V) :=
  match o with
  | [] => [(k, v)]
  | (k', v') :: rest =>
      if String.eqb k' k then (k', v) :: rest else (k', v') :: obj_set rest k v
  end.

(** [obj[k]] for an own key [k], [None] being [undefined]; reads that
    reach [Object.prototype] are in [Proto] below. *)
Definition obj_get {V} (o : list (string * V)) (k : string) : option V :=
  option_map snd (find (fun e => String.eqb (fst e) k) o).

End Obj.

(* ------------------------------------------------------------------ *)
(** ** Property reads that reach [Object.prototype] *)

Module Proto.
Import JS FS.

(** The members a plain object ([{}], a [Record<string, ...>] literal)
    inherits from [Object.prototype]. Reading one of them as [obj[k]],
    when [obj] has no own key [k], gives a function ([Object.prototype]
    itself for ["__proto__"]): a truthy value whose [type] is
    [undefined]. *)
Definition proto_keys : list string :=
  ["constructor"; "__defineGetter__"; "__defineSetter__"; "hasOwnProperty";
   "__lookupGetter__"; "__lookupSetter__"; "isPrototypeOf";
   "propertyIsEnumerable"; "toString"; "valueOf"; "__proto__"; "toLocaleString"].

Definition is_proto_key (k : string) : bool := existsb (String.eqb k) proto_keys.

(** What [cursor.children[p]] gives: a node of the tree, or the member
    inherited under the key [k]. *)
Inductive Val := VNode (n : FSNode) | VInherited (k : string).

(** [children[p]]: an own key first, then [Object.prototype]. *)
Definition get_child (children : list (string * FSNode)) (p : string) : option Val :=
  match lookup_child children p with
  | Some n => Some (VNode n)
  | None => if is_proto_key p then Some (VInherited p) else None
  end.

End Proto.

(* ------------------------------------------------------------------ *)
(** ** [resolvePath] and [getNodeAtPath] with inherited members *)

Module JSPath.
Import JS FS Path Proto.

(** The checking loop of [resolvePath], [cursor.children[p]] read as
    JavaScript reads it; [cursor.type !== 'dir'] holds for a file and for
    an inherited member. *)
Fixpoint walk_ok (cursor : Val) (stack : list string) : bool :=
  match stack with
  | [] => true
  | p :: ps =>
      match cursor with
      | VNode (Dir _ ch _) => match get_child ch p with
                              | Some c => walk_ok c ps
                              | None => false
                              end
      | _ => false
      end
  end.

Definition resolvePath (root : FSNode) (current target : string) : option string :=
  if String.eqb target "/" || String.eqb target "~" then Some "/"
  else
    let stack := fold_segments (resolve_parts current target) in
    if walk_ok (VNode root) stack then Some ("/" ++ join "/" stack)%string else None.

Fixpoint walk_node (cursor : Val) (parts : list string) : option Val :=
  match parts with
  | [] => Some cursor
  | part :: ps =>
      match cursor with
      | VNode (Dir _ ch _) => match get_child ch part with
                              | Some n => walk_node n ps
                              | None => None
                              end
      | _ => None
      end
  end.

Definition getNodeAtPath (root : FSNode) (path : string) : option Val :=
  if String.eqb path "/" || String.eqb path "" then Some (VNode root)
  else walk_node (VNode root) (segments path).

End JSPath.

(* ------------------------------------------------------------------ *)
(** ** The prompt: history navigation, autocomplete and Tab completion *)

Module Prompt.
Import JS FS Path Render Exec.

(** [s.endsWith(p)] *)
Definition endsWith (s p : string) : bool :=
  String.prefix (rev_string p) (rev_string s).

(** [/\s/.test(s)] *)
Definition has_ws (s : string) : bool := existsb is_ws (list_ascii_of_string s).

(** [s.split(/\s+/)[0]]: the characters before the first white space. *)
Fixpoint first_word (s : string) : string :=
  match s with
  | EmptyString => EmptyString
  | String c s' => if is_ws c then EmptyString else String c (first_word s')
  end.

Fixpoint take_non_ws (l : list ascii) : list ascii :=
  match l with
  | [] => []
  | c :: l' => if is_ws c then [] else c :: take_non_ws l'
  end.

(** The group captured by [input.match] with the pattern "a run of
    non-white-space characters, then the end": the run of
    non-white-space characters that ends the input (the pattern always
    matches). *)
Definition trailing_token (s : string) : string :=
  string_of_list_ascii (rev (take_non_ws (rev (list_ascii_of_string s)))).

(** [handleHistory]: the arrow keys walk [state.commandHistory]. The
    result is the new [historyPointer] ([None] is [null]) and the new
    [input]; [history[i]] past the end is [undefined], written [None]. *)
Inductive Direction := Up | Down.

Definition handleHistory (history : list string) (historyPointer : option nat)
    (input : string) (direction : Direction) : option nat * option string :=
  match history with
  | [] => (historyPointer, Some input)
  | _ =>
      match direction, historyPointer with
      | Up, None =>
          let newIndex := length history - 1 in
          (Some newIndex, nth_error history newIndex)
      | Up, Some i =>
          let newIndex := Nat.max 0 (i - 1) in
          (Some newIndex, nth_error history newIndex)
      | Down, None => (historyPointer, Some input)
      | Down, Some i =>
          let newIndex := S i in
          if length history <=? newIndex then (None, Some EmptyString)
          else (Some newIndex, nth_error history newIndex)
      end
  end.

(** [AUTOCOMPLETE_ALIASES] *)
Definition AUTOCOMPLETE_ALIASES : list (string * string) :=
  [("?", "help"); ("dir", "ls"); ("goto", "cd"); ("read", "cat"); ("tldr", "summary")].

Definition autocomplete_alias (k : string) : option string :=
  option_map snd (find (fun p => String.eqb (fst p) k) AUTOCOMPLETE_ALIASES).

(** The split of a path token both path suggesters make:
    [(prefixForRebuild, dirToken, basePrefix)]. *)
Definition split_token (token : string) : string * string * string :=
  match lastIndexOf slash token with
  | None => (EmptyString, EmptyString, token)
  | Some i => (slice_to (S i) token, slice_to i token, slice_from (S i) token)
  end.

Definition dir_arg (token dirToken : string) : string :=
  if String.eqb dirToken EmptyString
  then (if startsWith token "/" then "/" else ".")
  else dirToken.

(** [buildPathAutocompleteSuggestions] *)
Definition buildPathAutocompleteSuggestions (root : FSNode) (cwd token : string)
    (mode : PathCompletionMode) : list AutocompleteSuggestion :=
  let '(prefixForRebuild, dirToken, basePrefix) := split_token token in
  let basePrefixLower := toLowerCase basePrefix in
  match resolvePath root cwd (dir_arg token dirToken) with
  | None | Some "" => []
  | Some resolvedDirPath =>
      match getNodeAtPath root resolvedDirPath with
      | Some (Dir _ ch _) =>
          flat_map (fun e =>
            let '(childName, childNode) := e in
            if negb (String.eqb basePrefixLower EmptyString) &&
               negb (startsWith (toLowerCase childName) basePrefixLower) then []
            else if negb (mode_accepts mode childNode) then []
            else [suggestion_for prefixForRebuild childName childNode])
            (getSortedChildren ch)
      | _ => []
      end
  end.

Inductive CompletionMode := ModeNone | ModeCommand | ModePath.

(** The value of the [autocomplete] memo. *)
Record Autocomplete := mkAutocomplete {
  suggestions : list AutocompleteSuggestion;
  ghostSuffix : string;
  beforeToken : string;
  quoteChar : option ascii;
  tokenPrefix : string;
  ac_mode : CompletionMode
}.

Definition no_completion : Autocomplete :=
  mkAutocomplete [] EmptyString EmptyString None EmptyString ModeNone.

(** [suggestions[0] ? suggestions[0].insertText.slice(tokenPrefix.length) : ''] *)
Definition ghost_of (sugg : list AutocompleteSuggestion) (tokenPrefix : string) : string :=
  match sugg with
  | s0 :: _ => slice_from (String.length tokenPrefix) (insertText s0)
  | [] => EmptyString
  end.

(** [autocomplete = useMemo(...)]: [step] is [helpWizardStep], [fs] is
    [props.fs] ([None] when absent) and [cwd] is [state.currentCwd]. *)
Definition autocomplete (step : WizardStep) (input : string) (fs : option FSNode)
    (cwd : string) : Autocomplete :=
  if negb (WizardStep_eqb step WNone) then no_completion else
  let trimmedStart := trimStart input in
  if String.length trimmedStart =? 0 then no_completion else
  let rawToken := trailing_token input in
  let beforeToken := slice_to (String.length input - String.length rawToken) input in
  let quoteChar := match rawToken with
                   | String c _ => if Ascii.eqb c dquote || Ascii.eqb c squote
                                   then Some c else None
                   | EmptyString => None
                   end in
  let tokenPrefix := match quoteChar with
                     | Some _ => slice_from 1 rawToken
                     | None => rawToken
                     end in
  let tokenPrefixLower := toLowerCase tokenPrefix in
  let isCommandPosition := negb (has_ws trimmedStart) in
  if isCommandPosition then
    let sugg := map (fun name => mkSuggestion KCommand name name)
                    (filter (fun name => startsWith name tokenPrefixLower)
                            AUTOCOMPLETE_COMMANDS) in
    mkAutocomplete sugg (ghost_of sugg tokenPrefix) beforeToken quoteChar tokenPrefix
                   ModeCommand
  else
    let rawCmdToken := toLowerCase (first_word trimmedStart) in
    let commandName := match autocomplete_alias rawCmdToken with
                       | Some a => if String.eqb a EmptyString then rawCmdToken else a
                       | None => rawCmdToken
                       end in
    let pathMode := if String.eqb commandName "cd" then Some MDir
                    else if String.eqb commandName "cat" then Some MFile
                    else if String.eqb commandName "open" then Some MBoth
                    else if String.eqb commandName "tree" then Some MBoth
                    else None in
    match pathMode, fs with
    | Some m, Some root =>
        let sugg := buildPathAutocompleteSuggestions root cwd tokenPrefix m in
        mkAutocomplete sugg (ghost_of sugg tokenPrefix) beforeToken quoteChar tokenPrefix
                       ModePath
    | _, _ => mkAutocomplete [] EmptyString beforeToken quoteChar tokenPrefix ModeNone
    end.

Definition is_kdir (k : SuggestionKind) : bool :=
  match k with KDir => true | _ => false end.

(** [handleTabComplete]: the new content of the prompt. *)
Definition handleTabComplete (ac : Autocomplete) (input : string) : string :=
  match suggestions ac with
  | [] => input
  | top :: _ =>
      let quote := match quoteChar ac with Some c => char_str c | None => EmptyString end in
      let completedToken := (quote ++ insertText top)%string in
      let shouldAppendSpace :=
        match ac_mode ac with
        | ModeCommand => true
        | _ => negb (is_kdir (kind top)) && negb (endsWith (insertText top) "/")
        end in
      (beforeToken ac ++ completedToken ++ (if shouldAppendSpace then " " else ""))%string
  end.

(** The quote a token opens with, as [autocomplete] reads it: its first
    character if that is a double or a single quote, nothing otherwise. *)
Definition opening_quote (s : string) : string :=
  match s with
  | String c _ => if (c =? dquote)%char || (c =? squote)%char then char_str c else EmptyString
  | EmptyString => EmptyString
  end.

End Prompt.

(* ------------------------------------------------------------------ *)
(** ** [getParentDirPath] of [execute] *)

Module OpenPaths.
Import JS FS.

Definition getParentDirPath (absolutePath : string) : string :=
  if String.eqb absolutePath "/" then "/"
  else
    match removelast (segments absolutePath) with
    | [] => "/"
    | parts => ("/" ++ join "/" parts)%string
    end.

End OpenPaths.

(* ------------------------------------------------------------------ *)
(** ** The suggestion chips: [collectRelativePaths], [collectSearchTerms],
    [pickRandomItem] and [buildTryChips] *)

Module Chips.
Import JS FS Path Prompt.

(** [files.length + dirs.length] *)
Definition count (st : list string * list string) : nat := length (fst st) + length (snd st).

(** The [walk] of [collectRelativePaths] on a directory at [depth], with
    [st] the arrays [(files, dirs)] it pushes to. The walk only descends
    while [depth < maxDepth]; [fuel] is [maxDepth - depth]. *)
Fixpoint crp_walk (fuel maxDepth maxItems : nat) (exclude : list string) (node : FSNode)
    (prefix : string) (depth : nat) (st : list string * list string) {struct fuel}
    : list string * list string :=
  if maxDepth <? depth then st
  else if maxItems <=? count st then st
  else match node with
       | File _ _ _ _ => st
       | Dir _ ch _ =>
           (fix go (es : list (string * FSNode)) (st : list string * list string)
              : list string * list string :=
              match es with
              | [] => st
              | (name, child) :: rest =>
                  if existsb (String.eqb name) exclude then go rest st else
                  let st' :=
                    match child with
                    | Dir _ _ _ =>
                        let dirPath := (prefix ++ name)%string in
                        let st1 := (fst st, snd st ++ [dirPath]) in
                        if depth <? maxDepth then
                          match fuel with
                          | S fuel' => crp_walk fuel' maxDepth maxItems exclude child
                                                (dirPath ++ "/") (S depth) st1
                          | 0 => st1
                          end
                        else st1
                    | File _ _ _ _ => (fst st ++ [(prefix ++ name)%string], snd st)
                    end in
                  if maxItems <=? count st' then st' else go rest st'
              end) (getSortedChildren ch) st
       end.

(** [collectRelativePaths]: [(files, dirs)]. *)
Definition collectRelativePaths (dir : FSNode) (maxDepth maxItems : nat)
    (excludeNames : list string) : list string * list string :=
  crp_walk maxDepth maxDepth maxItems excludeNames dir "" 0 ([], []).

(** [terms.add(t)] on the [Set], kept as its elements in insertion order
    (the order [Array.from] returns). *)
Definition set_add (terms : list string) (t : string) : list string :=
  if existsb (String.eqb t) terms then terms else terms ++ [t].

(** [addTerm]; [None] is [undefined]. *)
Definition addTerm (terms : list string) (value : option string) : list string :=
  match value with
  | None => terms
  | Some v =>
      if String.eqb v EmptyString then terms else
      let term := trim v in
      if String.length term <? 3 then terms
      else if has_ws term then terms
      else set_add terms (toLowerCase term)
  end.

Definition meta_tags (m : option MetaInfo) : list string :=
  match m with
  | Some mi => match tags mi with Some ts => ts | None => [] end
  | None => []
  end.

(** [if (title) addTerm(title.split(/\s+/)[0])] *)
Definition add_title_word (terms : list string) (m : option MetaInfo) : list string :=
  match m with
  | Some mi => if String.eqb (title mi) EmptyString then terms
               else addTerm terms (Some (first_word (title mi)))
  | None => terms
  end.

(** The [walk] of [collectSearchTerms], children in key order. *)
Fixpoint cst_walk (maxTerms : nat) (node : FSNode) (terms : list string) : list string :=
  match node with
  | File name _ m _ =>
      let t1 := addTerm terms (Some name) in
      let t2 := fold_left (fun acc t => addTerm acc (Some t)) (meta_tags (Some m)) t1 in
      add_title_word t2 (Some m)
  | Dir name ch m =>
      let t1 := if String.eqb name EmptyString then terms else addTerm terms (Some name) in
      let t2 := fold_left (fun acc t => addTerm acc (Some t)) (meta_tags m) t1 in
      let t3 := add_title_word t2 m in
      (fix go (es : list (string * FSNode)) (terms : list string) : list string :=
         match es with
         | [] => terms
         | (_, c) :: rest =>
             let terms' := cst_walk maxTerms c terms in
             if maxTerms <=? length terms' then terms' else go rest terms'
         end) ch t3
  end.

Definition collectSearchTerms (root : FSNode) (maxTerms : nat) : list string :=
  cst_walk maxTerms root [].

(** [pickRandomItem]. [Math.random()] is an oracle: its [k]-th call,
    scaled by [items.length] and floored, is an index below the length,
    written [rand k mod length items]; a statement for every [rand] holds
    for every outcome. The result is the item and the number of calls
    made so far. *)
Definition pickRandomItem {A} (items : list A) (rand : nat -> nat) (k : nat)
    : option A * nat :=
  match items with
  | [] => (None, k)
  | _ => (nth_error items (rand k mod length items), S k)
  end.

Record TryChip := mkChip { chip_command : string; chip_label : string }.

(** [pushUnique]; the [used] set holds the commands of [chips]. *)
Definition pushUnique (chips : list TryChip) (chip : option TryChip) : list TryChip :=
  match chip with
  | None => chips
  | Some c =>
      if existsb (fun x => String.eqb (chip_command x) (chip_command c)) chips then chips
      else chips ++ [c]
  end.

Definition basePool : list TryChip :=
  [mkChip "ls" "ls"; mkChip "tree" "tree"; mkChip "summary" "summary";
   mkChip "help" "help"; mkChip "home" "home"].

(** The [while] loop; [n] is [50 - safety]. *)
Fixpoint fill_chips (n chipCount : nat) (rand : nat -> nat) (k : nat)
    (chips : list TryChip) : list TryChip :=
  match n with
  | 0 => chips
  | S n' =>
      if chipCount <=? length chips then chips
      else let '(c, k') := pickRandomItem basePool rand k in
           fill_chips n' chipCount rand k' (pushUnique chips c)
  end.

Definition open_chip (a : string) : TryChip := mkChip ("open " ++ a) ("open " ++ a).
Definition search_chip (t : string) : TryChip := mkChip ("search " ++ t) ("search " ++ t).

(** [buildTryChips] *)
Definition buildTryChips (root : FSNode) (cwd : string) (chipCount : nat)
    (rand : nat -> nat) : list TryChip :=
  let cwdDir := match getNodeAtPath root cwd with
                | Some (Dir n ch m) => Dir n ch m
                | _ => root
                end in
  let '(files, dirs) := collectRelativePaths cwdDir 3 80 ["about"] in
  let '(o1, k1) := pickRandomItem files rand 0 in
  let '(openArg, k2) := match o1 with
                        | Some f => (Some f, k1)
                        | None => pickRandomItem dirs rand k1
                        end in
  let chips1 := match openArg with
                | Some a => if String.eqb a EmptyString then []
                            else pushUnique [] (Some (open_chip a))
                | None => []
                end in
  let searchTerms := collectSearchTerms root 80 in
  let '(term, k3) := pickRandomItem searchTerms rand k2 in
  let chips2 := match term with
                | Some t => if String.eqb t EmptyString then chips1
                            else pushUnique chips1 (Some (search_chip t))
                | None => chips1
                end in
  firstn chipCount (fill_chips 50 chipCount rand k3 chips2).

End Chips.

(* ------------------------------------------------------------------ *)
(** ** [fs_builder.ts]: [buildFileSystem] *)

Module Builder.
Import JS FS Obj.

(** An entry of the [books] collection as [buildFileSystem] reads it;
    [tags] defaults to [[]] and [type] to ['annotation'] in the schema. *)
Inductive EntryType := TBook | TAnnotation | TFile | TChapter.

Record Entry := mkEntry {
  entry_slug : string;
  entry_title : string;
  entry_tags : list string;
  publishedDate : option string;  (** [publishedDate?.toISOString()] *)
  addedDate : option string;      (** [addedDate?.toISOString()] *)
  entry_type : EntryType;
  body : string
}.

Definition is_book (e : Entry) : bool :=
  match entry_type e with TBook => true | _ => false end.

Definition about_content : string :=
  ("# About Me" ++ Render.newline ++ Render.newline ++
   "I am Uday. This is my digital garden.")%string.

Definition about_file : FSNode :=
  File "about" "about" (mkMeta "About Me" None None (Some "Meta info")) (Some about_content).

Definition books_dir : FSNode := Dir "books" [] (Some (mkMeta "Book Collection" None None None)).

Definition initial_root : FSNode := Dir "" [("books", books_dir); ("about", about_file)] None.

(** [x.meta = m] *)
Definition set_meta (n : FSNode) (m : MetaInfo) : FSNode :=
  match n with
  | Dir nm ch _ => Dir nm ch (Some m)
  | File nm sl _ c => File nm sl m c
  end.

(** [dir.children[k] = v]; the builder only writes into directories. *)
Definition set_child (n : FSNode) (k : string) (v : FSNode) : FSNode :=
  match n with
  | Dir nm ch m => Dir nm (obj_set ch k v) m
  | File _ _ _ _ => n
  end.

Definition child_of (n : FSNode) (k : string) : option FSNode :=
  match n with
  | Dir _ ch _ => obj_get ch k
  | File _ _ _ _ => None
  end.

(** [if (!parentDir.children[bookName]) parentDir.children[bookName] = fresh] *)
Definition ensure_child (parentDir : FSNode) (bookName : string) (fresh : FSNode) : FSNode :=
  match child_of parentDir bookName with
  | Some _ => parentDir
  | None => set_child parentDir bookName fresh
  end.

(** [parentDir.children[bookName]] updated in place. *)
Definition update_child (parentDir : FSNode) (bookName : string) (f : FSNode -> FSNode)
    : FSNode :=
  match child_of parentDir bookName with
  | Some c => set_child parentDir bookName (f c)
  | None => parentDir
  end.

(** The body of [books.forEach], on the directory it writes to. *)
Definition add_to_parent (e : Entry) (parts : list string) (parentDir : FSNode) : FSNode :=
  match parts with
  | [bookName] =>
      let p1 := ensure_child parentDir bookName
                  (Dir bookName [] (Some (mkMeta (entry_title e) None None None))) in
      if is_book e then
        update_child p1 bookName (fun dir =>
          set_meta dir (mkMeta (entry_title e) (publishedDate e) (Some (entry_tags e)) None))
      else p1
  | [bookName; noteName] =>
      let p1 := ensure_child parentDir bookName
                  (Dir bookName [] (Some (mkMeta bookName None None None))) in
      if is_book e then
        update_child p1 bookName (fun bookDir =>
          set_meta bookDir (mkMeta (entry_title e) None (Some (entry_tags e)) None))
      else
        update_child p1 bookName (fun bookDir =>
          set_child bookDir noteName
            (File noteName (entry_slug e)
                  (mkMeta (entry_title e) (addedDate e) (Some (entry_tags e)) None)
                  (Some (body e))))
  | _ => parentDir
  end.

(** One entry: ["dune"] is hoisted to the root, every other book lives
    in [root.children['books']], which is mutated in place. *)
Definition add_entry (root : FSNode) (e : Entry) : FSNode :=
  let parts := split slash (entry_slug e) in
  let bookName := hd EmptyString parts in
  if String.eqb bookName "dune" then add_to_parent e parts root
  else update_child root "books" (add_to_parent e parts).

Definition buildFileSystem (books : list Entry) : FSNode :=
  fold_left add_entry books initial_root.

End Builder.

(* ------------------------------------------------------------------ *)
(** ** [Sidebar.tsx]: the listed nodes and the expansion flags *)

Module Sidebar.
Import FS Obj.

(** [getBookNodes]: [(name, node, path)] triples. *)
Definition getBookNodes (root : FSNode) : list (string * FSNode * string) :=
  match root with
  | Dir _ ch _ =>
      flat_map (fun e =>
        let '(name, node) := e in
        if String.eqb name "books" && is_dir node then
          match node with
          | Dir _ bch _ => map (fun b => (fst b, snd b, ("/books/" ++ fst b)%string)) bch
          | File _ _ _ _ => []
          end
        else if negb (String.eqb name "about") && is_dir node then
          [(name, node, ("/" ++ name)%string)]
        else []) ch
  | File _ _ _ _ => []
  end.

(** [toggleExpand]: [{...prev, [path]: !prev[path]}]. *)
Definition toggleExpand (expanded : list (string * bool)) (path : string) : list (string * bool) :=
  obj_set expanded path (match obj_get expanded path with
                         | Some b => negb b
                         | None => true
                         end).

(** [expanded[path] !== false] *)
Definition isExpanded (expanded : list (string * bool)) (path : string) : bool :=
  match obj_get expanded path with Some false => false | _ => true end.

End Sidebar.

(* ------------------------------------------------------------------ *)
(** ** Predicates of the further statements *)

Module Props2.
Import JS FS Path.

(** A key a directory of the content tree can hold so that paths name
    it: non-empty, no ['/'], and none of the names [resolvePath] reads
    specially. *)
Definition valid_name (k : string) : bool :=
  negb (String.eqb k EmptyString) && negb (String.eqb k ".") && negb (String.eqb k "..") &&
  negb (String.eqb k "~") && negb (existsb (Ascii.eqb slash) (list_ascii_of_string k)).

Fixpoint distinct_keys (ks : list string) : bool :=
  match ks with
  | [] => true
  | k :: ks' => negb (existsb (String.eqb k) ks') && distinct_keys ks'
  end.

(** A well-formed tree: in every directory the keys are distinct valid
    names (a JavaScript object has distinct keys). *)
Fixpoint wf_tree (n : FSNode) : bool :=
  match n with
  | File _ _ _ _ => true
  | Dir _ ch _ =>
      distinct_keys (map fst ch) && forallb valid_name (map fst ch) &&
      (fix go (es : list (string * FSNode)) : bool :=
         match es with
         | [] => true
         | (_, c) :: rest => wf_tree c && go rest
         end) ch
  end.

(** A word typed with a backslash before each character. *)
Fixpoint escape_word (w : string) : string :=
  match w with
  | EmptyString => EmptyString
  | String c w' => String backslash (String c (escape_word w'))
  end.

(** The line [cmd w1 ... wn] with each word typed escaped. *)
Fixpoint typed_args (ws : list string) : string :=
  match ws with
  | [] => EmptyString
  | w :: rest => (" " ++ escape_word w ++ typed_args rest)%string
  end.

(** A character the tokenizer takes as it is outside quotes. *)
Definition plain_char (c : ascii) : bool :=
  negb (is_ws c) && negb (Ascii.eqb c dquote) && negb (Ascii.eqb c squote) &&
  negb (Ascii.eqb c backslash).

(** The node a target names when typed at [cwd]. *)
Definition names_node (root : FSNode) (cwd target : string) (n : FSNode) : Prop :=
  exists p, resolvePath root cwd target = Some p /\ getNodeAtPath root p = Some n.

Definition kind_of (n : FSNode) : Render.SuggestionKind :=
  if is_dir n then Render.KDir else Render.KFile.

Definition noslash (s : string) : Prop :=
  existsb (Ascii.eqb slash) (list_ascii_of_string s) = false.

(** A segment of a canonical path. *)
Definition seg_ok (s : string) : Prop :=
  (s <> EmptyString /\ noslash s) /\ (s <> "." /\ s <> "..").

End Props2.

Module Props3.
Import FS Path Session Exec Props.

(** A path naming a directory of the tree. *)
Definition cwd_dir (root : FSNode) (c : string) : Prop :=
  exists nm ch m, getNodeAtPath root c = Some (Dir nm ch m).

(** The actions [execute] queues: a [SET_CWD] target names a directory. *)
Definition act_ok (root : FSNode) (a : Action) : Prop :=
  match a with
  | SET_CWD p => cwd_dir root p
  | REPLACE_STATE _ => False
  | _ => True
  end.

Definition session_ok (root : FSNode) (s : ShellState) : Prop :=
  cwd_inv s /\ Forall (cwd_dir root) (cwds s).

End Props3.

Module Props4.
Import FS.

(** The laws of a consistent comparison, which [localeCompare] obeys
    whatever the locale: swapping the arguments flips the result, and
    "not after" is transitive. *)
Definition collation (lc : string -> string -> comparison) : Prop :=
  (forall a b, lc b a = CompOpp (lc a b)) /\
  (forall a b c, lc a b <> Gt -> lc b c <> Gt -> lc a c <> Gt).

(** The order [getSortedChildren] promises: directories before files,
    names ascending in the collation [lc] among entries of the same
    kind. *)
Definition child_le (lc : string -> string -> comparison) (a b : string * FSNode) : Prop :=
  (is_dir (snd a) = true \/ is_dir (snd b) = false) /\
  (is_dir (snd a) = is_dir (snd b) -> lc (fst a) (fst b) <> Gt).

End Props4.

(* ------------------------------------------------------------------ *)

(** ** Paths [collectRelativePaths] returns *)

Module Props5.
Import JS FS Path Props2.

(** A segment [walk] follows: a valid name not in [excludeNames]. *)
Definition seg_fine (ex : list string) (x : string) : Prop :=
  valid_name x = true /\ existsb (String.eqb x) ex = false.

(** A path [collectRelativePaths] may return for [top]: segments joined
    with ['/'], each one a segment [walk] follows, leading from [top] to
    a node of the given kind. *)
Definition rel_path_ok (top : FSNode) (ex : list string) (isdir : bool) (f : string) : Prop :=
  exists segs, f = join "/" segs /\ segs <> [] /\ Forall (seg_fine ex) segs /\
    exists n, walk_node top segs = Some n /\ is_dir n = isdir.

(** The arrays [(files, dirs)]: paths of files and of directories. *)
Definition crp_inv (top : FSNode) (ex : list string) (st : list string * list string) : Prop :=
  Forall (rel_path_ok top ex false) (fst st) /\ Forall (rel_path_ok top ex true) (snd st).

(** The [prefix] of [walk] at the directory [segs] leads to. *)
Definition rel_prefix (segs : list string) : string :=
  match segs with [] => "" | _ => (join "/" segs ++ "/")%string end.

End Props5.

(* ------------------------------------------------------------------ *)
(** ** Terms [collectSearchTerms] returns *)

Module Props6.
Import JS Prompt.

(** A term [addTerm] adds: three characters or more, no whitespace, lower
    case. *)
Definition term_ok (t : string) : Prop :=
  3 <= String.length t /\ has_ws t = false /\ toLowerCase t = t.

Definition terms_ok (l : list string) : Prop := NoDup l /\ Forall term_ok l.

End Props6.

(* ------------------------------------------------------------------ *)
(** ** The tree [buildFileSystem] builds *)

Module Props7.
Import JS FS Builder.

(** The shape every step of [buildFileSystem] keeps: [about] as written
    at first, a directory [books] whose entries are directories, and a
    directory [dune] once there is one. *)
Definition root_ok (r : FSNode) : Prop :=
  is_dir r = true /\ child_of r "about" = Some about_file /\
  (exists B, child_of r "books" = Some B /\ is_dir B = true /\ node_name B = "books" /\
             forall k d, child_of B k = Some d -> is_dir d = true) /\
  (forall d, child_of r "dune" = Some d -> is_dir d = true).

(** The directory a note [b/n] is written to: [root.children['dune']]
    for ['dune'], [root.children['books'].children[b]] otherwise. *)
Definition note_dir (r : FSNode) (b : string) : option FSNode :=
  if String.eqb b "dune" then child_of r "dune"
  else match child_of r "books" with Some B => child_of B b | None => None end.

(** An entry none of whose slug segments is a key every object inherits
    from [Object.prototype] (such as [constructor] or [__proto__]): for
    such entries every [children[k]] the builder reads or writes is an
    own key or absent. *)
Definition plain_slug (e : Entry) : bool :=
  forallb (fun k => negb (Proto.is_proto_key k)) (split slash (entry_slug e)).

(** A sample entry: a note of the book ['dune']. *)
Definition note_entry : Entry := mkEntry "dune/analysis" "Analysis" ["sf"] None None TAnnotation "...".

End Props7.

(* ================================================================== *)
(** * Theorems *)

(** ** The session reducer *)

Module ReducerFacts.
Import Session Props.

Lemma removelast_nonempty (l : list string) :
  1 < length l -> removelast l <> [].
Proof.
  destruct l as [|x [|y t]]; simpl; intros H; try lia; discriminate.
Qed.

Lemma shellReducer_preserves (s : ShellState) (a : Action) :
  defined_transition a -> cwd_inv s -> cwd_inv (shellReducer s a).
Proof.
  destruct s as [h ch cs cur]; unfold cwd_inv; simpl; intros Hdef [Hne Hcur].
  destruct a; simpl in *; try contradiction; try (split; assumption).
  - split; simpl.
    + intro E; apply app_eq_nil in E; destruct E; discriminate.
    + symmetry; apply last_last.
  - destruct (length cs <=? 1) eqn:E; simpl; [split; assumption|].
    apply Nat.leb_gt in E.
    split; [apply removelast_nonempty; exact E | reflexivity].
Qed.

(** C10: from the initial state, the defined transitions keep the
    working-directory stack non-empty with the current directory as its
    last element, and each of them preserves that invariant. *)
Theorem shellReducer_cwd_invariant :
  (forall s a, defined_transition a -> cwd_inv s -> cwd_inv (shellReducer s a)) /\
  (forall s, reachable s -> cwd_inv s).
Proof.
  split; [exact shellReducer_preserves|].
  induction 1 as [c h|s a _ IH Hdef].
  - unfold getInitialState, cwd_inv; simpl; split; [discriminate|reflexivity].
  - apply shellReducer_preserves; assumption.
Qed.

Lemma shellReducer_cwd_invariant_witness :
  cwd_inv (shellReducer (shellReducer (getInitialState None None) (SET_CWD "/books")) GO_BACK)
  /\ cwd_inv (getInitialState (Some "/dune") None).
Proof.
  split.
  - apply (proj1 shellReducer_cwd_invariant); [exact I|].
    apply (proj1 shellReducer_cwd_invariant); [exact I|].
    apply (proj2 shellReducer_cwd_invariant); constructor.
  - apply (proj2 shellReducer_cwd_invariant); constructor.
Defined.

End ReducerFacts.

(** ** The tokenizer *)

Module ParserFacts.
Import JS Parser.

Definition all_ws (l : list ascii) : Prop := Forall (fun c => is_ws c = true) l.

Lemma trimStart_empty (s : string) :
  trimStart s = EmptyString -> all_ws (list_ascii_of_string s).
Proof.
  induction s as [|c s IH]; simpl; intros H; [constructor|].
  destruct (is_ws c) eqn:E; [|discriminate].
  constructor; [exact E|apply IH; exact H].
Qed.

Lemma trimStart_split (s : string) :
  exists pre, all_ws pre /\
    list_ascii_of_string s = pre ++ list_ascii_of_string (trimStart s).
Proof.
  induction s as [|c s IH]; simpl.
  - exists []; split; [constructor|reflexivity].
  - destruct (is_ws c) eqn:E.
    + destruct IH as [pre [Hpre Heq]].
      exists (c :: pre); split; [constructor; assumption|simpl; rewrite Heq; reflexivity].
    + exists []; split; [constructor|reflexivity].
Qed.

Lemma rev_string_empty (x : string) : rev_string x = EmptyString -> x = EmptyString.
Proof.
  unfold rev_string; destruct x as [|c x]; [reflexivity|simpl].
  destruct (rev (list_ascii_of_string x)); discriminate.
Qed.

Lemma trim_empty_all_ws (s : string) :
  trim s = EmptyString -> all_ws (list_ascii_of_string s).
Proof.
  unfold trim, trimEnd; intros H.
  apply rev_string_empty, trimStart_empty in H.
  unfold rev_string in H; rewrite list_ascii_of_string_of_list_ascii in H.
  apply Forall_rev in H; rewrite rev_involutive in H.
  destruct (trimStart_split s) as [pre [Hpre ->]].
  apply Forall_app; split; assumption.
Qed.

Lemma ws_not_special (c : ascii) :
  is_ws c = true ->
  Ascii.eqb c backslash = false /\ Ascii.eqb c dquote = false /\ Ascii.eqb c squote = false.
Proof.
  intros H; repeat split;
    match goal with |- Ascii.eqb c ?d = false =>
      destruct (Ascii.eqb c d) eqn:E; [apply Ascii.eqb_eq in E; subst; discriminate|reflexivity]
    end.
Qed.

Lemma scan_ws_closed (l : list ascii) (st : ScanState) :
  all_ws l -> insideQuote st = None -> escaping st = false ->
  insideQuote (fold_left scan_step l st) = None.
Proof.
  revert st; induction l as [|c l IH]; simpl; intros st Hl Hq He; [exact Hq|].
  inversion Hl as [|? ? Hc Hl']; subst.
  destruct (ws_not_special c Hc) as [Hb [Hd Hs]].
  destruct st as [toks cur q esc]; simpl in Hq, He; subst.
  apply IH; [exact Hl'| |]; unfold scan_step; rewrite Hb, Hd, Hs, Hc; simpl;
    destruct (0 <? String.length cur); reflexivity.
Qed.

(** C8: the only parse failure is the unclosed quote, reported exactly when
    a quote is still open at the end of the input; blank input is "no
    command" ([null]), not a failure. *)
Theorem parseCommand_only_unclosed_quote (input : string) :
  (forall r, parseCommand input = Some r ->
             error r = None \/ error r = Some unclosed_quote_message) /\
  ((exists r, parseCommand input = Some r /\ error r <> None) <->
   insideQuote (scan input) <> None) /\
  (trim input = EmptyString -> parseCommand input = None).
Proof.
  unfold parseCommand.
  destruct (String.eqb (trim input) EmptyString) eqn:Et.
  - apply String.eqb_eq in Et.
    split; [discriminate|split; [split|intros _; reflexivity]].
    + intros [r [Hr _]]; discriminate.
    + intros Hq; exfalso; apply Hq.
      apply scan_ws_closed; [apply trim_empty_all_ws; exact Et|reflexivity|reflexivity].
  - assert (Hne : trim input <> EmptyString)
      by (intro E; rewrite E in Et; discriminate).
    destruct (insideQuote (scan input)) as [q|] eqn:Eq.
    + split; [intros r Hr; injection Hr as <-; right; reflexivity|].
      split; [split; [intros _; discriminate|intros _; eexists; split; [reflexivity|discriminate]]|].
      intros E; contradiction.
    + cbv zeta.
      destruct (if 0 <? String.length (currentToken (scan input))
                then tokens (scan input) ++ [currentToken (scan input)]
                else tokens (scan input)) as [|t0 rest].
      * split; [discriminate|split; [split; [intros [r [Hr _]]; discriminate|]|]].
        -- intros H; exfalso; apply H; reflexivity.
        -- intros E; contradiction.
      * split; [intros r Hr; injection Hr as <-; left; reflexivity|].
        split; [split|].
        -- intros [r [Hr Herr]]; injection Hr as <-; contradiction.
        -- intros H; exfalso; apply H; reflexivity.
        -- intros E; contradiction.
Qed.

Lemma parseCommand_only_unclosed_quote_witness :
  parseCommand "   " = None /\
  insideQuote (scan "cat 'dune") <> None /\
  (exists r, parseCommand "cat 'dune" = Some r /\ error r <> None).
Proof.
  split; [apply (proj2 (proj2 (parseCommand_only_unclosed_quote "   "))); reflexivity|].
  split; [vm_compute; discriminate|].
  apply (proj2 (proj1 (proj2 (parseCommand_only_unclosed_quote "cat 'dune")))).
  vm_compute; discriminate.
Defined.

End ParserFacts.

(** ** Path resolution *)

Module PathFacts.
Import JS FS Path Props.

Lemma walk_ok_node (c : FSNode) (l : list string) :
  walk_ok c l = true <-> exists n, walk_node c l = Some n.
Proof.
  revert c; induction l as [|p ps IH]; intros c; simpl.
  - split; [intros _; eexists; reflexivity|reflexivity].
  - destruct c as [nm ch m|nm sl m co].
    + destruct (lookup_child ch p) as [c'|]; [apply IH|].
      split; [discriminate|intros [n' H]; discriminate].
    + split; [discriminate|intros [n' H]; discriminate].
Qed.

Lemma is_proto_key_In (k : string) : Proto.is_proto_key k = true <-> In k Proto.proto_keys.
Proof.
  unfold Proto.is_proto_key; rewrite existsb_exists; split.
  - intros [x [Hx E]]; apply String.eqb_eq in E; subst; exact Hx.
  - intros H; exists k; split; [exact H|apply String.eqb_refl].
Qed.

Lemma js_walk_ok_node (v : Proto.Val) (l : list string) :
  JSPath.walk_ok v l = true <-> exists w, JSPath.walk_node v l = Some w.
Proof.
  revert v; induction l as [|p ps IH]; intros v; simpl.
  - split; [intros _; eexists; reflexivity|reflexivity].
  - destruct v as [[nm ch m|nm sl m co]|k].
    + destruct (Proto.get_child ch p) as [c|]; [apply IH|].
      split; [discriminate|intros [w H]; discriminate].
    + split; [discriminate|intros [w H]; discriminate].
    + split; [discriminate|intros [w H]; discriminate].
Qed.

Lemma js_walk_node_vnode (c : FSNode) (l : list string) (n : FSNode) :
  JSPath.walk_node (Proto.VNode c) l = Some (Proto.VNode n) <-> walk_node c l = Some n.
Proof.
  revert c; induction l as [|p ps IH]; intros c; simpl.
  - split; intros H; injection H as ->; reflexivity.
  - destruct c as [nm ch m|nm sl m co]; [|split; discriminate].
    unfold Proto.get_child; destruct (lookup_child ch p) as [c'|]; [apply IH|].
    destruct (Proto.is_proto_key p); [|split; discriminate].
    destruct ps; simpl; split; discriminate.
Qed.

Lemma js_getNodeAtPath_vnode (root : FSNode) (q : string) (n : FSNode) :
  JSPath.getNodeAtPath root q = Some (Proto.VNode n) <-> getNodeAtPath root q = Some n.
Proof.
  unfold JSPath.getNodeAtPath, getNodeAtPath.
  destruct (String.eqb q "/" || String.eqb q ""); [|apply js_walk_node_vnode].
  split; intros H; injection H as ->; reflexivity.
Qed.

(** A walk that [children[p]] completes: every segment is a child of the
    directory reached before it, or the last one is a key inherited from
    [Object.prototype] that the directory reached does not have. *)
Lemma js_walk_node_spec (c : FSNode) (l : list string) :
  (exists w, JSPath.walk_node (Proto.VNode c) l = Some w) <->
  (exists n, walk_node c l = Some n) \/
  (exists pre k nm ch m, l = pre ++ [k] /\ walk_node c pre = Some (Dir nm ch m) /\
                         lookup_child ch k = None /\ In k Proto.proto_keys).
Proof.
  revert c; induction l as [|p ps IH]; intros c.
  - simpl; split; [intros _; left; eexists; reflexivity|intros _; eexists; reflexivity].
  - destruct c as [nm ch m|nm sl m co].
    + cbn [JSPath.walk_node walk_node]; unfold Proto.get_child.
      destruct (lookup_child ch p) as [c'|] eqn:El.
      * rewrite IH; split.
        -- intros [H|[pre [k [nm' [ch' [m' [E [Hw [Hk Hin]]]]]]]]]; [left; exact H|right].
           exists (p :: pre), k, nm', ch', m'; split; [rewrite E; reflexivity|].
           split; [simpl; rewrite El; exact Hw|split; assumption].
        -- intros [H|[pre [k [nm' [ch' [m' [E [Hw [Hk Hin]]]]]]]]]; [left; exact H|right].
           destruct pre as [|q pre].
           ++ simpl in E; injection E as -> ->; simpl in Hw; injection Hw as <- <- <-.
              congruence.
           ++ simpl in E; injection E as -> ->; simpl in Hw; rewrite El in Hw.
              exists pre, k, nm', ch', m'; repeat split; assumption.
      * destruct (Proto.is_proto_key p) eqn:Ep.
        -- split.
           ++ intros [w Hw]; right; destruct ps as [|q ps]; [|simpl in Hw; discriminate].
              exists [], p, nm, ch, m; repeat split; [exact El|apply is_proto_key_In; exact Ep].
           ++ intros [[n Hn]|[pre [k [nm' [ch' [m' [E [Hw [Hk Hin]]]]]]]]]; [discriminate|].
              destruct pre as [|q pre].
              ** simpl in E; injection E as -> ->; eexists; reflexivity.
              ** simpl in E; injection E as -> ->; simpl in Hw; rewrite El in Hw; discriminate.
        -- split; [intros [w Hw]; discriminate|].
           intros [[n Hn]|[pre [k [nm' [ch' [m' [E [Hw [Hk Hin]]]]]]]]]; [discriminate|].
           destruct pre as [|q pre].
           ++ simpl in E; injection E as -> ->.
              apply is_proto_key_In in Hin; congruence.
           ++ simpl in E; injection E as -> ->; simpl in Hw; rewrite El in Hw; discriminate.
    + simpl; split; [intros [w Hw]; discriminate|].
      intros [[n Hn]|[pre [k [nm' [ch' [m' [E [Hw [Hk Hin]]]]]]]]]; [discriminate|].
      destruct pre as [|q pre]; simpl in Hw; discriminate.
Qed.



Lemma segments_dotdot_cons (r : string) :
  segments (".." ++ "/" ++ r)%string = ".." :: segments r.
Proof. reflexivity. Qed.

Lemma segments_dotdots (n : nat) : segments (dotdots n) = repeat ".." n.
Proof.
  induction n as [|[|m] IH]; [reflexivity|reflexivity|].
  change (dotdots (S (S m))) with (".." ++ "/" ++ dotdots (S m))%string.
  rewrite segments_dotdot_cons, IH; reflexivity.
Qed.

Lemma fold_canonical (l acc : list string) :
  canonical_segments l -> fold_left fold_segment l acc = acc ++ l.
Proof.
  revert acc; induction l as [|p ps IH]; intros acc Hl; simpl; [symmetry; apply app_nil_r|].
  inversion Hl as [|? ? [H1 H2] Hps]; subst.
  unfold fold_segment at 2.
  apply String.eqb_neq in H1; apply String.eqb_neq in H2; rewrite H1, H2.
  rewrite IH by exact Hps; rewrite <- app_assoc; reflexivity.
Qed.

Lemma fold_dotdots (n : nat) (acc : list string) :
  fold_left fold_segment (repeat ".." n) acc = firstn (length acc - n) acc.
Proof.
  revert acc; induction n as [|n IH]; intros acc; simpl.
  - rewrite Nat.sub_0_r, firstn_all; reflexivity.
  - rewrite IH.
    change (fold_segment acc "..") with (removelast acc).
    destruct acc as [|x t]; [reflexivity|].
    rewrite removelast_firstn_len, length_firstn, firstn_firstn.
    f_equal; simpl; lia.
Qed.

Lemma walk_ok_firstn (c : FSNode) (l : list string) (k : nat) :
  walk_ok c l = true -> walk_ok c (firstn k l) = true.
Proof.
  revert c k; induction l as [|p ps IH]; intros c k H; destruct k; simpl in *;
    try reflexivity.
  destruct c as [nm ch m|]; [|discriminate].
  destruct (lookup_child ch p); [apply IH; exact H|discriminate].
Qed.

(** C3: a target made of [n] ".." segments, resolved against an existing
    directory given by canonical segments, never fails: each ".." drops
    one segment and the result clamps at the root. *)
Theorem resolvePath_dotdots_clamps (root : FSNode) (current : string) (n : nat) :
  canonical_segments (segments current) ->
  walk_ok root (segments current) = true ->
  resolvePath root current (dotdots n) =
  Some ("/" ++ join "/" (firstn (length (segments current) - n) (segments current)))%string.
Proof.
  intros Hcan Hwalk.
  assert (Hs : startsWith (dotdots n) "/" = false) by (destruct n as [|[|m]]; reflexivity).
  assert (E : String.eqb (dotdots n) "/" || String.eqb (dotdots n) "~" = false)
    by (destruct n as [|[|m]]; reflexivity).
  unfold resolvePath; rewrite E.
  unfold resolve_parts; rewrite Hs, segments_dotdots.
  unfold fold_segments; rewrite fold_left_app, (fold_canonical (segments current) []) by exact Hcan.
  rewrite fold_dotdots; simpl.
  rewrite walk_ok_firstn by exact Hwalk; reflexivity.
Qed.

Lemma resolvePath_dotdots_clamps_witness :
  resolvePath root_with_a "/a" "../../.." = Some "/".
Proof.
  exact (resolvePath_dotdots_clamps root_with_a "/a" 3
           ltac:(repeat constructor; discriminate) eq_refl).
Defined.

End PathFacts.

(** ** Fuzzy ranking *)

Module FuzzyFacts.
Import JS FS Fuzzy Props.

Section InsertionSort.
Variable A : Type.
Variable cmp : A -> A -> comparison.
Variable R : A -> A -> Prop.
Hypothesis R_gt : forall x y, cmp x y = Gt -> R y x.
Hypothesis R_not_gt : forall x y, cmp x y <> Gt -> R x y.

Lemma insert_by_sorted (x : A) (l : list A) :
  Sorted R l -> Sorted R (insert_by cmp x l).
Proof.
  induction l as [|y l IH]; simpl; intros Hs; [repeat constructor|].
  destruct (cmp x y) eqn:E.
  - constructor; [exact Hs|constructor; apply R_not_gt; rewrite E; discriminate].
  - constructor; [exact Hs|constructor; apply R_not_gt; rewrite E; discriminate].
  - inversion Hs as [|? ? Hl Hhd]; subst.
    constructor; [apply IH; exact Hl|].
    destruct l as [|z l']; simpl; [constructor; apply R_gt; exact E|].
    inversion Hhd; subst.
    destruct (cmp x z); constructor; try assumption; apply R_gt; exact E.
Qed.

Lemma sort_by_sorted (l : list A) : Sorted R (sort_by cmp l).
Proof.
  induction l as [|x l IH]; simpl; [constructor|].
  apply insert_by_sorted; exact IH.
Qed.

End InsertionSort.

Lemma in_insert_by {A} (cmp : A -> A -> comparison) (x r : A) (l : list A) :
  In r (insert_by cmp x l) <-> x = r \/ In r l.
Proof.
  induction l as [|y l IH]; simpl; [tauto|].
  destruct (cmp x y); simpl; rewrite ?IH; tauto.
Qed.

Lemma in_sort_by {A} (cmp : A -> A -> comparison) (r : A) (l : list A) :
  In r (sort_by cmp l) <-> In r l.
Proof.
  induction l as [|x l IH]; simpl; [tauto|].
  rewrite in_insert_by, IH; tauto.
Qed.

Lemma sorted_firstn {A} (R : A -> A -> Prop) (k : nat) (l : list A) :
  Sorted R l -> Sorted R (firstn k l).
Proof.
  revert k; induction l as [|x l IH]; intros k Hs; destruct k; simpl;
    [constructor|constructor|constructor|].
  inversion Hs as [|? ? Hl Hhd]; subst.
  constructor; [apply IH; exact Hl|].
  destruct l, k; simpl; constructor; inversion Hhd; assumption.
Qed.

Lemma strongly_sorted_nth {A} (R : A -> A -> Prop) (l : list A) :
  StronglySorted R l ->
  forall i j a b, i < j -> nth_error l i = Some a -> nth_error l j = Some b -> R a b.
Proof.
  induction 1 as [|x l Hl IH Hall]; intros i j a b Hij Ha Hb;
    [destruct i; discriminate|].
  destruct i as [|i], j as [|j]; simpl in *; try lia.
  - injection Ha as <-. rewrite Forall_forall in Hall; apply Hall.
    apply nth_error_In with j; exact Hb.
  - apply (IH i j); [lia|assumption|assumption].
Qed.

Lemma row_cmp_gt (x y : Row) : row_cmp x y = Gt -> score y <= score x.
Proof.
  unfold row_cmp; destruct (Nat.compare (score x) (score y)) eqn:E; intros H;
    try discriminate.
  - apply Nat.compare_eq in E; lia.
  - apply Nat.compare_gt_iff in E; lia.
Qed.

Lemma row_cmp_not_gt (x y : Row) : row_cmp x y <> Gt -> score x <= score y.
Proof.
  unfold row_cmp; destruct (Nat.compare (score x) (score y)) eqn:E; intros H.
  - apply Nat.compare_eq in E; lia.
  - apply Nat.compare_lt_iff in E; lia.
  - contradiction.
Qed.

Lemma row_cmp_antisym (x y : Row) : row_cmp x y = Gt -> row_cmp y x <> Gt.
Proof.
  unfold row_cmp, localeCompare.
  rewrite Nat.compare_antisym, String.compare_antisym.
  destruct (Nat.compare (score y) (score x)), (String.compare (candidate y) (candidate x));
    simpl; discriminate.
Qed.

Lemma mk_row_score (nq c : string) :
  score (mk_row nq c) = row_group (mk_row nq c) * 100 + distance (mk_row nq c).
Proof. reflexivity. Qed.

Lemma in_firstn {A} (k : nat) (l : list A) (x : A) : In x (firstn k l) -> In x l.
Proof.
  revert k; induction l as [|y l IH]; intros k; destruct k; simpl; try tauto.
  intros [H|H]; [left; exact H|right; apply (IH k); exact H].
Qed.

(** C6: the packed score [100 * group + distance] does not order by
    (group, distance) once a distance reaches 100: a prefix match (group 0)
    at distance 102 is ranked after a substring match (group 1) at
    distance 1, both being eligible. *)
Lemma rankCandidates_not_lexicographic :
  rankCandidates "ab" [long_prefix_candidate; "xab"] 4 = ["xab"; long_prefix_candidate] /\
  row_group (mk_row "ab" long_prefix_candidate) = 0 /\
  distance (mk_row "ab" long_prefix_candidate) = 102 /\
  row_group (mk_row "ab" "xab") = 1 /\
  distance (mk_row "ab" "xab") = 1 /\
  score (mk_row "ab" long_prefix_candidate) = 102 /\
  score (mk_row "ab" "xab") = 101.
Proof. vm_compute; repeat split. Qed.

(** C5: the distance between "hlep" and "help" is 2 (a transposition
    costs two unit edits), not 1; and a vocabulary holding a closer
    candidate ranks that one first. *)
Lemma hlep_distance_two :
  levenshteinDistance "hlep" "help" = 2 /\
  rankCandidates "hlep" ["help"; "hlepx"] 4 = ["hlepx"; "help"].
Proof. vm_compute; split; reflexivity. Qed.

(** C5 (as the code has it): for "hlep" the threshold is 2, "help" is at
    distance 2 and so eligible, and against the shell's command vocabulary
    it is ranked first. *)
Theorem hlep_ranks_help_first :
  getMaxEditDistance (String.length (normalize_query "hlep")) = 2 /\
  levenshteinDistance "hlep" "help" = 2 /\
  eligible 2 (mk_row "hlep" "help") = true /\
  hd_error (rankCandidates "hlep" Exec.AUTOCOMPLETE_COMMANDS 4) = Some "help".
Proof. vm_compute; repeat split. Qed.

End FuzzyFacts.

(** ** The dispatcher *)

Module ExecFacts.
Import JS FS Path Fuzzy Render Session Exec Props.

Definition is_error_action (a : Action) : bool :=
  match a with ADD_HISTORY i => ItemType_eqb (item_type i) Error | _ => false end.

(** The component state an error leaves alone. *)
Definition ui_frame (u u' : UI) : Prop :=
  helpWizardStep u' = helpWizardStep u /\ helpWizardSeen u' = helpWizardSeen u /\
  lastOpenedFilePath u' = lastOpenedFilePath u.

Ltac split_branches :=
  repeat match goal with
         | |- context [match ?x with _ => _ end] => destruct x
         | |- context [if ?b then _ else _] => destruct b
         end.

Lemma runTree_single root cwd args : exists a, runTree root cwd args = [a].
Proof. unfold runTree; split_branches; eexists; reflexivity. Qed.

Lemma runCd_single root cwd args : exists a, runCd root cwd args = [a].
Proof. unfold runCd; split_branches; eexists; reflexivity. Qed.

Lemma runCat_single root cwd args : exists a, runCat root cwd args = [a].
Proof. unfold runCat; split_branches; eexists; reflexivity. Qed.

Lemma runLs_single root cwd : exists a, runLs root cwd = [a].
Proof. unfold runLs; split_branches; eexists; reflexivity. Qed.

Lemma runSearch_single root args : exists a, runSearch root args = [a].
Proof. unfold runSearch; split_branches; eexists; reflexivity. Qed.

Lemma runOpen_shape root cwd args u :
  exists a, fst (runOpen root cwd args u) = [a] /\
    (is_error_action a = true -> snd (runOpen root cwd args u) = u) /\
    helpWizardStep (snd (runOpen root cwd args u)) = helpWizardStep u /\
    helpWizardSeen (snd (runOpen root cwd args u)) = helpWizardSeen u.
Proof.
  unfold runOpen; split_branches; eexists; simpl;
    (split; [reflexivity|split; [try discriminate; reflexivity|split; reflexivity]]).
Qed.

Lemma run_wizard_shape raw u :
  (fst (run_wizard raw u) = [] /\ snd (run_wizard raw u) = u) \/
  exists a, fst (run_wizard raw u) = [a] /\ is_error_action a = false.
Proof.
  unfold run_wizard; split_branches;
    first [left; split; reflexivity | right; eexists; split; reflexivity].
Qed.

Lemma run_wizard_seen raw u :
  helpWizardSeen u = true -> helpWizardSeen (snd (run_wizard raw u)) = true.
Proof. intros H; unfold run_wizard; split_branches; simpl; auto. Qed.

Lemma run_command_shape root st u name args raw :
  exists a, fst (run_command root st u name args raw) = [a] /\
    (is_error_action a = true -> ui_frame u (snd (run_command root st u name args raw))).
Proof.
  unfold run_command.
  destruct (String.eqb name "help");
    [destruct (negb (helpWizardSeen u) && WizardStep_eqb (helpWizardStep u) WNone);
     eexists; split; [reflexivity|discriminate|reflexivity|discriminate]|].
  destruct (String.eqb name "clear"); [eexists; split; [reflexivity|discriminate]|].
  destruct (String.eqb name "home"); [eexists; split; [reflexivity|discriminate]|].
  destruct (String.eqb name "cd");
    [destruct (runCd_single root (currentCwd st) args) as [a Ha]; simpl; rewrite Ha;
     exists a; split; [reflexivity|intros _; repeat split]|].
  destruct (String.eqb name "ls");
    [destruct (runLs_single root (currentCwd st)) as [a Ha]; simpl; rewrite Ha;
     exists a; split; [reflexivity|intros _; repeat split]|].
  destruct (String.eqb name "pwd"); [eexists; split; [reflexivity|discriminate]|].
  destruct (String.eqb name "back").
  { destruct (length (cwds st) <=? 1); eexists; split;
      [reflexivity|intros _; repeat split|reflexivity|discriminate]. }
  destruct (String.eqb name "tree");
    [destruct (runTree_single root (currentCwd st) args) as [a Ha]; simpl; rewrite Ha;
     exists a; split; [reflexivity|intros _; repeat split]|].
  destruct (String.eqb name "open").
  { destruct (runOpen_shape root (currentCwd st) args (set_used_open u)) as [a [Ha [He _]]].
    exists a; split; [exact Ha|intros E; rewrite (He E); repeat split]. }
  destruct (String.eqb name "cat");
    [destruct (runCat_single root (currentCwd st) args) as [a Ha]; simpl; rewrite Ha;
     exists a; split; [reflexivity|intros _; repeat split]|].
  destruct (String.eqb name "search");
    [destruct (runSearch_single root args) as [a Ha]; simpl; rewrite Ha;
     exists a; split; [reflexivity|intros _; repeat split]|].
  destruct (String.eqb name "summary"); [eexists; split; [reflexivity|discriminate]|].
  eexists; split; [reflexivity|intros _; repeat split].
Qed.

Lemma dispatch_shape fs st u raw :
  (fst (dispatch fs st u raw) = [] /\ snd (dispatch fs st u raw) = u) \/
  exists a, fst (dispatch fs st u raw) = [a] /\
    (is_error_action a = true -> ui_frame u (snd (dispatch fs st u raw))).
Proof.
  unfold dispatch.
  destruct (Parser.parseCommand raw) as [p|]; [|left; split; reflexivity].
  destruct (Parser.error p); [right; eexists; split; [reflexivity|intros _; repeat split]|].
  destruct (negb (WizardStep_eqb (helpWizardStep u) WNone)).
  - destruct (run_wizard_shape raw u) as [H|[a [Ha He]]]; [left; exact H|].
    right; exists a; split; [exact Ha|intros E; rewrite He in E; discriminate].
  - destruct fs as [root|]; [right; apply run_command_shape|].
    right; eexists; split; [reflexivity|intros _; repeat split].
Qed.

Lemma dispatch_blank fs st u raw :
  String.eqb (trim raw) EmptyString = true -> dispatch fs st u raw = ([], u).
Proof.
  intros H; unfold dispatch, Parser.parseCommand; rewrite H; reflexivity.
Qed.

Lemma execute_eq fs s raw :
  String.eqb (trim raw) EmptyString = false ->
  execute fs s raw =
  mkSess (run_actions (shell s)
            ([ADD_HISTORY (echo_item raw (currentCwd (shell s))); ADD_COMMAND raw]
             ++ fst (dispatch fs (shell s) (ui s) raw)))
         (snd (dispatch fs (shell s) (ui s) raw)).
Proof.
  intros H; unfold execute; rewrite H.
  destruct (dispatch fs (shell s) (ui s) raw); reflexivity.
Qed.

Lemma execute_command root s raw name args :
  Parser.parseCommand raw = Some (Parser.mkParsed raw name args None) ->
  helpWizardStep (ui s) = WNone ->
  execute (Some root) s raw =
  mkSess (run_actions (shell s)
            ([ADD_HISTORY (echo_item raw (currentCwd (shell s))); ADD_COMMAND raw]
             ++ fst (run_command root (shell s) (ui s) name args raw)))
         (snd (run_command root (shell s) (ui s) name args raw)).
Proof.
  intros Hp Hs.
  destruct (String.eqb (trim raw) EmptyString) eqn:Et.
  { unfold Parser.parseCommand in Hp; rewrite Et in Hp; discriminate. }
  rewrite execute_eq by exact Et.
  unfold dispatch; rewrite Hp, Hs; reflexivity.
Qed.

(** C1 (as the code has it): [back] with only the floor entry on the
    stack leaves the stack and the current directory as they are and, after
    the echo of the line, appends an error-tagged entry. *)
Theorem back_at_floor_appends_error (root : FSNode) (s : Sess) (raw : string)
    (args : list string) :
  Parser.parseCommand raw = Some (Parser.mkParsed raw "back" args None) ->
  helpWizardStep (ui s) = WNone ->
  length (cwds (shell s)) <= 1 ->
  execute (Some root) s raw =
  mkSess (mkShell (history (shell s) ++
                   [echo_item raw (currentCwd (shell s));
                    mkItem Error "Already at root of session." [] None])
                  (commandHistory (shell s) ++ [raw])
                  (cwds (shell s)) (currentCwd (shell s)))
         (ui s).
Proof.
  intros Hp Hs Hlen.
  rewrite (execute_command root s raw "back" args Hp Hs).
  unfold run_command; simpl.
  apply Nat.leb_le in Hlen; rewrite Hlen; simpl.
  destruct (shell s) as [h ch cs cur]; simpl.
  rewrite <- app_assoc; reflexivity.
Qed.

Lemma back_at_floor_appends_error_witness :
  execute (Some sample_root) fresh_session "back" =
  mkSess (mkShell [defaultBanner; echo_item "back" "/";
                   mkItem Error "Already at root of session." [] None]
                  ["back"] ["/"] "/") initialUI.
Proof.
  exact (back_at_floor_appends_error sample_root fresh_session "back" []
           eq_refl eq_refl ltac:(simpl; lia)).
Defined.

(** C1: the entry appended at the floor is an error entry, not a notice. *)
Lemma back_at_floor_entry_is_error :
  map item_type (history (shell (execute (Some sample_root) fresh_session "back")))
  = [Banner; Command; Error].
Proof. vm_compute; reflexivity. Qed.

(** C7 (as the code has it): with no onboarding step active and the tree
    loaded, [clear] resets the log to its banner entries (or the default
    banner), keeps the working-directory stack and current directory, and,
    like every executed line, appends the line to the command history. *)
Theorem clear_keeps_banners (root : FSNode) (s : Sess) (raw : string) (args : list string) :
  Parser.parseCommand raw = Some (Parser.mkParsed raw "clear" args None) ->
  helpWizardStep (ui s) = WNone ->
  execute (Some root) s raw =
  mkSess (mkShell (banners_or_default (history (shell s)))
                  (commandHistory (shell s) ++ [raw])
                  (cwds (shell s)) (currentCwd (shell s)))
         (ui s).
Proof.
  intros Hp Hs.
  rewrite (execute_command root s raw "clear" args Hp Hs).
  unfold run_command; simpl.
  destruct (shell s) as [h ch cs cur]; simpl.
  unfold banners_or_default; rewrite filter_app, app_nil_r.
  destruct (filter is_banner h); reflexivity.
Qed.

Lemma clear_keeps_banners_witness :
  execute (Some sample_root)
          (execute (Some sample_root) fresh_session "cd dune") "clear" =
  mkSess (mkShell [defaultBanner] ["cd dune"; "clear"] ["/"; "/dune"] "/dune") initialUI.
Proof.
  exact (clear_keeps_banners sample_root
           (execute (Some sample_root) fresh_session "cd dune") "clear" []
           eq_refl eq_refl).
Defined.

(** C7: [clear] records itself in the command history, and it does not
    clear while the onboarding detour is waiting for an answer or when the
    tree is not loaded. *)
Lemma clear_records_and_is_gated :
  commandHistory (shell (execute (Some sample_root) fresh_session "clear")) = ["clear"] /\
  map item_type (history (shell (execute_all (Some sample_root) fresh_session
                                  ["help"; "clear"])))
  = [Banner; Command; Output; Command; Output] /\
  map item_type (history (shell (execute None fresh_session "clear")))
  = [Banner; Command; Error].
Proof. vm_compute; repeat split. Qed.

Lemma parse_some_nonblank raw p :
  Parser.parseCommand raw = Some p -> String.eqb (trim raw) EmptyString = false.
Proof.
  intros Hp; destruct (String.eqb (trim raw) EmptyString) eqn:Et; [|reflexivity].
  unfold Parser.parseCommand in Hp; rewrite Et in Hp; discriminate.
Qed.

Lemma run_command_seen root st u name args raw :
  helpWizardSeen u = true ->
  helpWizardSeen (snd (run_command root st u name args raw)) = true.
Proof.
  intros H; unfold run_command.
  repeat match goal with
         | |- context [if String.eqb name ?c then _ else _] => destruct (String.eqb name c)
         end; simpl; try exact H;
    try (destruct (_ && _); exact H);
    try (destruct (_ <=? _); exact H).
  destruct (runOpen_shape root (currentCwd st) args (set_used_open u))
    as [a [_ [_ [_ Hs]]]].
  rewrite Hs; exact H.
Qed.

Lemma dispatch_seen fs st u raw :
  helpWizardSeen u = true -> helpWizardSeen (snd (dispatch fs st u raw)) = true.
Proof.
  intros H; unfold dispatch.
  destruct (Parser.parseCommand raw) as [p|]; [|exact H].
  destruct (Parser.error p); [exact H|].
  destruct (negb (WizardStep_eqb (helpWizardStep u) WNone)); [apply run_wizard_seen; exact H|].
  destruct fs; [apply run_command_seen; exact H|exact H].
Qed.

Lemma execute_seen fs s raw :
  helpWizardSeen (ui s) = true -> helpWizardSeen (ui (execute fs s raw)) = true.
Proof.
  intros H; destruct (String.eqb (trim raw) EmptyString) eqn:Et.
  - unfold execute; rewrite Et; exact H.
  - rewrite execute_eq by exact Et; simpl; apply dispatch_seen; exact H.
Qed.

Lemma execute_all_seen fs lines : forall s,
  helpWizardSeen (ui s) = true -> helpWizardSeen (ui (execute_all fs s lines)) = true.
Proof.
  unfold execute_all; induction lines as [|l ls IH]; intros s H; simpl; [exact H|].
  apply IH, execute_seen, H.
Qed.

Lemma execute_wizard fs s raw p :
  Parser.parseCommand raw = Some p -> Parser.error p = None ->
  helpWizardStep (ui s) <> WNone ->
  ui (execute fs s raw) = snd (run_wizard raw (ui s)).
Proof.
  intros Hp He Hs.
  rewrite execute_eq by exact (parse_some_nonblank raw p Hp); simpl.
  unfold dispatch; rewrite Hp, He.
  destruct (helpWizardStep (ui s)) eqn:E; [contradiction|reflexivity|reflexivity].
Qed.

(** C9 (as the code has it): when the dispatch of a line appends an error
    entry, the line still goes through the common path: after its echo the
    log gains exactly that error entry, the working-directory stack and
    current directory are unchanged, the line is appended to the command
    history, and the onboarding step, its seen flag and the last opened
    file are unchanged (a failed [open] still sets [hasUsedOpen]). *)
Theorem execute_error_is_local (fs : option FSNode) (s : Sess) (raw : string)
    (e : HistoryItem) :
  In (ADD_HISTORY e) (fst (dispatch fs (shell s) (ui s) raw)) ->
  item_type e = Error ->
  shell (execute fs s raw) =
  mkShell (history (shell s) ++ [echo_item raw (currentCwd (shell s)); e])
          (commandHistory (shell s) ++ [raw])
          (cwds (shell s)) (currentCwd (shell s)) /\
  ui_frame (ui s) (ui (execute fs s raw)).
Proof.
  intros Hin He.
  destruct (String.eqb (trim raw) EmptyString) eqn:Et.
  { rewrite dispatch_blank in Hin by exact Et; contradiction. }
  rewrite execute_eq by exact Et; simpl.
  destruct (dispatch_shape fs (shell s) (ui s) raw) as [[H1 _]|[a [Ha Hf]]].
  { rewrite H1 in Hin; contradiction. }
  rewrite Ha in Hin |- *; destruct Hin as [Ea|[]]; subst a.
  split.
  - destruct (shell s) as [h ch cs cur]; simpl; rewrite <- app_assoc; reflexivity.
  - apply Hf; simpl; rewrite He; reflexivity.
Qed.

Lemma execute_error_is_local_witness :
  shell (execute (Some sample_root) fresh_session "cd nowhere") =
  mkShell [defaultBanner; echo_item "cd nowhere" "/";
           mkItem Error "cd: no such file or directory: nowhere" ["ls"; "pwd"] None]
          ["cd nowhere"] ["/"] "/" /\
  ui_frame initialUI (ui (execute (Some sample_root) fresh_session "cd nowhere")).
Proof.
  exact (execute_error_is_local (Some sample_root) fresh_session "cd nowhere"
           (mkItem Error "cd: no such file or directory: nowhere" ["ls"; "pwd"] None)
           ltac:(vm_compute; left; reflexivity) eq_refl).
Defined.

(** C9: a line whose command fails is still recorded in the command
    history, and a failed [open] still marks [open] as used. *)
Lemma failed_command_leaves_traces :
  commandHistory (shell (execute (Some sample_root) fresh_session "cd nowhere"))
  = ["cd nowhere"] /\
  map item_type (history (shell (execute (Some sample_root) fresh_session "open nowhere")))
  = [Banner; Command; Error] /\
  hasUsedOpen (ui (execute (Some sample_root) fresh_session "open nowhere")) = true /\
  hasUsedOpen initialUI = false.
Proof. vm_compute; repeat split. Qed.

(** C4 (as the code has it): accepting the onboarding detour (yes at its
    first question) marks it as seen, and from then on every [help] run with
    no detour step active prints the command grid and leaves the component
    state alone; declining at the first question returns to normal dispatch
    without marking the detour as seen, so a later [help] enters it again;
    either answer to the second question ends the detour. *)
Theorem help_detour_until_accepted :
  (forall fs s lines, helpWizardSeen (ui s) = true ->
     helpWizardSeen (ui (execute_all fs s lines)) = true) /\
  (forall root s raw args,
     helpWizardSeen (ui s) = true -> helpWizardStep (ui s) = WNone ->
     Parser.parseCommand raw = Some (Parser.mkParsed raw "help" args None) ->
     execute (Some root) s raw =
     mkSess (run_actions (shell s)
               [ADD_HISTORY (echo_item raw (currentCwd (shell s))); ADD_COMMAND raw;
                addOutput help_grid])
            (ui s)) /\
  (forall root s raw args,
     helpWizardSeen (ui s) = false -> helpWizardStep (ui s) = WNone ->
     Parser.parseCommand raw = Some (Parser.mkParsed raw "help" args None) ->
     ui (execute (Some root) s raw) = set_step (ui s) WStart) /\
  (forall fs s raw p,
     helpWizardStep (ui s) = WStart ->
     Parser.parseCommand raw = Some p -> Parser.error p = None ->
     (toLowerCase (trim raw) = "y" \/ toLowerCase (trim raw) = "yes") ->
     ui (execute fs s raw) = set_step (set_seen (ui s)) WExperience) /\
  (forall fs s raw p,
     helpWizardStep (ui s) = WStart ->
     Parser.parseCommand raw = Some p -> Parser.error p = None ->
     (toLowerCase (trim raw) = "n" \/ toLowerCase (trim raw) = "no") ->
     ui (execute fs s raw) = set_step (ui s) WNone) /\
  (forall fs s raw p,
     helpWizardStep (ui s) = WExperience ->
     Parser.parseCommand raw = Some p -> Parser.error p = None ->
     (toLowerCase (trim raw) = "y" \/ toLowerCase (trim raw) = "yes" \/
      toLowerCase (trim raw) = "n" \/ toLowerCase (trim raw) = "no") ->
     ui (execute fs s raw) = set_step (ui s) WNone).
Proof.
  split; [intros fs s lines H; apply execute_all_seen, H|].
  split.
  { intros root s raw args Hseen Hs Hp.
    rewrite (execute_command root s raw "help" args Hp Hs).
    unfold run_command; simpl; rewrite Hseen, Hs; reflexivity. }
  split.
  { intros root s raw args Hseen Hs Hp.
    rewrite (execute_command root s raw "help" args Hp Hs).
    unfold run_command; simpl; rewrite Hseen, Hs; reflexivity. }
  split.
  { intros fs s raw p Hs Hp He Hy.
    rewrite (execute_wizard fs s raw p Hp He) by (rewrite Hs; discriminate).
    unfold run_wizard; cbv zeta.
    destruct Hy as [Hy|Hy]; rewrite Hy, Hs; reflexivity. }
  split.
  { intros fs s raw p Hs Hp He Hn.
    rewrite (execute_wizard fs s raw p Hp He) by (rewrite Hs; discriminate).
    unfold run_wizard; cbv zeta.
    destruct Hn as [Hn|Hn]; rewrite Hn, Hs; reflexivity. }
  { intros fs s raw p Hs Hp He Ha.
    rewrite (execute_wizard fs s raw p Hp He) by (rewrite Hs; discriminate).
    unfold run_wizard; cbv zeta.
    destruct Ha as [Ha|[Ha|[Ha|Ha]]]; rewrite Ha, Hs; reflexivity. }
Qed.

Lemma help_detour_until_accepted_witness :
  helpWizardSeen (ui (execute_all (Some sample_root) help_accepted_session
                        ["help"; "ls"])) = true /\
  execute (Some sample_root) help_accepted_session "help" =
  mkSess (run_actions (shell help_accepted_session)
            [ADD_HISTORY (echo_item "help" "/"); ADD_COMMAND "help"; addOutput help_grid])
         (ui help_accepted_session) /\
  ui (execute (Some sample_root) fresh_session "help") = set_step initialUI WStart /\
  ui (execute (Some sample_root) (execute (Some sample_root) fresh_session "help") "yes")
  = mkUI WExperience true false None /\
  ui (execute (Some sample_root) (execute (Some sample_root) fresh_session "help") "No")
  = mkUI WNone false false None /\
  ui help_accepted_session = mkUI WNone true false None.
Proof.
  destruct help_detour_until_accepted as [A [B [C [D [E F]]]]].
  split; [apply A; vm_compute; reflexivity|].
  split; [apply (B sample_root help_accepted_session "help" []);
          vm_compute; reflexivity|].
  split; [apply (C sample_root fresh_session "help" []); reflexivity|].
  split; [apply (D (Some sample_root) (execute (Some sample_root) fresh_session "help")
                  "yes" (Parser.mkParsed "yes" "yes" [] None));
          vm_compute; try reflexivity; right; reflexivity|].
  split; [apply (E (Some sample_root) (execute (Some sample_root) fresh_session "help")
                  "No" (Parser.mkParsed "No" "no" [] None));
          vm_compute; try reflexivity; right; reflexivity|].
  unfold help_accepted_session, execute_all; simpl fold_left.
  apply (F (Some sample_root)
           (execute (Some sample_root) (execute (Some sample_root) fresh_session "help") "yes")
           "no" (Parser.mkParsed "no" "no" [] None));
    vm_compute; try reflexivity; right; right; right; reflexivity.
Defined.

(** C4: declining at the first question does not mark the detour as seen,
    so the next [help] enters it again. *)
Lemma help_after_decline_reenters :
  helpWizardStep (ui (execute_all (Some sample_root) fresh_session ["help"; "no"; "help"]))
  = WStart.
Proof. vm_compute; reflexivity. Qed.

End ExecFacts.

(* ------------------------------------------------------------------ *)
(** ** Command-history navigation *)

Module HistoryFacts.
Import Prompt.

(** [handleHistory] never leaves the recorded commands: from a pointer
    that indexes [history] (or [null]), the new pointer, when there is
    one, again indexes [history] and the prompt shows exactly that
    command, never [undefined]. *)
Theorem handleHistory_pointer_in_range (history : list string) (ptr : option nat)
    (input : string) (d : Direction) :
  (forall i, ptr = Some i -> i < length history) ->
  forall j, fst (handleHistory history ptr input d) = Some j ->
  j < length history /\
  exists cmd, snd (handleHistory history ptr input d) = Some cmd /\
              nth_error history j = Some cmd.
Proof.
  intros Hptr j.
  assert (Hok : j < length history -> exists cmd, nth_error history j = Some cmd).
  { intros Hj; destruct (nth_error history j) eqn:E; [eexists; reflexivity|].
    apply nth_error_None in E; lia. }
  destruct history as [|h0 hs]; simpl.
  - intros ->; specialize (Hptr j eq_refl); simpl in Hptr; lia.
  - destruct d, ptr as [i|]; simpl.
    + intros Ej; injection Ej as <-.
      specialize (Hptr i eq_refl); simpl in Hptr.
      assert (Hj : Nat.max 0 (i - 1) < S (length hs)) by lia.
      split; [exact Hj|]. destruct (Hok Hj) as [cmd Hc]; exists cmd; split; exact Hc.
    + intros Ej; injection Ej as <-.
      assert (Hj : length hs - 0 < S (length hs)) by lia.
      split; [exact Hj|]. destruct (Hok Hj) as [cmd Hc]; exists cmd; split; exact Hc.
    + destruct (length hs <=? i) eqn:E; simpl; [discriminate|].
      intros Ej; injection Ej as <-. apply Nat.leb_gt in E.
      assert (Hj : S i < S (length hs)) by lia.
      split; [exact Hj|]. destruct (Hok Hj) as [cmd Hc]; exists cmd; split; exact Hc.
    + discriminate.
Qed.

Lemma handleHistory_pointer_in_range_witness :
  let h := ["ls"; "cd books"; "pwd"] in
  fst (handleHistory h (Some 1) "x" Up) = Some 0 /\
  (0 < length h /\
   exists cmd, snd (handleHistory h (Some 1) "x" Up) = Some cmd /\ nth_error h 0 = Some cmd).
Proof.
  cbv zeta; split; [reflexivity|].
  apply (handleHistory_pointer_in_range ["ls"; "cd books"; "pwd"] (Some 1) "x" Up).
  - intros i Ei; injection Ei as <-; simpl; lia.
  - reflexivity.
Defined.

(** The ends of the history: with at least one recorded command, Up at
    the oldest entry stays on it, Down at the newest entry leaves the
    history with an empty prompt, Down when not browsing changes nothing,
    Up from a fresh prompt shows the newest command, and Down undoes an
    Up taken from any entry but the oldest. *)
Theorem handleHistory_ends (h : list string) (input : string) :
  h <> [] ->
  handleHistory h (Some 0) input Up = (Some 0, nth_error h 0) /\
  handleHistory h (Some (length h - 1)) input Down = (None, Some "") /\
  handleHistory h None input Down = (None, Some input) /\
  handleHistory h None input Up = (Some (length h - 1), nth_error h (length h - 1)) /\
  (forall i input', S i < length h ->
     handleHistory h (fst (handleHistory h (Some (S i)) input' Up)) input Down =
     (Some (S i), nth_error h (S i))).
Proof.
  destruct h as [|h0 hs]; [contradiction|intros _; simpl].
  repeat split.
  - rewrite Nat.sub_0_r, Nat.leb_refl; reflexivity.
  - intros i input' Hi; simpl.
    rewrite ?Nat.sub_0_r.
    destruct (length hs <=? i) eqn:E; [apply Nat.leb_le in E; lia|reflexivity].
Qed.

Lemma handleHistory_ends_witness :
  handleHistory ["ls"; "pwd"] (Some 1) "" Down = (None, Some "") /\
  handleHistory ["ls"; "pwd"] (Some 0) "" Up = (Some 0, Some "ls").
Proof.
  destruct (handleHistory_ends ["ls"; "pwd"] "" ltac:(discriminate)) as [H1 [H2 _]].
  split; [exact H2|exact H1].
Defined.

End HistoryFacts.

(* ------------------------------------------------------------------ *)
(** ** The sidebar expansion flags *)

Module SidebarFacts.
Import Obj Sidebar.

Lemma obj_get_set_same {V} (o : list (string * V)) (k : string) (v : V) :
  obj_get (obj_set o k v) k = Some v.
Proof.
  unfold obj_get; induction o as [|[k' v'] o IH]; simpl.
  - rewrite String.eqb_refl; reflexivity.
  - destruct (String.eqb k' k) eqn:E; simpl; rewrite ?E; [reflexivity|exact IH].
Qed.

Lemma obj_get_set_other {V} (o : list (string * V)) (k q : string) (v : V) :
  k <> q -> obj_get (obj_set o k v) q = obj_get o q.
Proof.
  unfold obj_get; intros Hne; induction o as [|[k' v'] o IH]; simpl.
  - apply String.eqb_neq in Hne; rewrite Hne; reflexivity.
  - destruct (String.eqb k' k) eqn:E; simpl.
    + apply String.eqb_eq in E; subst k'.
      apply String.eqb_neq in Hne; rewrite Hne; reflexivity.
    + destruct (String.eqb k' q); [reflexivity|exact IH].
Qed.

(** A directory is shown expanded until it has been clicked; the first
    click stores [true] ([!undefined]) and so leaves it expanded: after
    [n] clicks on a path never clicked before, it is collapsed exactly
    when [n] is even and at least 2. Clicking one path leaves the flag of
    every other path as it was. *)
Theorem toggleExpand_first_click_keeps_expanded (e : list (string * bool)) (path : string) :
  obj_get e path = None ->
  (forall n, isExpanded (Nat.iter n (fun x => toggleExpand x path) e) path =
             (n =? 0) || Nat.odd n) /\
  (forall q, q <> path -> obj_get (toggleExpand e path) q = obj_get e q).
Proof.
  intros Hnone; split.
  - assert (Hflag : forall n, obj_get (Nat.iter (S n) (fun x => toggleExpand x path) e) path =
                              Some (Nat.odd (S n))).
    { induction n as [|n IH].
      - simpl; unfold toggleExpand; rewrite Hnone, obj_get_set_same; reflexivity.
      - change (Nat.iter (S (S n)) (fun x => toggleExpand x path) e)
          with (toggleExpand (Nat.iter (S n) (fun x => toggleExpand x path) e) path).
        unfold toggleExpand at 1; rewrite IH, obj_get_set_same.
        rewrite (Nat.odd_succ (S n)), <- Nat.negb_odd; reflexivity. }
    intros [|n]; simpl Nat.eqb; cbn [orb].
    + simpl; unfold isExpanded; rewrite Hnone; reflexivity.
    + unfold isExpanded; rewrite Hflag; destruct (Nat.odd (S n)); reflexivity.
  - intros q Hq; unfold toggleExpand; apply obj_get_set_other; congruence.
Qed.

Lemma toggleExpand_first_click_keeps_expanded_witness :
  isExpanded (Nat.iter 2 (fun x => toggleExpand x "/dune") []) "/dune" = false /\
  isExpanded (Nat.iter 1 (fun x => toggleExpand x "/dune") []) "/dune" = true.
Proof.
  destruct (toggleExpand_first_click_keeps_expanded [] "/dune" eq_refl) as [H _].
  split; [exact (H 2)|exact (H 1)].
Defined.

End SidebarFacts.

(* ------------------------------------------------------------------ *)
(** ** Paths: segments, canonical stacks and well-formed trees *)

Module PathLemmas.
Import JS FS Path Props Props2 PathFacts.

Lemma str_app_assoc (x y z : string) : (x ++ y ++ z)%string = ((x ++ y) ++ z)%string.
Proof. induction x as [|c x IH]; simpl; [reflexivity|rewrite IH; reflexivity]. Qed.

Lemma str_app_nil_r (x : string) : (x ++ "")%string = x.
Proof. induction x as [|c x IH]; simpl; [reflexivity|rewrite IH; reflexivity]. Qed.

Lemma str_length_app (x y : string) :
  String.length (x ++ y) = String.length x + String.length y.
Proof. induction x as [|c x IH]; simpl; [reflexivity|rewrite IH; reflexivity]. Qed.

Lemma list_ascii_app (x y : string) :
  list_ascii_of_string (x ++ y) = list_ascii_of_string x ++ list_ascii_of_string y.
Proof. induction x as [|c x IH]; simpl; [reflexivity|rewrite IH; reflexivity]. Qed.

Lemma split_nonempty (c : ascii) (s : string) : split c s <> [].
Proof.
  destruct s as [|d s]; simpl; [discriminate|].
  destruct (Ascii.eqb d c); [discriminate|destruct (split c s); discriminate].
Qed.

Lemma split_app (c : ascii) (x y : string) :
  split c (x ++ String c y) = split c x ++ split c y.
Proof.
  induction x as [|d x IH]; simpl.
  - rewrite Ascii.eqb_refl; reflexivity.
  - rewrite IH; destruct (Ascii.eqb d c); [reflexivity|].
    destruct (split c x) eqn:E; [exfalso; exact (split_nonempty c x E)|reflexivity].
Qed.

Lemma split_noslash (c : ascii) (s : string) :
  existsb (Ascii.eqb c) (list_ascii_of_string s) = false -> split c s = [s].
Proof.
  induction s as [|d s IH]; simpl; intros H; [reflexivity|].
  apply orb_false_iff in H as [H1 H2].
  rewrite Ascii.eqb_sym, H1, IH by exact H2; reflexivity.
Qed.

Lemma split_pieces (c : ascii) (s : string) :
  Forall (fun p => existsb (Ascii.eqb c) (list_ascii_of_string p) = false) (split c s).
Proof.
  induction s as [|d s IH]; simpl; [constructor; [reflexivity|constructor]|].
  destruct (Ascii.eqb d c) eqn:E; [constructor; [reflexivity|exact IH]|].
  destruct (split c s) as [|r rs] eqn:Es.
  - constructor; [simpl; rewrite Ascii.eqb_sym, E; reflexivity|constructor].
  - inversion IH as [|? ? Hr Hrs]; subst.
    constructor; [simpl; rewrite Ascii.eqb_sym, E; exact Hr|exact Hrs].
Qed.

Lemma segments_ok (s : string) :
  Forall (fun p => p <> EmptyString /\ noslash p) (segments s).
Proof.
  unfold segments, filter_nonempty.
  apply Forall_forall; intros p Hp; apply filter_In in Hp as [Hin Hne].
  split.
  - intros ->; discriminate.
  - pose proof (split_pieces slash s) as H; rewrite Forall_forall in H; exact (H p Hin).
Qed.

Lemma segments_slash_app (x y : string) :
  segments (x ++ String slash y) = segments x ++ segments y.
Proof. unfold segments, filter_nonempty; rewrite split_app, filter_app; reflexivity. Qed.

Lemma segments_single (n : string) :
  n <> EmptyString -> noslash n -> segments n = [n].
Proof.
  intros Hne Hns; unfold segments, filter_nonempty; rewrite split_noslash by exact Hns.
  simpl; destruct (String.eqb n "") eqn:E; [apply String.eqb_eq in E; contradiction|reflexivity].
Qed.

Lemma segments_join (S : list string) :
  Forall (fun p => p <> EmptyString /\ noslash p) S -> segments (join "/" S) = S.
Proof.
  induction S as [|x [|y S'] IH]; intros H; [reflexivity| |].
  - inversion H as [|? ? [Hx1 Hx2] _]; subst; apply segments_single; assumption.
  - inversion H as [|? ? [Hx1 Hx2] Hr]; subst.
    change (join "/" (x :: y :: S')) with (x ++ String slash (join "/" (y :: S')))%string.
    rewrite segments_slash_app, IH by exact Hr.
    rewrite segments_single by assumption; reflexivity.
Qed.

Lemma segments_abs (S : list string) :
  Forall (fun p => p <> EmptyString /\ noslash p) S -> segments ("/" ++ join "/" S) = S.
Proof.
  intros H; change ("/" ++ join "/" S)%string with ("" ++ String slash (join "/" S))%string.
  rewrite segments_slash_app, segments_join by exact H; reflexivity.
Qed.

Lemma join_nonempty (S : list string) :
  S <> [] -> Forall (fun p => p <> EmptyString /\ noslash p) S -> join "/" S <> EmptyString.
Proof.
  destruct S as [|x [|y S']]; intros Hne H; [contradiction| |];
    inversion H as [|? ? [Hx _] _]; subst; [exact Hx|].
  simpl; destruct x; [contradiction|discriminate].
Qed.

Lemma Forall_removelast {A} (P : A -> Prop) (l : list A) :
  Forall P l -> Forall P (removelast l).
Proof.
  induction l as [|x [|y t] IH]; intros H; simpl; [constructor|constructor|].
  inversion H as [|? ? Hx Ht]; subst.
  constructor; [exact Hx|apply IH; exact Ht].
Qed.

Lemma fold_segments_ok (l acc : list string) :
  Forall seg_ok acc -> Forall (fun p => p <> EmptyString /\ noslash p) l ->
  Forall seg_ok (fold_left fold_segment l acc).
Proof.
  revert acc; induction l as [|p l IH]; intros acc Hacc Hl; simpl; [exact Hacc|].
  inversion Hl as [|? ? Hp Hl']; subst.
  apply IH; [|exact Hl'].
  unfold fold_segment.
  destruct (String.eqb p ".") eqn:E1; [exact Hacc|].
  destruct (String.eqb p "..") eqn:E2; [apply Forall_removelast; exact Hacc|].
  apply String.eqb_neq in E1; apply String.eqb_neq in E2.
  apply Forall_app; split; [exact Hacc|repeat constructor; tauto].
Qed.

Lemma resolve_stack_ok (cwd t : string) :
  Forall seg_ok (fold_segments (resolve_parts cwd t)).
Proof.
  unfold fold_segments, resolve_parts; apply fold_segments_ok; [constructor|].
  destruct (startsWith t "/"); [apply segments_ok|apply Forall_app; split; apply segments_ok].
Qed.

Lemma seg_ok_weak (S : list string) :
  Forall seg_ok S -> Forall (fun p => p <> EmptyString /\ noslash p) S.
Proof. apply Forall_impl; intros p [H _]; exact H. Qed.

Lemma seg_ok_canonical (S : list string) : Forall seg_ok S -> canonical_segments S.
Proof. apply Forall_impl; intros p [_ H]; exact H. Qed.

Lemma fold_app_seg (l acc : list string) (p : string) :
  p <> "." -> p <> ".." ->
  fold_left fold_segment (l ++ [p]) acc = fold_left fold_segment l acc ++ [p].
Proof.
  intros H1 H2; rewrite fold_left_app; simpl; unfold fold_segment at 1.
  apply String.eqb_neq in H1; apply String.eqb_neq in H2; rewrite H1, H2; reflexivity.
Qed.

Lemma walk_node_app (c : FSNode) (l1 l2 : list string) :
  walk_node c (l1 ++ l2) =
  match walk_node c l1 with Some n => walk_node n l2 | None => None end.
Proof.
  revert c; induction l1 as [|p l1 IH]; intros c; simpl; [reflexivity|].
  destruct c as [nm ch m|]; [|reflexivity].
  destruct (lookup_child ch p); [apply IH|reflexivity].
Qed.

Lemma abs_not_root (S : list string) :
  S <> [] -> Forall (fun p => p <> EmptyString /\ noslash p) S ->
  String.eqb ("/" ++ join "/" S) "/" = false.
Proof.
  intros Hne H; apply String.eqb_neq; intros E.
  injection E as E; exact (join_nonempty S Hne H E).
Qed.

Lemma getNodeAtPath_abs (root : FSNode) (S : list string) :
  Forall (fun p => p <> EmptyString /\ noslash p) S ->
  getNodeAtPath root ("/" ++ join "/" S) = walk_node root S.
Proof.
  intros H; unfold getNodeAtPath.
  destruct S as [|x S']; [reflexivity|].
  rewrite abs_not_root by (discriminate || exact H).
  replace (String.eqb ("/" ++ join "/" (x :: S')) "") with false by reflexivity.
  rewrite segments_abs by exact H; reflexivity.
Qed.

(** The successful results of [resolvePath]: canonical paths of nodes. *)
Lemma resolvePath_shape (root : FSNode) (cwd t p : string) :
  resolvePath root cwd t = Some p ->
  exists S, p = ("/" ++ join "/" S)%string /\ Forall seg_ok S /\
            exists n, walk_node root S = Some n.
Proof.
  unfold resolvePath.
  destruct (String.eqb t "/" || String.eqb t "~").
  - intros E; injection E as <-; exists []; split; [reflexivity|].
    split; [constructor|eexists; reflexivity].
  - destruct (walk_ok root (fold_segments (resolve_parts cwd t))) eqn:Ew; [|discriminate].
    intros E; injection E as <-; eexists; split; [reflexivity|].
    split; [apply resolve_stack_ok|apply walk_ok_node; exact Ew].
Qed.

(** [resolvePath] read with its stack, for any target but ["~"]. *)
Lemma resolvePath_stack (root : FSNode) (cwd t p : string) :
  t <> "~" -> resolvePath root cwd t = Some p ->
  let S := fold_segments (resolve_parts cwd t) in
  p = ("/" ++ join "/" S)%string /\ exists n, walk_node root S = Some n.
Proof.
  intros Ht; unfold resolvePath.
  destruct (String.eqb t "/") eqn:E1.
  - apply String.eqb_eq in E1; subst t; simpl.
    intros E; injection E as <-; split; [reflexivity|eexists; reflexivity].
  - apply String.eqb_neq in Ht; rewrite Ht; simpl.
    destruct (walk_ok root (fold_segments (resolve_parts cwd t))) eqn:Ew; [|discriminate].
    intros E; injection E as <-; split; [reflexivity|apply walk_ok_node; exact Ew].
Qed.

Lemma lookup_child_In (ch : list (string * FSNode)) (k : string) (c : FSNode) :
  lookup_child ch k = Some c -> In (k, c) ch.
Proof.
  unfold lookup_child; destruct (find (fun e => String.eqb (fst e) k) ch) as [[k' c']|] eqn:E;
    simpl; [|discriminate].
  intros H; injection H as <-.
  apply find_some in E as [Hin Hk]; simpl in Hk; apply String.eqb_eq in Hk; subst; exact Hin.
Qed.

Lemma lookup_child_distinct (ch : list (string * FSNode)) (k : string) (c : FSNode) :
  distinct_keys (map fst ch) = true -> In (k, c) ch -> lookup_child ch k = Some c.
Proof.
  unfold lookup_child; induction ch as [|[k' c'] ch IH]; simpl; [contradiction|].
  intros Hd [E|Hin].
  - injection E as -> ->; rewrite String.eqb_refl; reflexivity.
  - apply andb_prop in Hd as [Hn Hd].
    destruct (String.eqb k' k) eqn:E.
    + apply String.eqb_eq in E; subst k'.
      assert (Hk : existsb (String.eqb k) (map fst ch) = true).
      { apply existsb_exists; exists k; split; [apply (in_map fst ch (k, c) Hin)|apply String.eqb_refl]. }
      rewrite Hk in Hn; discriminate.
    + apply IH; assumption.
Qed.

Lemma wf_dir (nm : string) (ch : list (string * FSNode)) (m : option MetaInfo) :
  wf_tree (Dir nm ch m) = true ->
  distinct_keys (map fst ch) = true /\ forallb valid_name (map fst ch) = true /\
  (forall k c, In (k, c) ch -> wf_tree c = true).
Proof.
  simpl; intros H; apply andb_prop in H as [H12 H3]; apply andb_prop in H12 as [H1 H2].
  split; [exact H1|split; [exact H2|]]; clear H1 H2.
  induction ch as [|[k0 c0] ch IH]; simpl in H3 |- *; [contradiction|].
  apply andb_prop in H3 as [Hc Hr].
  intros k c [E|Hin]; [injection E as -> ->; exact Hc|exact (IH Hr k c Hin)].
Qed.

Lemma wf_key_valid (nm : string) (ch : list (string * FSNode)) (m : option MetaInfo)
    (k : string) (c : FSNode) :
  wf_tree (Dir nm ch m) = true -> In (k, c) ch -> valid_name k = true.
Proof.
  intros Hwf Hin; destruct (wf_dir nm ch m Hwf) as [_ [Hv _]].
  rewrite forallb_forall in Hv; apply Hv; apply (in_map fst ch (k, c) Hin).
Qed.

Lemma wf_walk (c : FSNode) (l : list string) (n : FSNode) :
  wf_tree c = true -> walk_node c l = Some n -> wf_tree n = true.
Proof.
  revert c; induction l as [|p l IH]; intros c Hc; simpl.
  - intros E; injection E as <-; exact Hc.
  - destruct c as [nm ch m|]; [|discriminate].
    destruct (lookup_child ch p) as [c'|] eqn:E; [|discriminate].
    apply IH; destruct (wf_dir nm ch m Hc) as [_ [_ Hall]].
    exact (Hall p c' (lookup_child_In ch p c' E)).
Qed.

Lemma wf_getNodeAtPath (root : FSNode) (p : string) (n : FSNode) :
  wf_tree root = true -> getNodeAtPath root p = Some n -> wf_tree n = true.
Proof.
  unfold getNodeAtPath; intros Hw.
  destruct (String.eqb p "/" || String.eqb p ""); [intros E; injection E as <-; exact Hw|].
  apply wf_walk; exact Hw.
Qed.

Lemma valid_name_spec (k : string) :
  valid_name k = true ->
  k <> EmptyString /\ k <> "." /\ k <> ".." /\ k <> "~" /\ noslash k.
Proof.
  unfold valid_name; intros H.
  repeat (apply andb_prop in H as [H ?]).
  repeat match goal with Hb : negb _ = true |- _ => apply negb_true_iff in Hb end.
  repeat match goal with Hb : String.eqb _ _ = false |- _ => apply String.eqb_neq in Hb end.
  unfold noslash; tauto.
Qed.

Lemma valid_seg_ok (k : string) : valid_name k = true -> seg_ok k.
Proof. intros H; apply valid_name_spec in H; unfold seg_ok; tauto. Qed.

(** The walk of a path typed as [t ++ "/" ++ name]: one more segment
    below the directory [t] names. *)
Lemma extend_resolves (root : FSNode) (cwd t target name rp nm : string)
    (ch : list (string * FSNode)) (m : option MetaInfo) (child : FSNode) :
  t <> "~" -> target <> "/" -> target <> "~" -> seg_ok name ->
  fold_segments (resolve_parts cwd target) = fold_segments (resolve_parts cwd t) ++ [name] ->
  resolvePath root cwd t = Some rp -> getNodeAtPath root rp = Some (Dir nm ch m) ->
  lookup_child ch name = Some child ->
  names_node root cwd target child.
Proof.
  intros Ht Htg1 Htg2 Hname Hfold Hr Hg Hl.
  set (S := fold_segments (resolve_parts cwd t)) in *.
  assert (HS : Forall seg_ok S) by apply resolve_stack_ok.
  assert (Hw : walk_node root S = Some (Dir nm ch m)).
  { destruct (resolvePath_stack root cwd t rp Ht Hr) as [Hp _]; fold S in Hp; subst rp.
    rewrite <- getNodeAtPath_abs by (apply seg_ok_weak; exact HS); exact Hg. }
  assert (HS' : Forall seg_ok (S ++ [name])) by (apply Forall_app; split; [exact HS|constructor; [exact Hname|constructor]]).
  assert (Hw' : walk_node root (S ++ [name]) = Some child).
  { rewrite walk_node_app, Hw; simpl; rewrite Hl; reflexivity. }
  exists ("/" ++ join "/" (S ++ [name]))%string; split.
  - unfold resolvePath.
    apply String.eqb_neq in Htg1; apply String.eqb_neq in Htg2; rewrite Htg1, Htg2; simpl.
    rewrite Hfold.
    assert (Hok : walk_ok root (S ++ [name]) = true) by (apply walk_ok_node; eexists; exact Hw').
    rewrite Hok; reflexivity.
  - rewrite getNodeAtPath_abs by (apply seg_ok_weak; exact HS'); exact Hw'.
Qed.

Lemma substring_all (s : string) : substring 0 (String.length s) s = s.
Proof. induction s as [|c s IH]; simpl; [reflexivity|rewrite IH; reflexivity]. Qed.

Lemma lastIndexOf_split (c : ascii) (s : string) (i : nat) :
  lastIndexOf c s = Some i ->
  s = (slice_to i s ++ String c (slice_from (S i) s))%string /\
  slice_to (S i) s = (slice_to i s ++ String c "")%string.
Proof.
  unfold slice_to, slice_from; revert i; induction s as [|d s IH]; intros i; simpl;
    [discriminate|].
  destruct (lastIndexOf c s) as [j|] eqn:E.
  - intros H; injection H as <-; simpl.
    destruct (IH j eq_refl) as [H1 H2].
    split; [f_equal; exact H1|f_equal; exact H2].
  - destruct (Ascii.eqb d c) eqn:Ed; [|discriminate].
    intros H; injection H as <-; apply Ascii.eqb_eq in Ed; subst d; simpl.
    rewrite Nat.sub_0_r, substring_all; split; [reflexivity|destruct s; reflexivity].
Qed.

Lemma lastIndexOf_none_start (c : ascii) (s : string) :
  lastIndexOf c s = None -> String.prefix (String c "") s = false.
Proof.
  destruct s as [|d s]; cbn [lastIndexOf]; [reflexivity|].
  destruct (lastIndexOf c s); [discriminate|].
  destruct (Ascii.eqb d c) eqn:E; [discriminate|intros _].
  cbn [String.prefix]; destruct (ascii_dec c d) as [->|]; [rewrite Ascii.eqb_refl in E; discriminate|reflexivity].
Qed.

Lemma startsWith_app (x y : string) :
  x <> EmptyString -> startsWith (x ++ y) "/" = startsWith x "/".
Proof.
  destruct x as [|c x]; [contradiction|intros _].
  unfold startsWith; cbn [String.prefix String.append].
  destruct (ascii_dec "/"%char c); [destruct x; [destruct y|]|]; reflexivity.
Qed.

Lemma segments_name_suffix (name suffix : string) :
  seg_ok name -> (suffix = EmptyString \/ suffix = "/") -> segments (name ++ suffix) = [name].
Proof.
  intros [[H1 H2] _] [->| ->].
  - rewrite str_app_nil_r; apply segments_single; assumption.
  - change (name ++ "/")%string with (name ++ String slash "")%string.
    rewrite segments_slash_app, segments_single by assumption; reflexivity.
Qed.

Lemma name_suffix_first (name suffix : string) :
  seg_ok name -> startsWith (name ++ suffix) "/" = false.
Proof.
  intros [[H1 H2] _]; destruct name as [|c n]; [contradiction|].
  unfold noslash in H2; simpl in H2; apply orb_false_iff in H2 as [H2 _].
  unfold startsWith; cbn [String.prefix String.append].
  destruct (ascii_dec "/"%char c) as [E|]; [|reflexivity].
  subst c; discriminate.
Qed.

Lemma startsWith_slash (x : string) : startsWith (String slash x) "/" = true.
Proof. destruct x; reflexivity. Qed.

Lemma long_not_single (x : string) (c : ascii) :
  2 <= String.length x -> x <> String c "".
Proof. intros H E; subst; simpl in H; lia. Qed.

(** A suggestion [prefixForRebuild ++ name ++ suffix] extends the folded
    stack of the directory argument by [name]. *)
Lemma suggestion_target (cwd token name suffix : string) :
  seg_ok name -> name <> "~" -> (suffix = EmptyString \/ suffix = "/") ->
  snd (fst (Prompt.split_token token)) <> "~" ->
  let pre := fst (fst (Prompt.split_token token)) in
  let dirArg := Prompt.dir_arg token (snd (fst (Prompt.split_token token))) in
  let target := (pre ++ name ++ suffix)%string in
  dirArg <> "~" /\ target <> "/" /\ target <> "~" /\
  fold_segments (resolve_parts cwd target) = fold_segments (resolve_parts cwd dirArg) ++ [name].
Proof.
  intros Hname Htilde Hsuf Hdt; cbv zeta.
  assert (Hlen : 1 <= String.length name).
  { destruct name as [|c n]; [destruct Hname as [[H _] _]; contradiction|simpl; lia]. }
  assert (Hnd : name <> "." /\ name <> "..") by apply Hname.
  unfold Prompt.split_token in *; unfold Prompt.dir_arg.
  destruct (lastIndexOf slash token) as [i|] eqn:Ei; simpl in *.
  - destruct (lastIndexOf_split slash token i Ei) as [Htok Hpre].
    set (dtok := slice_to i token) in *.
    rewrite Hpre, <- str_app_assoc.
    change (String slash "" ++ name ++ suffix)%string with (String slash (name ++ suffix)).
    destruct (String.eqb dtok "") eqn:Ed.
    + apply String.eqb_eq in Ed; rewrite Ed in Htok |- *.
      assert (Hst : startsWith token "/" = true) by (rewrite Htok; apply startsWith_slash).
      rewrite Hst; cbn [String.eqb String.append].
      split; [discriminate|]. split.
      { intros E; injection E as E; apply (f_equal String.length) in E.
        rewrite str_length_app in E; simpl in E; lia. }
      split; [discriminate|].
      unfold resolve_parts at 1; rewrite startsWith_slash.
      change (resolve_parts cwd "/") with (@nil string).
      change (String slash (name ++ suffix)) with ("" ++ String slash (name ++ suffix))%string.
      rewrite segments_slash_app, segments_name_suffix by assumption.
      unfold fold_segments; rewrite fold_app_seg by apply Hnd; reflexivity.
    + apply String.eqb_neq in Ed.
      assert (Hlong : 2 <= String.length (dtok ++ String slash (name ++ suffix))).
      { rewrite str_length_app; simpl; rewrite str_length_app.
        destruct dtok; [contradiction|simpl; lia]. }
      split; [exact Hdt|]. split; [apply long_not_single; exact Hlong|].
      split; [apply long_not_single; exact Hlong|].
      unfold resolve_parts; rewrite startsWith_app by exact Ed.
      rewrite segments_slash_app, segments_name_suffix by assumption.
      destruct (startsWith dtok "/"); unfold fold_segments;
        rewrite ?app_assoc, fold_app_seg by apply Hnd; reflexivity.
  - assert (Hst : startsWith token "/" = false)
      by exact (lastIndexOf_none_start slash token Ei).
    rewrite Hst; cbn [String.eqb String.append].
    split; [discriminate|].
    split.
    { destruct Hsuf as [-> | ->].
      - rewrite str_app_nil_r; intros ->; destruct Hname as [[_ H] _]; discriminate.
      - apply long_not_single; rewrite str_length_app; simpl; lia. }
    split.
    { destruct Hsuf as [-> | ->].
      - rewrite str_app_nil_r; exact Htilde.
      - apply long_not_single; rewrite str_length_app; simpl; lia. }
    unfold resolve_parts at 1; rewrite name_suffix_first by exact Hname.
    rewrite segments_name_suffix by assumption.
    change (resolve_parts cwd ".") with (segments cwd ++ ["."]).
    unfold fold_segments; rewrite (fold_app_seg (segments cwd) [] name) by apply Hnd.
    rewrite fold_left_app; reflexivity.
Qed.

End PathLemmas.
(* ------------------------------------------------------------------ *)
(** ** The path suggesters *)

Module SuggestFacts.
Import JS FS Path Fuzzy Render Props2 PathFacts FuzzyFacts PathLemmas.

Lemma rankCandidates_subset (q : string) (c : list string) (limit : nat) (x : string) :
  In x (rankCandidates q c limit) -> In x c.
Proof.
  unfold rankCandidates.
  destruct (String.length (normalize_query q) =? 0); [apply in_firstn|].
  unfold ranked_rows; intros H.
  apply in_map_iff in H as [r [<- Hr]].
  apply in_firstn, in_sort_by, filter_In in Hr as [Hr _].
  apply in_map_iff in Hr as [y [<- Hy]]; exact Hy.
Qed.

Lemma rankCandidates_length (q : string) (c : list string) (limit : nat) :
  length (rankCandidates q c limit) <= limit.
Proof.
  unfold rankCandidates.
  destruct (String.length (normalize_query q) =? 0).
  - rewrite length_firstn; lia.
  - unfold ranked_rows; rewrite length_map, length_firstn; lia.
Qed.

Lemma flat_map_at_most_one {A B} (f : A -> list B) (l : list A) :
  (forall x, length (f x) <= 1) -> length (flat_map f l) <= length l.
Proof.
  intros H; induction l as [|x l IH]; simpl; [lia|].
  rewrite length_app; specialize (H x); lia.
Qed.

Lemma suggestion_for_text (pre name : string) (child : FSNode) :
  insertText (suggestion_for pre name child) =
  (pre ++ name ++ (if is_dir child then "/" else ""))%string /\
  kind (suggestion_for pre name child) = kind_of child.
Proof. unfold suggestion_for, kind_of; destruct (is_dir child); split; reflexivity. Qed.

(** A suggestion for the child [name] of the directory the token's
    directory part names: its text names that child. *)
Lemma child_suggestion_names (root : FSNode) (cwd token rp nm name : string)
    (ch : list (string * FSNode)) (m : option MetaInfo) (child : FSNode) :
  wf_tree root = true ->
  snd (fst (Prompt.split_token token)) <> "~" ->
  resolvePath root cwd (Prompt.dir_arg token (snd (fst (Prompt.split_token token)))) = Some rp ->
  getNodeAtPath root rp = Some (Dir nm ch m) ->
  In (name, child) ch ->
  names_node root cwd
    (insertText (suggestion_for (fst (fst (Prompt.split_token token))) name child)) child.
Proof.
  intros Hwf Hdt Hr Hg Hin.
  assert (Hwd : wf_tree (Dir nm ch m) = true) by exact (wf_getNodeAtPath root rp _ Hwf Hg).
  assert (Hv : valid_name name = true) by exact (wf_key_valid nm ch m name child Hwd Hin).
  assert (Hl : lookup_child ch name = Some child).
  { apply lookup_child_distinct; [apply (wf_dir nm ch m Hwd)|exact Hin]. }
  destruct (suggestion_for_text (fst (fst (Prompt.split_token token))) name child) as [Ht _].
  rewrite Ht.
  destruct (valid_name_spec name Hv) as [_ [_ [_ [Htl _]]]].
  assert (Hsuf : (if is_dir child then "/" else "") = EmptyString \/
                 (if is_dir child then "/" else "") = "/")
    by (destruct (is_dir child); [right|left]; reflexivity).
  destruct (suggestion_target cwd token name _ (valid_seg_ok name Hv) Htl Hsuf Hdt)
    as [H1 [H2 [H3 H4]]].
  exact (extend_resolves root cwd _ _ name rp nm ch m child H1 H2 H3 (valid_seg_ok name Hv) H4 Hr Hg Hl).
Qed.

(** Every suggestion [buildPathAutocompleteSuggestions] makes, typed at
    [cwd], names a node of the tree: its kind is the node's kind and the
    node is one the mode accepts. The token's directory part must not be
    ["~"] (see [tilde_completion_dangles]). *)
Lemma buildPathAutocompleteSuggestions_resolve (root : FSNode) (cwd token : string)
    (mode : PathCompletionMode) (s : AutocompleteSuggestion) :
  wf_tree root = true ->
  snd (fst (Prompt.split_token token)) <> "~" ->
  In s (Prompt.buildPathAutocompleteSuggestions root cwd token mode) ->
  exists n, names_node root cwd (insertText s) n /\ kind s = kind_of n /\
            mode_accepts mode n = true.
Proof.
  intros Hwf Hdt Hin; unfold Prompt.buildPathAutocompleteSuggestions in Hin.
  destruct (Prompt.split_token token) as [[pre dtok] base] eqn:Es; simpl in Hdt.
  destruct (resolvePath root cwd (Prompt.dir_arg token dtok)) as [rp|] eqn:Er; [|contradiction].
  destruct rp as [|c0 rp']; [contradiction|].
  destruct (getNodeAtPath root (String c0 rp')) as [[nm ch m|]|] eqn:Eg;
    try (simpl in Hin; contradiction).
  apply in_flat_map in Hin as [[name child] [Hin1 Hin2]].
  unfold getSortedChildren, getSortedChildren_with in Hin1; apply in_sort_by in Hin1.
  destruct (_ && _); [contradiction|].
  destruct (mode_accepts mode child) eqn:Em; simpl in Hin2; [|contradiction].
  destruct Hin2 as [<-|[]].
  exists child; split; [|split; [apply suggestion_for_text|exact Em]].
  pose proof (child_suggestion_names root cwd token (String c0 rp') nm name ch m child Hwf) as H.
  rewrite Es in H; apply (H Hdt Er Eg Hin1).
Qed.

(** [buildPathFuzzySuggestions] makes at most six suggestions, and each
    one names, typed at [cwd], a node of the kind it shows that the mode
    accepts (the token's directory part not being ["~"]). *)
Lemma buildPathFuzzySuggestions_resolve (root : FSNode) (cwd token : string)
    (mode : PathCompletionMode) :
  wf_tree root = true ->
  snd (fst (Prompt.split_token token)) <> "~" ->
  length (buildPathFuzzySuggestions root cwd token mode) <= 6 /\
  forall s, In s (buildPathFuzzySuggestions root cwd token mode) ->
  exists n, names_node root cwd (insertText s) n /\ kind s = kind_of n /\
            mode_accepts mode n = true.
Proof.
  intros Hwf Hdt; unfold buildPathFuzzySuggestions.
  fold (Prompt.split_token token).
  destruct (Prompt.split_token token) as [[pre dtok] base] eqn:Es; simpl in Hdt.
  fold (Prompt.dir_arg token dtok).
  destruct (resolvePath root cwd (Prompt.dir_arg token dtok)) as [rp|] eqn:Er;
    [|split; [simpl; lia|intros s []]].
  destruct (getNodeAtPath root rp) as [[nm ch m|]|] eqn:Eg;
    try (split; [simpl; lia|intros s []]).
  set (cands := map fst (filter (fun e => mode_accepts mode (snd e)) (getSortedChildren ch))).
  set (ranked := if String.length (trim base) =? 0 then firstn 6 cands
                 else rankCandidates base cands 6).
  assert (Hsub : forall x, In x ranked -> In x cands).
  { unfold ranked; destruct (_ =? 0); [apply in_firstn|apply rankCandidates_subset]. }
  assert (Hlen : length ranked <= 6).
  { unfold ranked; destruct (_ =? 0); [rewrite length_firstn; lia|apply rankCandidates_length]. }
  split.
  - eapply Nat.le_trans; [|exact Hlen].
    apply flat_map_at_most_one; intros x.
    destruct (lookup_child ch x); simpl; lia.
  - intros s Hin; apply in_flat_map in Hin as [name [Hn Hs]].
    apply Hsub in Hn; unfold cands in Hn.
    apply in_map_iff in Hn as [[k child] [Ek Hk]]; simpl in Ek; subst k.
    apply filter_In in Hk as [Hk Em]; simpl in Em.
    unfold getSortedChildren, getSortedChildren_with in Hk; apply in_sort_by in Hk.
    assert (Hwd : wf_tree (Dir nm ch m) = true) by exact (wf_getNodeAtPath root rp _ Hwf Eg).
    assert (Hl : lookup_child ch name = Some child).
    { apply lookup_child_distinct; [apply (wf_dir nm ch m Hwd)|exact Hk]. }
    rewrite Hl in Hs; destruct Hs as [<-|[]].
    exists child; split; [|split; [apply suggestion_for_text|exact Em]].
    pose proof (child_suggestion_names root cwd token rp nm name ch m child Hwf) as H.
    rewrite Es in H; apply (H Hdt Er Eg Hk).
Qed.

Lemma wf_no_tilde (root : FSNode) (S T : list string) :
  wf_tree root = true -> walk_node root (S ++ "~" :: T) = None.
Proof.
  intros Hwf; rewrite walk_node_app.
  destruct (walk_node root S) as [d|] eqn:Ew; [|reflexivity].
  pose proof (wf_walk root S d Hwf Ew) as Hd.
  simpl; destruct d as [nm ch m|]; [|reflexivity].
  destruct (lookup_child ch "~") as [c|] eqn:El; [|reflexivity].
  pose proof (wf_key_valid nm ch m "~" c Hd (lookup_child_In ch "~" c El)) as Hv.
  discriminate Hv.
Qed.

(** With the token's directory part ["~"], as in [cd ~/bo], the
    suggestions are children of the root, offered as ["~/" ++ name] (with
    a trailing ["/"] for a directory); none of them resolves: [resolvePath]
    reads ["~"] only as a whole target, and no directory has a child named
    ["~"] (nor does any object inherit one). *)
Lemma tilde_completion_dangles (root : FSNode) (cwd token : string)
    (mode : PathCompletionMode) (s : AutocompleteSuggestion) :
  wf_tree root = true ->
  snd (fst (Prompt.split_token token)) = "~" ->
  In s (Prompt.buildPathAutocompleteSuggestions root cwd token mode) ->
  (exists nm ch m name child,
     root = Dir nm ch m /\ In (name, child) ch /\
     insertText s = ("~/" ++ name ++ (if is_dir child then "/" else ""))%string) /\
  JSPath.resolvePath root cwd (insertText s) = None.
Proof.
  intros Hwf Hdt Hin; unfold Prompt.buildPathAutocompleteSuggestions in Hin.
  unfold Prompt.split_token in Hdt, Hin.
  destruct (lastIndexOf slash token) as [i|] eqn:Ei; simpl in Hdt; [|discriminate].
  destruct (lastIndexOf_split slash token i Ei) as [_ Hpre].
  rewrite Hdt in Hpre; simpl in Hin; rewrite Hpre, Hdt in Hin.
  change (resolvePath root cwd (Prompt.dir_arg token "~")) with (Some "/") in Hin.
  change (getNodeAtPath root "/") with (Some root) in Hin.
  destruct root as [nm ch m|]; try (simpl in Hin; contradiction).
  apply in_flat_map in Hin as [[name child] [Hin1 Hin2]].
  unfold getSortedChildren, getSortedChildren_with in Hin1; apply in_sort_by in Hin1.
  destruct (_ && _); [contradiction|].
  destruct (mode_accepts mode child); simpl in Hin2; [|contradiction].
  destruct Hin2 as [<-|[]].
  assert (Hv : seg_ok name) by exact (valid_seg_ok name (wf_key_valid nm ch m name child Hwf Hin1)).
  rewrite (proj1 (suggestion_for_text _ name child)).
  split; [exists nm, ch, m, name, child; split; [reflexivity|split; [exact Hin1|reflexivity]]|].
  set (suffix := if is_dir child then "/" else "").
  assert (Hsuf : suffix = EmptyString \/ suffix = "/")
    by (unfold suffix; destruct (is_dir child); [right|left]; reflexivity).
  unfold JSPath.resolvePath.
  change (String "~" (String slash "") ++ name ++ suffix)%string
    with ("~" ++ String slash (name ++ suffix))%string.
  assert (Hl : 2 <= String.length ("~" ++ String slash (name ++ suffix))) by (simpl; lia).
  replace (String.eqb ("~" ++ String slash (name ++ suffix)) "/") with false
    by (symmetry; apply String.eqb_neq; apply long_not_single; exact Hl).
  replace (String.eqb ("~" ++ String slash (name ++ suffix)) "~") with false
    by (symmetry; apply String.eqb_neq; apply long_not_single; exact Hl).
  unfold resolve_parts.
  replace (startsWith ("~" ++ String slash (name ++ suffix)) "/") with false by reflexivity.
  rewrite segments_slash_app, segments_name_suffix by assumption.
  change (segments "~") with ["~"].
  unfold fold_segments; rewrite app_assoc, fold_app_seg by apply (proj2 Hv).
  rewrite fold_app_seg by discriminate.
  rewrite <- app_assoc; simpl.
  destruct (JSPath.walk_ok _ _) eqn:Ew; [|reflexivity].
  apply js_walk_ok_node, js_walk_node_spec in Ew.
  destruct Ew as [[n Hn]|[pre [k [nm' [ch' [m' [E [Hw _]]]]]]]].
  - rewrite wf_no_tilde in Hn by exact Hwf; discriminate.
  - match type of E with (?C ++ _ = _) =>
      replace (C ++ ["~"; name]) with ((C ++ ["~"]) ++ [name]) in E
        by (rewrite <- app_assoc; reflexivity) end.
    apply app_inj_tail in E as [<- _].
    rewrite wf_no_tilde in Hw by exact Hwf; discriminate.
Qed.

Lemma buildPathAutocompleteSuggestions_resolve_witness :
  exists s, In s (Prompt.buildPathAutocompleteSuggestions Props.sample_root "/" "dune/a" MFile) /\
  exists n, names_node Props.sample_root "/" (insertText s) n /\ kind s = kind_of n /\
            mode_accepts MFile n = true.
Proof.
  exists (hd (mkSuggestion KCommand "" "")
             (Prompt.buildPathAutocompleteSuggestions Props.sample_root "/" "dune/a" MFile)).
  split; [vm_compute; left; reflexivity|].
  apply (buildPathAutocompleteSuggestions_resolve Props.sample_root "/" "dune/a" MFile);
    [vm_compute; reflexivity|vm_compute; intros E; discriminate E|vm_compute; left; reflexivity].
Defined.

Lemma buildPathFuzzySuggestions_resolve_witness :
  buildPathFuzzySuggestions Props.sample_root "/dune" "chaptr" MFile <> [] /\
  length (buildPathFuzzySuggestions Props.sample_root "/dune" "chaptr" MFile) <= 6 /\
  forall s, In s (buildPathFuzzySuggestions Props.sample_root "/dune" "chaptr" MFile) ->
  exists n, names_node Props.sample_root "/dune" (insertText s) n /\ kind s = kind_of n /\
            mode_accepts MFile n = true.
Proof.
  split; [vm_compute; intros E; discriminate E|].
  apply buildPathFuzzySuggestions_resolve; [vm_compute; reflexivity|vm_compute; intros E; discriminate E].
Defined.

Lemma tilde_completion_dangles_witness :
  exists s, In s (Prompt.buildPathAutocompleteSuggestions Props.sample_root "/dune" "~/bo" MDir) /\
            (exists nm ch m name child,
               Props.sample_root = Dir nm ch m /\ In (name, child) ch /\
               insertText s = ("~/" ++ name ++ (if is_dir child then "/" else ""))%string) /\
            JSPath.resolvePath Props.sample_root "/dune" (insertText s) = None.
Proof.
  exists (hd (mkSuggestion KCommand "" "")
             (Prompt.buildPathAutocompleteSuggestions Props.sample_root "/dune" "~/bo" MDir)).
  split; [vm_compute; left; reflexivity|].
  apply (tilde_completion_dangles Props.sample_root "/dune" "~/bo" MDir);
    [vm_compute; reflexivity|vm_compute; reflexivity|vm_compute; left; reflexivity].
Defined.

End SuggestFacts.

(* ------------------------------------------------------------------ *)
(** ** Resolved paths and their parents *)

Module ResolveFacts.
Import JS FS Path Props Props2 PathFacts PathLemmas OpenPaths.


(** [getParentDirPath] on a path the own-key resolver returns. *)
Lemma getParentDirPath_parent_tree (root : FSNode) (cwd t p : string) (n : FSNode) :
  resolvePath root cwd t = Some p -> getNodeAtPath root p = Some n -> p <> "/" ->
  exists nm ch m k, getNodeAtPath root (getParentDirPath p) = Some (Dir nm ch m) /\
                    lookup_child ch k = Some n.
Proof.
  intros Hr Hg Hp; destruct (resolvePath_shape root cwd t p Hr) as [S [-> [HS _]]].
  rewrite getNodeAtPath_abs in Hg by (apply seg_ok_weak; exact HS).
  destruct S as [|x S0] using rev_ind; [contradiction|clear IHS0].
  assert (Hne : S0 ++ [x] <> []).
  { intros E; apply app_eq_nil in E as [_ E]; discriminate. }
  assert (HS' : Forall seg_ok S0) by (apply Forall_app in HS as [H _]; exact H).
  rewrite walk_node_app in Hg.
  destruct (walk_node root S0) as [[nm ch m|]|] eqn:Ew; simpl in Hg; try discriminate.
  destruct (lookup_child ch x) as [c|] eqn:El; [|discriminate].
  injection Hg as ->.
  exists nm, ch, m, x; split; [|exact El].
  unfold getParentDirPath.
  rewrite abs_not_root by (exact Hne || (apply seg_ok_weak; exact HS)).
  rewrite segments_abs by (apply seg_ok_weak; exact HS).
  rewrite removelast_last.
  destruct S0 as [|y S1] eqn:ES0.
  - simpl in Ew; injection Ew as <-; reflexivity.
  - rewrite <- ES0 in *.
    rewrite getNodeAtPath_abs by (apply seg_ok_weak; exact HS'); exact Ew.
Qed.

(** A path the resolver returns whose [getNodeAtPath] is a node of the
    tree, not an inherited member, is walked through children only, so
    the own-key resolver returns it too. *)
Lemma js_resolvePath_tree (root : FSNode) (cwd t p : string) (n : FSNode) :
  JSPath.resolvePath root cwd t = Some p ->
  JSPath.getNodeAtPath root p = Some (Proto.VNode n) ->
  resolvePath root cwd t = Some p.
Proof.
  intros Hr Hg; apply js_getNodeAtPath_vnode in Hg.
  pose proof (resolve_stack_ok cwd t) as HS.
  unfold JSPath.resolvePath in Hr; unfold resolvePath.
  destruct (String.eqb t "/" || String.eqb t "~"); [exact Hr|].
  destruct (JSPath.walk_ok (Proto.VNode root) (fold_segments (resolve_parts cwd t)));
    [|discriminate].
  cbv iota in Hr; injection Hr as <-.
  change (String "/" ?x) with ("/" ++ x)%string in Hg.
  rewrite getNodeAtPath_abs in Hg by (apply seg_ok_weak; exact HS).
  replace (walk_ok root (fold_segments (resolve_parts cwd t))) with true; [reflexivity|].
  symmetry; apply walk_ok_node; exists n; exact Hg.
Qed.

(** For a resolved path other than ["/"] whose node is a node of the tree
    (not a member inherited from [Object.prototype], as for ["/toString"]),
    [getParentDirPath] gives the path of a directory of the tree that
    holds that node as a child. *)
Lemma getParentDirPath_parent (root : FSNode) (cwd t p : string) (n : FSNode) :
  JSPath.resolvePath root cwd t = Some p ->
  JSPath.getNodeAtPath root p = Some (Proto.VNode n) -> p <> "/" ->
  exists nm ch m k,
    JSPath.getNodeAtPath root (getParentDirPath p) = Some (Proto.VNode (Dir nm ch m)) /\
    lookup_child ch k = Some n.
Proof.
  intros Hr Hg Hp.
  pose proof (js_resolvePath_tree root cwd t p n Hr Hg) as Hr'.
  apply js_getNodeAtPath_vnode in Hg.
  destruct (getParentDirPath_parent_tree root cwd t p n Hr' Hg Hp)
    as [nm [ch [m [k [H1 H2]]]]].
  exists nm, ch, m, k; split; [apply js_getNodeAtPath_vnode; exact H1|exact H2].
Qed.


Lemma getParentDirPath_parent_witness :
  getParentDirPath "/dune/analysis" = "/dune" /\
  exists nm ch m k,
    JSPath.getNodeAtPath Props.sample_root (getParentDirPath "/dune/analysis") =
    Some (Proto.VNode (Dir nm ch m)) /\
    lookup_child ch k =
    Some (File "analysis" "dune/analysis" (Props.meta_titled "Analysis") (Some "...")).
Proof.
  split; [vm_compute; reflexivity|].
  apply (getParentDirPath_parent Props.sample_root "/" "dune/analysis");
    [vm_compute; reflexivity|vm_compute; reflexivity|vm_compute; intros E; discriminate E].
Defined.

End ResolveFacts.

(* ------------------------------------------------------------------ *)
(** ** The directories a session visits *)

Module SessionFacts.
Import JS FS Path Session Exec Props Props3 ReducerFacts ExecFacts PathLemmas.

Ltac actions_ok :=
  repeat (apply Forall_cons; [simpl; first [exact I | do 3 eexists; first [eassumption|reflexivity]] |]);
  try apply Forall_nil.

Lemma reducer_ok (root : FSNode) (s : ShellState) (a : Action) :
  act_ok root a -> session_ok root s -> session_ok root (shellReducer s a).
Proof.
  intros Ha [Hinv Hall]; split.
  - apply shellReducer_preserves; [destruct a; simpl in *; tauto|exact Hinv].
  - destruct s as [h ch cs cur]; destruct a; simpl in *; try exact Hall; try contradiction.
    + apply Forall_app; split; [exact Hall|constructor; [exact Ha|constructor]].
    + destruct (length cs <=? 1); [exact Hall|apply Forall_removelast; exact Hall].
Qed.

Lemma run_actions_ok (root : FSNode) (s : ShellState) (acts : list Action) :
  Forall (act_ok root) acts -> session_ok root s -> session_ok root (run_actions s acts).
Proof.
  unfold run_actions; revert s; induction acts as [|a acts IH]; intros s Ha Hs; simpl;
    [exact Hs|].
  inversion Ha; subst; apply IH; [assumption|apply reducer_ok; assumption].
Qed.

Lemma runCd_ok (root : FSNode) (cwd : string) (args : list string) :
  Forall (act_ok root) (runCd root cwd args).
Proof.
  unfold runCd.
  destruct (resolvePath root cwd _) as [[|c p]|]; [actions_ok|..|actions_ok].
  destruct (getNodeAtPath root (String c p)) as [[nm ch m|]|] eqn:Eg; actions_ok.
Qed.

Lemma runOpen_ok (root : FSNode) (cwd : string) (args : list string) (u : UI) :
  Forall (act_ok root) (fst (runOpen root cwd args u)).
Proof.
  unfold runOpen.
  destruct (nth_arg args 0) as [[|c0 t]|]; [actions_ok| |actions_ok].
  destruct (resolvePath root cwd _) as [[|c p]|]; [actions_ok| |actions_ok].
  destruct (getNodeAtPath root (String c p)) as [[nm ch m|]|] eqn:Eg; actions_ok.
Qed.

Lemma run_command_ok (root : FSNode) (st : ShellState) (u : UI) (name : string)
    (args : list string) (raw : string) :
  is_dir root = true -> Forall (act_ok root) (fst (run_command root st u name args raw)).
Proof.
  intros Hroot; unfold run_command.
  destruct (String.eqb name "help"); [split_branches; actions_ok|].
  destruct (String.eqb name "clear"); [actions_ok|].
  destruct (String.eqb name "home").
  { destruct root as [nm ch m|]; [|discriminate]; actions_ok. }
  destruct (String.eqb name "cd"); [apply runCd_ok|].
  destruct (String.eqb name "ls"); [simpl; unfold runLs; split_branches; actions_ok|].
  destruct (String.eqb name "pwd"); [actions_ok|].
  destruct (String.eqb name "back"); [split_branches; actions_ok|].
  destruct (String.eqb name "tree"); [simpl; unfold runTree; split_branches; actions_ok|].
  destruct (String.eqb name "open"); [apply runOpen_ok|].
  destruct (String.eqb name "cat"); [simpl; unfold runCat; split_branches; actions_ok|].
  destruct (String.eqb name "search"); [simpl; unfold runSearch; split_branches; actions_ok|].
  destruct (String.eqb name "summary"); actions_ok.
Qed.

Lemma dispatch_ok (root : FSNode) (st : ShellState) (u : UI) (raw : string) :
  is_dir root = true -> Forall (act_ok root) (fst (dispatch (Some root) st u raw)).
Proof.
  intros Hroot; unfold dispatch.
  destruct (Parser.parseCommand raw) as [p|]; [|actions_ok].
  destruct (Parser.error p); [actions_ok|].
  destruct (negb _); [unfold run_wizard; split_branches; actions_ok|].
  apply run_command_ok; exact Hroot.
Qed.

Lemma execute_all_ok (root : FSNode) (s : Sess) (lines : list string) :
  is_dir root = true -> session_ok root (shell s) ->
  session_ok root (shell (execute_all (Some root) s lines)).
Proof.
  intros Hroot; unfold execute_all; revert s; induction lines as [|l lines IH]; intros s Hs;
    simpl; [exact Hs|].
  apply IH; unfold execute.
  destruct (String.eqb (trim l) EmptyString); [exact Hs|].
  pose proof (dispatch_ok root (shell s) (ui s) l Hroot) as Hd.
  destruct (dispatch (Some root) (shell s) (ui s) l) as [acts u']; simpl in Hd.
  cbn beta iota; cbn [shell].
  apply run_actions_ok; [|exact Hs].
  constructor; [exact I|constructor; [exact I|exact Hd]].
Qed.

(** From a fresh session (no initial directory, any initial history),
    whatever lines are run: every entry of the directory stack, the
    current directory among them, names a directory of the tree, so [ls]
    at the current directory lists it and never answers "not a
    directory". *)
Theorem session_cwds_are_dirs (root : FSNode) (h : option (list HistoryItem))
    (lines : list string) :
  is_dir root = true ->
  let s := shell (execute_all (Some root) (initialSess None h) lines) in
  Forall (cwd_dir root) (cwds s) /\ cwd_dir root (currentCwd s) /\
  exists out, runLs root (currentCwd s) = [addOutput out].
Proof.
  intros Hroot s.
  assert (Hs : session_ok root s).
  { apply execute_all_ok; [exact Hroot|].
    split; [split; [discriminate|reflexivity]|].
    destruct root as [nm ch m|]; [|discriminate].
    constructor; [do 3 eexists; reflexivity|constructor]. }
  destruct Hs as [[Hne Hcur] Hall].
  assert (Hc : cwd_dir root (currentCwd s)).
  { rewrite Hcur; rewrite Forall_forall in Hall; apply Hall.
    destruct (exists_last Hne) as [l [x Ex]]; rewrite Ex, last_last.
    apply in_or_app; right; left; reflexivity. }
  split; [exact Hall|split; [exact Hc|]].
  destruct Hc as [nm [ch [m Hg]]]; unfold runLs; rewrite Hg; eexists; reflexivity.
Qed.

Lemma session_cwds_are_dirs_witness :
  let s := shell (execute_all (Some sample_root) (initialSess None None)
                    ["cd dune"; "cd analysis"; "open /books"; "back"; "home"]) in
  Forall (cwd_dir sample_root) (cwds s) /\ cwd_dir sample_root (currentCwd s) /\
  exists out, runLs sample_root (currentCwd s) = [addOutput out].
Proof. apply session_cwds_are_dirs; reflexivity. Defined.

End SessionFacts.

(* ------------------------------------------------------------------ *)
(** ** [cd] and [back] *)

Module BackFacts.
Import JS FS Path Session Exec Props ExecFacts.

Lemma run_command_cd root st u args raw :
  run_command root st u "cd" args raw = (runCd root (currentCwd st) args, u).
Proof. reflexivity. Qed.

Lemma run_command_back root st u args raw :
  run_command root st u "back" args raw =
  if length (cwds st) <=? 1 then ([addError "Already at root of session." []], u)
  else ([GO_BACK], u).
Proof. reflexivity. Qed.

(** A [cd] that moves the session, followed by [back], returns to the
    directory the session was in, with the directory stack as before. *)
Theorem cd_then_back (root : FSNode) (s : Sess) (raw : string) (args : list string)
    (p : string) :
  cwd_inv (shell s) -> helpWizardStep (ui s) = WNone ->
  Parser.parseCommand raw = Some (Parser.mkParsed raw "cd" args None) ->
  runCd root (currentCwd (shell s)) args = [SET_CWD p] ->
  let s' := execute_all (Some root) s [raw; "back"] in
  currentCwd (shell s') = currentCwd (shell s) /\ cwds (shell s') = cwds (shell s).
Proof.
  intros [Hne Hcur] Hw Hp Hcd; unfold execute_all; cbn [fold_left].
  rewrite (execute_command root s raw "cd" args Hp Hw), run_command_cd, Hcd.
  set (s1 := mkSess _ _).
  assert (Hw1 : helpWizardStep (ui s1) = WNone) by exact Hw.
  rewrite (execute_command root s1 "back" "back" [] eq_refl Hw1), run_command_back.
  destruct (shell s) as [h ch cs cur]; simpl in *.
  rewrite length_app; simpl.
  destruct cs as [|c0 cs']; [contradiction|].
  replace (length (c0 :: cs') + 1 <=? 1) with false
    by (symmetry; apply Nat.leb_gt; simpl; lia).
  cbn [run_actions fold_left shellReducer currentCwd cwds shell app].
  unfold run_actions; cbn [fst fold_left]; unfold shellReducer.
  rewrite (app_comm_cons cs' [p] c0), length_app.
  replace (length (c0 :: cs') + length [p] <=? 1) with false
    by (symmetry; apply Nat.leb_gt; simpl; lia).
  rewrite removelast_last; split; [symmetry; exact Hcur|reflexivity].
Qed.

Lemma cd_then_back_witness :
  let s' := execute_all (Some sample_root) fresh_session ["cd dune"; "back"] in
  currentCwd (shell s') = currentCwd (shell fresh_session) /\
  cwds (shell s') = cwds (shell fresh_session).
Proof.
  apply (cd_then_back sample_root fresh_session "cd dune" ["dune"] "/dune");
    [split; [discriminate|reflexivity]|reflexivity|vm_compute; reflexivity|vm_compute; reflexivity].
Defined.

End BackFacts.

(* ------------------------------------------------------------------ *)
(** ** [getSortedChildren] *)

Module SortFacts.
Import FS Props4 FuzzyFacts.

Lemma str_compare_le_trans (a b c : string) :
  String.compare a b <> Gt -> String.compare b c <> Gt -> String.compare a c <> Gt.
Proof.
  revert b c; induction a as [|x a IH]; intros [|y b] [|z c]; simpl; intros H1 H2;
    try congruence.
  unfold Ascii.compare in *.
  destruct (N.compare_spec (N_of_ascii x) (N_of_ascii y)) as [E1|E1|E1];
  destruct (N.compare_spec (N_of_ascii y) (N_of_ascii z)) as [E2|E2|E2];
  destruct (N.compare_spec (N_of_ascii x) (N_of_ascii z)) as [E3|E3|E3];
  first [lia | congruence | exact (IH b c H1 H2)].
Qed.

Lemma insert_by_perm {A} (cmp : A -> A -> comparison) (x : A) (l : list A) :
  Permutation (insert_by cmp x l) (x :: l).
Proof.
  induction l as [|y l IH]; simpl; [reflexivity|].
  destruct (cmp x y); try reflexivity.
  rewrite IH; apply perm_swap.
Qed.

Lemma sort_by_perm {A} (cmp : A -> A -> comparison) (l : list A) :
  Permutation (sort_by cmp l) l.
Proof.
  induction l as [|x l IH]; simpl; [reflexivity|].
  rewrite insert_by_perm, IH; reflexivity.
Qed.

Lemma collation_string_compare : collation String.compare.
Proof.
  split; [intros a b; apply String.compare_antisym|exact str_compare_le_trans].
Qed.

Lemma child_le_trans (lc : string -> string -> comparison) (a b c : string * FSNode) :
  collation lc -> child_le lc a b -> child_le lc b c -> child_le lc a c.
Proof.
  intros [_ Htr].
  destruct a as [na ca], b as [nb cb], c as [nc cc]; unfold child_le; simpl.
  intros [Hab Hab'] [Hbc Hbc']; split.
  - destruct (is_dir ca), (is_dir cb), (is_dir cc); intuition congruence.
  - intros E; apply (Htr na nb nc).
    + apply Hab'; destruct (is_dir ca), (is_dir cb), (is_dir cc); intuition congruence.
    + apply Hbc'; destruct (is_dir ca), (is_dir cb), (is_dir cc); intuition congruence.
Qed.

(** For every collation [lc] with the laws of a consistent comparison
    (as [localeCompare] has, whatever the locale), [getSortedChildren]
    sorting with [lc] keeps every child, each as many times, and puts
    them in order: directories before files, names ascending in [lc]
    within each kind (two entries at any distance, not only neighbours). *)
Theorem getSortedChildren_order (lc : string -> string -> comparison)
    (ch : list (string * FSNode)) :
  collation lc ->
  Permutation (getSortedChildren_with lc ch) ch /\
  StronglySorted (child_le lc) (getSortedChildren_with lc ch).
Proof.
  intros Hc; unfold getSortedChildren_with; split; [apply sort_by_perm|].
  apply Sorted_StronglySorted; [intros x y z; exact (child_le_trans lc x y z Hc)|].
  destruct Hc as [Hopp _].
  apply sort_by_sorted.
  - intros [na ca] [nb cb]; unfold children_cmp, child_le; simpl.
    destruct (is_dir ca), (is_dir cb); simpl; intros E; try discriminate E;
      split; try tauto; intros Hk; try discriminate Hk;
      rewrite Hopp, E; discriminate.
  - intros [na ca] [nb cb]; unfold children_cmp, child_le; simpl.
    destruct (is_dir ca), (is_dir cb); simpl; intros E; try (exfalso; apply E; reflexivity);
      split; try tauto; intros Hk; try discriminate Hk; exact E.
Qed.

Lemma getSortedChildren_order_witness :
  collation localeCompare /\
  Permutation (getSortedChildren_with localeCompare [("b", File "b" "b" (Props.meta_titled "B") None);
                                                    ("a", Dir "a" [] None)])
              [("b", File "b" "b" (Props.meta_titled "B") None); ("a", Dir "a" [] None)] /\
  StronglySorted (child_le localeCompare)
    (getSortedChildren_with localeCompare [("b", File "b" "b" (Props.meta_titled "B") None);
                                          ("a", Dir "a" [] None)]).
Proof.
  split; [exact collation_string_compare|].
  apply getSortedChildren_order; exact collation_string_compare.
Defined.

End SortFacts.

(* ------------------------------------------------------------------ *)
(** ** Escaped arguments *)

Module EscapeFacts.
Import JS Parser Props2 ParserFacts PathLemmas.

Lemma scan_app (st : ScanState) (x y : string) :
  fold_left scan_step (list_ascii_of_string (x ++ y)) st =
  fold_left scan_step (list_ascii_of_string y)
            (fold_left scan_step (list_ascii_of_string x) st).
Proof. rewrite list_ascii_app, fold_left_app; reflexivity. Qed.

Lemma scan_escaped (w : string) (t : list string) (cur : string) :
  fold_left scan_step (list_ascii_of_string (escape_word w)) (mkScan t cur None false) =
  mkScan t (cur ++ w) None false.
Proof.
  revert cur; induction w as [|c w IH]; intros cur; simpl; [rewrite str_app_nil_r; reflexivity|].
  rewrite IH, <- str_app_assoc; reflexivity.
Qed.

Lemma scan_plain (c : string) (t : list string) (cur : string) :
  forallb plain_char (list_ascii_of_string c) = true ->
  fold_left scan_step (list_ascii_of_string c) (mkScan t cur None false) =
  mkScan t (cur ++ c) None false.
Proof.
  revert cur; induction c as [|a c IH]; intros cur; simpl; [rewrite str_app_nil_r; reflexivity|].
  intros H; apply andb_prop in H as [Ha Hc].
  unfold plain_char in Ha.
  destruct (is_ws a), (Ascii.eqb a dquote), (Ascii.eqb a squote), (Ascii.eqb a backslash);
    try discriminate Ha; simpl.
  rewrite IH by exact Hc; rewrite <- str_app_assoc; reflexivity.
Qed.

Lemma scan_typed (ws t : list string) (cur : string) :
  cur <> EmptyString -> Forall (fun w => w <> EmptyString) ws ->
  fold_left scan_step (list_ascii_of_string (typed_args ws)) (mkScan t cur None false) =
  mkScan (t ++ removelast (cur :: ws)) (last (cur :: ws) EmptyString) None false.
Proof.
  revert t cur; induction ws as [|w ws IH]; intros t cur Hc Hws.
  - simpl; rewrite app_nil_r; reflexivity.
  - inversion Hws as [|? ? Hw Hr]; subst.
    assert (Hstep : scan_step (mkScan t cur None false) " "%char =
                    mkScan (t ++ [cur]) EmptyString None false).
    { unfold scan_step; simpl.
      destruct cur as [|c0 cur']; [contradiction|reflexivity]. }
    change (typed_args (w :: ws)) with (" " ++ (escape_word w ++ typed_args ws))%string.
    rewrite scan_app; cbn [list_ascii_of_string fold_left]; rewrite Hstep.
    rewrite scan_app, scan_escaped, IH by assumption.
    simpl; rewrite <- app_assoc; reflexivity.
Qed.

(** A command word of plain characters followed by words typed with a
    backslash before each character: the tokenizer gives back the words
    as the arguments, exactly, whatever they contain (spaces, quotes,
    backslashes), with no error. *)
Theorem parseCommand_escaped_args (cmd : string) (ws : list string) :
  cmd <> EmptyString -> forallb plain_char (list_ascii_of_string cmd) = true ->
  Forall (fun w => w <> EmptyString) ws ->
  exists name, parseCommand (cmd ++ typed_args ws) =
               Some (mkParsed (cmd ++ typed_args ws) name ws None).
Proof.
  intros Hc Hp Hws; unfold parseCommand.
  destruct (String.eqb (trim (cmd ++ typed_args ws)) EmptyString) eqn:Et.
  { apply String.eqb_eq, trim_empty_all_ws in Et.
    destruct cmd as [|c0 cmd']; [contradiction|].
    simpl in Et; inversion Et as [|? ? Hw _]; subst.
    simpl in Hp; unfold plain_char in Hp; rewrite Hw in Hp; discriminate. }
  unfold scan, scan_init; rewrite scan_app, (scan_plain cmd [] "" Hp).
  change ("" ++ cmd)%string with cmd.
  rewrite (scan_typed ws [] cmd Hc Hws); cbn [tokens currentToken insideQuote].
  rewrite app_nil_l.
  assert (Hl : last (cmd :: ws) EmptyString <> EmptyString).
  { destruct (exists_last (l := cmd :: ws) ltac:(discriminate)) as [l [x Ex]].
    rewrite Ex, last_last.
    assert (Hin : In x (cmd :: ws)) by (rewrite Ex; apply in_or_app; right; left; reflexivity).
    destruct Hin as [<-|Hin]; [exact Hc|rewrite Forall_forall in Hws; exact (Hws x Hin)]. }
  replace (0 <? String.length (last (cmd :: ws) EmptyString)) with true
    by (destruct (last (cmd :: ws) EmptyString); [contradiction|reflexivity]).
  rewrite <- app_removelast_last by discriminate.
  eexists; reflexivity.
Qed.

Lemma parseCommand_escaped_args_witness :
  exists name, parseCommand ("open" ++ typed_args ["my notes"; "it's"; "a\b"])%string =
               Some (mkParsed ("open" ++ typed_args ["my notes"; "it's"; "a\b"])%string name
                              ["my notes"; "it's"; "a\b"] None).
Proof.
  apply parseCommand_escaped_args;
    [discriminate|vm_compute; reflexivity|repeat constructor; discriminate].
Defined.

End EscapeFacts.

(* ------------------------------------------------------------------ *)
(** ** Tab completion of the command word *)

Module TabFacts.
Import JS FS Render Exec Parser Prompt ParserFacts PathLemmas EscapeFacts.

Lemma ws_init (l : list ascii) : all_ws l -> fold_left scan_step l scan_init = scan_init.
Proof.
  induction l as [|c l IH]; intros H; [reflexivity|].
  inversion H as [|? ? Hc Hl]; subst; simpl.
  destruct (ws_not_special c Hc) as [Hb [Hd Hs]].
  unfold scan_step at 1; simpl; rewrite Hb, Hd, Hs, Hc; simpl; apply IH; exact Hl.
Qed.

Lemma trimStart_ws_app (P X : string) :
  all_ws (list_ascii_of_string P) -> trimStart (P ++ X) = trimStart X.
Proof.
  induction P as [|c P IH]; intros H; [reflexivity|].
  inversion H as [|? ? Hc Hl]; subst; simpl; rewrite Hc; apply IH; exact Hl.
Qed.

(** Leading white space changes nothing but the recorded raw line. *)
Lemma parseCommand_ws_prefix (P X : string) :
  all_ws (list_ascii_of_string P) ->
  parseCommand (P ++ X) =
  option_map (fun pc => mkParsed (P ++ X) (commandName pc) (args pc) (error pc))
             (parseCommand X).
Proof.
  intros H; unfold parseCommand, trim; rewrite trimStart_ws_app by exact H.
  destruct (String.eqb (trimEnd (trimStart X)) EmptyString); [reflexivity|].
  unfold scan; rewrite list_ascii_app, fold_left_app, ws_init by exact H.
  destruct (insideQuote _); [reflexivity|].
  destruct (if 0 <? _ then _ else _) as [|t0 r]; reflexivity.
Qed.

Lemma autocomplete_command_eq (input : string) (fs : option FSNode) (cwd : string) :
  ac_mode (autocomplete WNone input fs cwd) = ModeCommand ->
  (String.length (trimStart input) =? 0) = false /\ has_ws (trimStart input) = false.
Proof.
  unfold autocomplete; cbv zeta.
  change (negb (WizardStep_eqb WNone WNone)) with false; cbv iota.
  destruct (String.length (trimStart input) =? 0); [discriminate|].
  destruct (has_ws (trimStart input)); [|split; reflexivity].
  simpl; destruct (_ =? "cd")%string; [|destruct (_ =? "cat")%string;
    [|destruct (_ =? "open")%string; [|destruct (_ =? "tree")%string]]];
    destruct fs; discriminate.
Qed.

Lemma string_of_list_app (l1 l2 : list ascii) :
  string_of_list_ascii (l1 ++ l2) = (string_of_list_ascii l1 ++ string_of_list_ascii l2)%string.
Proof. induction l1 as [|c l1 IH]; simpl; [reflexivity|rewrite IH; reflexivity]. Qed.

Lemma ws_prefix_split (input : string) :
  exists P, all_ws (list_ascii_of_string P) /\ input = (P ++ trimStart input)%string.
Proof.
  destruct (trimStart_split input) as [pre [Hpre Heq]].
  exists (string_of_list_ascii pre); split.
  - rewrite list_ascii_of_string_of_list_ascii; exact Hpre.
  - apply (f_equal string_of_list_ascii) in Heq.
    rewrite string_of_list_ascii_of_string, string_of_list_app,
      string_of_list_ascii_of_string in Heq; exact Heq.
Qed.

Lemma take_non_ws_app (l1 l2 : list ascii) :
  Forall (fun c => is_ws c = false) l1 -> take_non_ws (l1 ++ l2) = l1 ++ take_non_ws l2.
Proof.
  induction l1 as [|c l1 IH]; intros H; [reflexivity|].
  inversion H as [|? ? Hc Hl]; subst; simpl; rewrite Hc, IH by exact Hl; reflexivity.
Qed.

Lemma take_non_ws_ws (l : list ascii) : all_ws l -> take_non_ws l = [].
Proof. intros H; destruct H as [|c l Hc _]; [reflexivity|simpl; rewrite Hc; reflexivity]. Qed.

Lemma no_ws_forall (T : string) :
  has_ws T = false -> Forall (fun c => is_ws c = false) (list_ascii_of_string T).
Proof.
  unfold has_ws; intros H; apply Forall_forall; intros x Hx.
  destruct (is_ws x) eqn:E; [|reflexivity].
  assert (existsb is_ws (list_ascii_of_string T) = true)
    by (apply existsb_exists; exists x; split; assumption).
  congruence.
Qed.

Lemma trailing_ws_prefix (P T : string) :
  all_ws (list_ascii_of_string P) -> has_ws T = false -> trailing_token (P ++ T) = T.
Proof.
  intros HP HT; unfold trailing_token.
  rewrite list_ascii_app, rev_app_distr, take_non_ws_app
    by (apply Forall_rev; apply no_ws_forall; exact HT).
  rewrite take_non_ws_ws by (apply Forall_rev; exact HP).
  rewrite app_nil_r, rev_involutive, string_of_list_ascii_of_string; reflexivity.
Qed.

Lemma substring_prefix (P T : string) : substring 0 (String.length P) (P ++ T) = P.
Proof.
  induction P as [|c P IH]; simpl; [destruct T; reflexivity|rewrite IH; reflexivity].
Qed.

(** Tab on the command word: the line becomes its leading white space,
    the opening quote if one was typed, the first matching command and a
    space. Without a quote the new line runs that command with no
    arguments; with one, the quote is left open and the line is the
    unclosed-quote error. *)
Theorem tab_completes_command (input : string) (fs : option FSNode) (cwd : string)
    (top : AutocompleteSuggestion) (rest : list AutocompleteSuggestion) :
  ac_mode (autocomplete WNone input fs cwd) = ModeCommand ->
  suggestions (autocomplete WNone input fs cwd) = top :: rest ->
  let line := handleTabComplete (autocomplete WNone input fs cwd) input in
  In (insertText top) AUTOCOMPLETE_COMMANDS /\
  (exists P, all_ws (list_ascii_of_string P) /\ input = (P ++ trimStart input)%string /\
             line = (P ++ Prompt.opening_quote (trimStart input) ++ insertText top ++ " ")%string) /\
  parseCommand line =
  Some (match quoteChar (autocomplete WNone input fs cwd) with
        | None => mkParsed line (insertText top) [] None
        | Some _ => mkParsed line EmptyString [] (Some unclosed_quote_message)
        end).
Proof.
  intros Hm Hs line.
  destruct (autocomplete_command_eq input fs cwd Hm) as [E1 E2].
  destruct (ws_prefix_split input) as [P [HP HPT]].
  set (T := trimStart input) in *.
  assert (Htok : trailing_token input = T)
    by (rewrite HPT at 1; apply trailing_ws_prefix; assumption).
  assert (Hbef : slice_to (String.length input - String.length (trailing_token input)) input = P).
  { rewrite Htok, HPT; unfold slice_to; rewrite str_length_app, Nat.add_sub.
    apply substring_prefix. }
  unfold line, handleTabComplete; clear line Hm.
  unfold autocomplete in Hs |- *; cbv zeta in Hs |- *.
  change (negb (WizardStep_eqb WNone WNone)) with false in Hs |- *; cbv iota in Hs |- *.
  fold T in Hs |- *; rewrite E1, E2 in Hs |- *; cbn [negb] in Hs |- *.
  rewrite Hbef, Htok in Hs |- *.
  cbn [suggestions quoteChar ac_mode beforeToken] in Hs |- *.
  rewrite Hs.
  assert (Hin : In top (map (fun name => mkSuggestion KCommand name name)
                  (filter (fun name => startsWith name
                     (toLowerCase match match T with
                                        | EmptyString => None
                                        | String c _ => if (c =? dquote)%char || (c =? squote)%char
                                                        then Some c else None
                                        end with
                                  | Some _ => slice_from 1 T
                                  | None => T
                                  end)) AUTOCOMPLETE_COMMANDS)))
    by (rewrite Hs; left; reflexivity).
  apply in_map_iff in Hin as [name [<- Hin]]; apply filter_In in Hin as [Hin _].
  cbn [insertText kind]; split; [exact Hin|split].
  { exists P; split; [exact HP|split; [exact HPT|]].
    unfold Prompt.opening_quote; destruct T as [|c T']; [discriminate|].
    destruct ((c =? dquote)%char || (c =? squote)%char); reflexivity. }
  rewrite parseCommand_ws_prefix by exact HP.
  destruct T as [|c T']; [discriminate|].
  destruct ((c =? dquote)%char) eqn:Ed;
    [apply Ascii.eqb_eq in Ed; subst c
    |destruct ((c =? squote)%char) eqn:Es; [apply Ascii.eqb_eq in Es; subst c|]];
    simpl in Hin; repeat destruct Hin as [<-|Hin]; try contradiction; reflexivity.
Qed.

Lemma tab_completes_command_witness :
  let line := handleTabComplete (autocomplete WNone "  he" None "/") "  he" in
  In (insertText (mkSuggestion KCommand "help" "help")) AUTOCOMPLETE_COMMANDS /\
  (exists P, all_ws (list_ascii_of_string P) /\ "  he" = (P ++ trimStart "  he")%string /\
             line = (P ++ Prompt.opening_quote (trimStart "  he") ++
                     insertText (mkSuggestion KCommand "help" "help") ++ " ")%string) /\
  parseCommand line =
  Some (match quoteChar (autocomplete WNone "  he" None "/") with
        | None => mkParsed line (insertText (mkSuggestion KCommand "help" "help")) [] None
        | Some _ => mkParsed line EmptyString [] (Some unclosed_quote_message)
        end).
Proof. apply (tab_completes_command "  he" None "/" _ []); vm_compute; reflexivity. Defined.

End TabFacts.

(* ------------------------------------------------------------------ *)
(** ** The fixes of an unknown command *)

Module UnknownFacts.
Import JS FS Fuzzy Session Exec PathLemmas SuggestFacts TabFacts.

Lemma indexOf_app_space (w Y : string) :
  indexOf space w = None -> indexOf space (w ++ String space Y) = Some (String.length w).
Proof.
  induction w as [|c w IH]; simpl.
  - intros _; reflexivity.
  - destruct (Ascii.eqb c space); [discriminate|].
    destruct (indexOf space w); [discriminate|intros _; rewrite IH by reflexivity; reflexivity].
Qed.

Lemma slice_from_app (w Y : string) : slice_from (String.length w) (w ++ Y) = Y.
Proof.
  unfold slice_from; rewrite str_length_app, Nat.add_comm, Nat.add_sub.
  induction w as [|c w IH]; simpl; [apply substring_all|exact IH].
Qed.

Lemma indexOf_space_split (s : string) (i : nat) :
  indexOf space s = Some i ->
  exists w X, s = (w ++ " " ++ X)%string /\ indexOf space w = None /\ i = String.length w.
Proof.
  revert i; induction s as [|d s IH]; intros i; simpl; [discriminate|].
  destruct (Ascii.eqb d space) eqn:Ed.
  - intros E; injection E as <-; apply Ascii.eqb_eq in Ed; subst d.
    exists EmptyString, s; split; [reflexivity|split; reflexivity].
  - destruct (indexOf space s) as [j|] eqn:Ej; [|discriminate].
    intros E; injection E as <-.
    destruct (IH j eq_refl) as [w [X [-> [Hw ->]]]].
    exists (String d w), X; split; [reflexivity|split; [|reflexivity]].
    simpl; rewrite Ed, Hw; reflexivity.
Qed.

(** The rest of the line [runUnknown] appends to a fix: nothing when the
    line, its leading white space trimmed, has no space; from its first
    space on otherwise. *)
Lemma runUnknown_rest (raw : string) :
  let t := trimStart raw in
  ((indexOf space t = None /\
    match indexOf space t with None => EmptyString | Some i => slice_from i t end = EmptyString) \/
   exists w X, t = (w ++ " " ++ X)%string /\ indexOf space w = None /\
               match indexOf space t with
               | None => EmptyString | Some i => slice_from i t end = (" " ++ X)%string).
Proof.
  cbv zeta; destruct (indexOf space (trimStart raw)) as [i|] eqn:Ei; [right|left; split; reflexivity].
  destruct (indexOf_space_split _ _ Ei) as [w [X [Ht [Hw ->]]]].
  exists w, X; split; [exact Ht|split; [exact Hw|]].
  rewrite Ht; apply slice_from_app.
Qed.

(** An unknown command word gets one error entry with one to four fixes:
    either just [help], or commands of the completion list, each followed
    by the rest of the line as typed from its first space on (nothing when
    the line, trimmed at the start, has no space). *)
Theorem runUnknown_fixes (commandName raw : string) :
  exists msg labels,
    runUnknown commandName raw = [ADD_HISTORY (mkItem Error msg labels None)] /\
    1 <= length labels <= 4 /\
    (labels = ["help"] \/
     forall l, In l labels ->
       exists c, In c AUTOCOMPLETE_COMMANDS /\
         ((indexOf space (trimStart raw) = None /\ l = c) \/
          exists w X, trimStart raw = (w ++ " " ++ X)%string /\ indexOf space w = None /\
                      l = (c ++ " " ++ X)%string)).
Proof.
  unfold runUnknown; cbv zeta.
  pose proof (runUnknown_rest raw) as Hrest; cbv zeta in Hrest.
  set (rest := match indexOf space (trimStart raw) with
               | None => EmptyString | Some i => slice_from i (trimStart raw) end) in *.
  pose proof (rankCandidates_subset commandName AUTOCOMPLETE_COMMANDS 4) as Hsub.
  pose proof (rankCandidates_length commandName AUTOCOMPLETE_COMMANDS 4) as Hlen.
  destruct (rankCandidates commandName AUTOCOMPLETE_COMMANDS 4) as [|c0 cs] eqn:Ec.
  - do 2 eexists; split; [reflexivity|split; [simpl; lia|left; reflexivity]].
  - do 2 eexists; split; [reflexivity|].
    rewrite firstn_all2 by (rewrite length_map; exact Hlen).
    rewrite map_map; cbn [fix_label]; rewrite length_map.
    split; [simpl; simpl in Hlen; lia|right].
    intros l Hl; apply in_map_iff in Hl as [c [<- Hc]].
    exists c; split; [apply Hsub; exact Hc|].
    destruct Hrest as [[H E]|[w [X [H1 [H2 E]]]]]; rewrite E.
    + left; split; [exact H|apply str_app_nil_r].
    + right; exists w, X; split; [exact H1|split; [exact H2|reflexivity]].
Qed.

End UnknownFacts.

Module CrpFacts.
Import JS FS Path Props2 PathLemmas FuzzyFacts Chips Props5.

Lemma join_snoc (segs : list string) (name : string) :
  segs <> [] -> join "/" (segs ++ [name]) = (join "/" segs ++ "/" ++ name)%string.
Proof.
  induction segs as [|x [|y r] IH]; intros H; [contradiction|reflexivity|].
  change ((x :: y :: r) ++ [name]) with (x :: ((y :: r) ++ [name])).
  change (join "/" (x :: ((y :: r) ++ [name]))) with (x ++ "/" ++ join "/" ((y :: r) ++ [name]))%string.
  rewrite IH by discriminate.
  change (join "/" (x :: y :: r)) with (x ++ "/" ++ join "/" (y :: r))%string.
  rewrite !str_app_assoc; reflexivity.
Qed.

Lemma rel_prefix_name (segs : list string) (name : string) :
  (rel_prefix segs ++ name)%string = join "/" (segs ++ [name]).
Proof.
  destruct segs as [|x r]; [reflexivity|].
  rewrite join_snoc by discriminate; unfold rel_prefix.
  rewrite <- str_app_assoc; reflexivity.
Qed.

Lemma rel_prefix_snoc (segs : list string) (name : string) :
  ((rel_prefix segs ++ name) ++ "/")%string = rel_prefix (segs ++ [name]).
Proof.
  rewrite rel_prefix_name; destruct segs; reflexivity.
Qed.

Lemma child_path_ok (top : FSNode) (ex segs : list string) (nm name : string)
    (ch : list (string * FSNode)) (m : option MetaInfo) (child : FSNode) :
  wf_tree (Dir nm ch m) = true -> walk_node top segs = Some (Dir nm ch m) ->
  Forall (seg_fine ex) segs -> In (name, child) ch -> existsb (String.eqb name) ex = false ->
  rel_path_ok top ex (is_dir child) (rel_prefix segs ++ name) /\
  walk_node top (segs ++ [name]) = Some child /\ Forall (seg_fine ex) (segs ++ [name]).
Proof.
  intros Hwf Hw Hs Hin Hex.
  destruct (wf_dir nm ch m Hwf) as [Hd _].
  assert (Hv : valid_name name = true) by exact (wf_key_valid nm ch m name child Hwf Hin).
  assert (Hw' : walk_node top (segs ++ [name]) = Some child).
  { rewrite walk_node_app, Hw; simpl; rewrite (lookup_child_distinct ch name child Hd Hin); reflexivity. }
  assert (Hs' : Forall (seg_fine ex) (segs ++ [name])).
  { apply Forall_app; split; [exact Hs|constructor; [split; assumption|constructor]]. }
  split; [|split; assumption].
  exists (segs ++ [name]); split; [apply rel_prefix_name|].
  split; [destruct segs; discriminate|].
  split; [exact Hs'|exists child; split; [exact Hw'|reflexivity]].
Qed.

Lemma push_dir (top : FSNode) (ex : list string) (maxItems : nat) (st : list string * list string) (p : string) :
  count st < maxItems -> crp_inv top ex st -> rel_path_ok top ex true p ->
  count (fst st, snd st ++ [p]) <= maxItems /\ crp_inv top ex (fst st, snd st ++ [p]).
Proof.
  unfold count, crp_inv; simpl; rewrite length_app; simpl; intros Hc [H1 H2] Hp.
  split; [lia|split; [exact H1|apply Forall_app; split; [exact H2|constructor; [exact Hp|constructor]]]].
Qed.

Lemma push_file (top : FSNode) (ex : list string) (maxItems : nat) (st : list string * list string) (p : string) :
  count st < maxItems -> crp_inv top ex st -> rel_path_ok top ex false p ->
  count (fst st ++ [p], snd st) <= maxItems /\ crp_inv top ex (fst st ++ [p], snd st).
Proof.
  unfold count, crp_inv; simpl; rewrite length_app; simpl; intros Hc [H1 H2] Hp.
  split; [lia|split; [apply Forall_app; split; [exact H1|constructor; [exact Hp|constructor]]|exact H2]].
Qed.

Lemma crp_walk_ok (fuel maxDepth maxItems : nat) (ex : list string) (top : FSNode) :
  wf_tree top = true ->
  forall node segs depth st,
  walk_node top segs = Some node -> Forall (seg_fine ex) segs ->
  count st <= maxItems -> crp_inv top ex st ->
  let r := crp_walk fuel maxDepth maxItems ex node (rel_prefix segs) depth st in
  count r <= maxItems /\ crp_inv top ex r.
Proof.
  intros Htop; induction fuel as [|fuel IH]; intros node segs depth st Hw Hs Hc Hinv;
    cbn [crp_walk];
    (destruct (maxDepth <? depth); [split; assumption|]);
    (destruct (maxItems <=? count st) eqn:Emax; [split; assumption|]);
    apply Nat.leb_gt in Emax;
    (destruct node as [nm ch m|]; [|split; assumption]);
    assert (Hwf : wf_tree (Dir nm ch m) = true) by exact (wf_walk top segs _ Htop Hw);
    assert (Hsub : forall e, In e (getSortedChildren ch) -> In e ch)
      by (intros e He; exact (proj1 (in_sort_by (children_cmp localeCompare) e ch) He));
    revert Hsub; generalize (getSortedChildren ch) as es; intros es;
    revert st Hc Hinv Emax;
    (induction es as [|[name child] es IHes]; intros st _ Hinv Hlt Hsub; [split; [lia|assumption]|]);
    cbn beta iota;
    (destruct (existsb (String.eqb name) ex) eqn:Hex;
      [apply IHes; [lia|assumption|assumption|intros e He; apply Hsub; right; exact He]|]);
    assert (Hin : In (name, child) ch) by (apply Hsub; left; reflexivity);
    destruct (child_path_ok top ex segs nm name ch m child Hwf Hw Hs Hin Hex) as [Hp [Hw' Hs']];
    match goal with
    | |- context [if maxItems <=? count ?s then _ else _] => set (st' := s)
    end;
    (assert (H' : count st' <= maxItems /\ crp_inv top ex st');
     [|destruct H' as [Hc' Hinv'];
       destruct (maxItems <=? count st') eqn:E2; [split; assumption|];
       apply Nat.leb_gt in E2;
       apply IHes; [lia|assumption|assumption|intros e He; apply Hsub; right; exact He]]);
    subst st'; destruct child as [cn cch cm|fn fs fm fc].
  all: cbn [is_dir] in Hp.
  all: [> destruct (depth <? maxDepth); apply push_dir; assumption
       | apply push_file; assumption
       | destruct (depth <? maxDepth); [|apply push_dir; assumption];
         rewrite rel_prefix_snoc;
         destruct (push_dir top ex maxItems st _ Hlt Hinv Hp) as [Hc1 Hi1];
         exact (IH _ _ _ _ Hw' Hs' Hc1 Hi1)
       | apply push_file; assumption ].
Qed.

Lemma crp_ok (dir : FSNode) (maxDepth maxItems : nat) (ex : list string) :
  wf_tree dir = true ->
  let r := collectRelativePaths dir maxDepth maxItems ex in
  length (fst r) + length (snd r) <= maxItems /\
  Forall (rel_path_ok dir ex false) (fst r) /\ Forall (rel_path_ok dir ex true) (snd r).
Proof.
  intros Hwf; unfold collectRelativePaths.
  destruct (crp_walk_ok maxDepth maxDepth maxItems ex dir Hwf dir [] 0 ([], []) eq_refl
              (Forall_nil _) (Nat.le_0_l _) (conj (Forall_nil _) (Forall_nil _)))
    as [Hc [H1 H2]].
  exact (conj Hc (conj H1 H2)).
Qed.

Theorem collectRelativePaths_ok (dir : FSNode) (maxDepth maxItems : nat) (ex : list string) :
  wf_tree dir = true ->
  let r := collectRelativePaths dir maxDepth maxItems ex in
  length (fst r) + length (snd r) <= maxItems /\
  Forall (rel_path_ok dir ex false) (fst r) /\ Forall (rel_path_ok dir ex true) (snd r).
Proof. exact (crp_ok dir maxDepth maxItems ex). Qed.

Lemma collectRelativePaths_ok_witness :
  wf_tree Props.sample_root = true /\
  (let r := collectRelativePaths Props.sample_root 3 80 ["about"] in
   length (fst r) + length (snd r) <= 80 /\
   Forall (rel_path_ok Props.sample_root ["about"] false) (fst r) /\
   Forall (rel_path_ok Props.sample_root ["about"] true) (snd r)).
Proof.
  split; [vm_compute; reflexivity|].
  apply (collectRelativePaths_ok Props.sample_root 3 80 ["about"]); vm_compute; reflexivity.
Defined.

End CrpFacts.

Module ChipFacts.
Import JS FS Path Props2 Props3 PathFacts PathLemmas FuzzyFacts Chips Props5 CrpFacts.

Lemma pick_in {A} (l : list A) (rand : nat -> nat) (k : nat) (x : A) (k' : nat) :
  pickRandomItem l rand k = (Some x, k') -> In x l.
Proof.
  unfold pickRandomItem; destruct l as [|y l]; [discriminate|].
  intros E; injection E as E _; exact (nth_error_In _ _ E).
Qed.

Lemma pushUnique_in (chips : list TryChip) (oc : option TryChip) (c : TryChip) :
  In c (pushUnique chips oc) -> In c chips \/ oc = Some c.
Proof.
  unfold pushUnique; destruct oc as [c'|]; [|intros H; left; exact H].
  destruct (existsb _ chips); [intros H; left; exact H|].
  intros H; apply in_app_or in H as [H|[E|[]]]; [left; exact H|right; subst; reflexivity].
Qed.

Lemma fill_chips_in (n chipCount : nat) (rand : nat -> nat) (k : nat) (chips : list TryChip)
    (c : TryChip) :
  In c (fill_chips n chipCount rand k chips) -> In c chips \/ In c basePool.
Proof.
  revert k chips; induction n as [|n IH]; intros k chips H; cbn [fill_chips] in H; [left; exact H|].
  destruct (chipCount <=? length chips); [left; exact H|].
  destruct (pickRandomItem basePool rand k) as [oc k'] eqn:E.
  destruct (IH _ _ H) as [H'|H']; [|right; exact H'].
  destruct (pushUnique_in chips oc c H') as [Hc| ->]; [left; exact Hc|right; exact (pick_in _ _ _ _ _ E)].
Qed.

Lemma pushUnique_nodup (chips : list TryChip) (oc : option TryChip) :
  NoDup (map chip_command chips) -> NoDup (map chip_command (pushUnique chips oc)).
Proof.
  unfold pushUnique; destruct oc as [c|]; [|tauto].
  destruct (existsb (fun x => String.eqb (chip_command x) (chip_command c)) chips) eqn:E; [tauto|].
  intros H; rewrite map_app; simpl.
  apply NoDup_app; [exact H|constructor; [intros []|constructor]|].
  intros x Hx [<-|[]].
  apply in_map_iff in Hx as [y [Hy Hin]].
  assert (Ht : existsb (fun x => String.eqb (chip_command x) (chip_command c)) chips = true).
  { apply existsb_exists; exists y; split; [exact Hin|apply String.eqb_eq; exact Hy]. }
  rewrite Ht in E; discriminate.
Qed.

Lemma fill_chips_nodup (n chipCount : nat) (rand : nat -> nat) (k : nat) (chips : list TryChip) :
  NoDup (map chip_command chips) -> NoDup (map chip_command (fill_chips n chipCount rand k chips)).
Proof.
  revert k chips; induction n as [|n IH]; intros k chips H; cbn [fill_chips]; [exact H|].
  destruct (chipCount <=? length chips); [exact H|].
  destruct (pickRandomItem basePool rand k) as [oc k'].
  apply IH, pushUnique_nodup; exact H.
Qed.

Lemma NoDup_firstn' {A} (k : nat) (l : list A) : NoDup l -> NoDup (firstn k l).
Proof.
  intros H; rewrite <- (firstn_skipn k l) in H; exact (NoDup_app_remove_r _ _ H).
Qed.

(** The two pushes before the loop, read as one list. *)
Lemma chips2_in (openArg term : option string) (c : TryChip) :
  let chips1 := match openArg with
                | Some a => if String.eqb a EmptyString then []
                            else pushUnique [] (Some (open_chip a))
                | None => []
                end in
  In c (match term with
        | Some t => if String.eqb t EmptyString then chips1
                    else pushUnique chips1 (Some (search_chip t))
        | None => chips1
        end) ->
  (exists a, openArg = Some a /\ c = open_chip a) \/ (exists t, c = search_chip t).
Proof.
  intros chips1 H.
  assert (H1 : In c chips1 -> exists a, openArg = Some a /\ c = open_chip a).
  { subst chips1; destruct openArg as [a|]; [|intros []].
    destruct (String.eqb a EmptyString); [intros []|].
    intros [<-|[]]; exists a; split; reflexivity. }
  destruct term as [t|]; [|left; exact (H1 H)].
  destruct (String.eqb t EmptyString); [left; exact (H1 H)|].
  destruct (pushUnique_in _ _ _ H) as [Hc|E]; [left; exact (H1 Hc)|].
  right; exists t; injection E as <-; reflexivity.
Qed.

(** A path [collectRelativePaths] gives for the directory a resolved
    [cwd] names, typed at [cwd], names the node it was collected for. *)
Lemma rel_path_names (root d : FSNode) (c0 t0 cwd : string) (ex : list string) (b : bool) (a : string) :
  wf_tree root = true -> resolvePath root c0 t0 = Some cwd -> getNodeAtPath root cwd = Some d ->
  rel_path_ok d ex b a ->
  exists n, names_node root cwd a n /\ is_dir n = b /\
            Forall (fun x => existsb (String.eqb x) ex = false) (segments a).
Proof.
  intros Hwf Hr Hd [segs [-> [Hne [Hs [n [Hn Hb]]]]]].
  destruct (resolvePath_shape root c0 t0 cwd Hr) as [S [-> [HS _]]].
  assert (Hsok : Forall seg_ok segs) by (apply (Forall_impl _ (fun x Hx => valid_seg_ok x (proj1 Hx)) Hs)).
  assert (Hseg : segments (join "/" segs) = segs) by (apply segments_join, seg_ok_weak; exact Hsok).
  assert (HSs : Forall seg_ok (S ++ segs)) by (apply Forall_app; split; assumption).
  assert (Hw : walk_node root (S ++ segs) = Some n).
  { rewrite walk_node_app, <- getNodeAtPath_abs, Hd by (apply seg_ok_weak; exact HS); exact Hn. }
  exists n; split; [|split; [exact Hb|rewrite Hseg; exact (Forall_impl _ (fun x Hx => proj2 Hx) Hs)]].
  exists ("/" ++ join "/" (S ++ segs))%string; split;
    [|rewrite getNodeAtPath_abs by (apply seg_ok_weak; exact HSs); exact Hw].
  unfold resolvePath.
  destruct segs as [|x r]; [contradiction|].
  inversion Hsok as [|? ? Hx _]; subst.
  assert (E1 : String.eqb (join "/" (x :: r)) "/" = false).
  { apply String.eqb_neq; intros E; rewrite E in Hseg; discriminate. }
  assert (E2 : String.eqb (join "/" (x :: r)) "~" = false).
  { apply String.eqb_neq; intros E; rewrite E in Hseg; injection Hseg as <- _.
    inversion Hs as [|? ? [Hv _] _]; discriminate. }
  rewrite E1, E2; cbn [orb].
  unfold resolve_parts.
  assert (E3 : startsWith (join "/" (x :: r)) "/" = false).
  { destruct r as [|y r'].
    - rewrite <- (str_app_nil_r x); apply name_suffix_first; exact Hx.
    - apply name_suffix_first; exact Hx. }
  rewrite E3, segments_abs, Hseg by (apply seg_ok_weak; exact HS).
  unfold fold_segments; rewrite fold_canonical by (apply seg_ok_canonical; exact HSs).
  simpl; replace (walk_ok root (S ++ x :: r)) with true; [reflexivity|].
  symmetry; apply walk_ok_node; exists n; exact Hw.
Qed.

Lemma nodup_map_firstn (k : nat) (l : list TryChip) :
  NoDup (map chip_command l) -> NoDup (map chip_command (firstn k l)).
Proof.
  intros H; rewrite <- (firstn_skipn k l), map_app in H; exact (NoDup_app_remove_r _ _ H).
Qed.

Lemma chips2_nodup (openArg term : option string) :
  let chips1 := match openArg with
                | Some a => if String.eqb a EmptyString then []
                            else pushUnique [] (Some (open_chip a))
                | None => []
                end in
  NoDup (map chip_command
           (match term with
            | Some t => if String.eqb t EmptyString then chips1
                        else pushUnique chips1 (Some (search_chip t))
            | None => chips1
            end)).
Proof.
  intros chips1.
  assert (H1 : NoDup (map chip_command chips1)).
  { subst chips1; destruct openArg as [a|]; [|constructor].
    destruct (String.eqb a EmptyString); [constructor|apply pushUnique_nodup; constructor]. }
  destruct term as [t|]; [|exact H1].
  destruct (String.eqb t EmptyString); [exact H1|apply pushUnique_nodup; exact H1].
Qed.

Theorem buildTryChips_bounded (root : FSNode) (cwd : string) (chipCount : nat) (rand : nat -> nat) :
  let chips := buildTryChips root cwd chipCount rand in
  length chips <= chipCount /\ NoDup (map chip_command chips).
Proof.
  unfold buildTryChips; cbv zeta.
  destruct (collectRelativePaths _ 3 80 ["about"]) as [files dirs].
  destruct (pickRandomItem files rand 0) as [o1 k1].
  destruct (match o1 with Some f => (Some f, k1) | None => pickRandomItem dirs rand k1 end)
    as [openArg k2].
  destruct (pickRandomItem (collectSearchTerms root 80) rand k2) as [term k3].
  split; [rewrite length_firstn; lia|].
  apply nodup_map_firstn, fill_chips_nodup, chips2_nodup.
Qed.

Theorem buildTryChips_open_resolves (root : FSNode) (cwd : string) (chipCount : nat)
    (rand : nat -> nat) (a : string) :
  wf_tree root = true -> cwd_dir root cwd -> (exists c t, resolvePath root c t = Some cwd) ->
  In (open_chip a) (buildTryChips root cwd chipCount rand) ->
  exists n, names_node root cwd a n /\ ~ In "about" (segments a).
Proof.
  intros Hwf [nm [ch [m Hcwd]]] [c0 [t0 Hres]] Hin.
  unfold buildTryChips in Hin; rewrite Hcwd in Hin; cbv zeta in Hin.
  destruct (collectRelativePaths (Dir nm ch m) 3 80 ["about"]) as [files dirs] eqn:Ecrp.
  assert (Hok : forall a0, (In a0 files \/ In a0 dirs) -> exists b, rel_path_ok (Dir nm ch m) ["about"] b a0).
  { intros a0 [H|H]; pose proof (crp_ok (Dir nm ch m) 3 80 ["about"] (wf_getNodeAtPath root cwd _ Hwf Hcwd)) as Hc;
      cbv zeta in Hc; rewrite Ecrp in Hc; destruct Hc as [_ [Hf Hd]]; cbn [fst snd] in Hf, Hd;
      [exists false; rewrite Forall_forall in Hf; exact (Hf a0 H)
      |exists true; rewrite Forall_forall in Hd; exact (Hd a0 H)]. }
  assert (Hopen : forall openArg term k3,
            (forall a0, openArg = Some a0 -> In a0 files \/ In a0 dirs) ->
            In (open_chip a) (firstn chipCount (fill_chips 50 chipCount rand k3
              (match term with
               | Some t => if String.eqb t EmptyString
                           then match openArg with
                                | Some a => if String.eqb a EmptyString then []
                                            else pushUnique [] (Some (open_chip a))
                                | None => []
                                end
                           else pushUnique (match openArg with
                                | Some a => if String.eqb a EmptyString then []
                                            else pushUnique [] (Some (open_chip a))
                                | None => []
                                end) (Some (search_chip t))
               | None => match openArg with
                                | Some a => if String.eqb a EmptyString then []
                                            else pushUnique [] (Some (open_chip a))
                                | None => []
                                end
               end))) ->
            In a files \/ In a dirs).
  { intros openArg term k3 Harg H.
    apply in_firstn, fill_chips_in in H as [H|H].
    - destruct (chips2_in openArg term (open_chip a) H) as [[a0 [Ea E]]|[t E]].
      + unfold open_chip in E; injection E as E _.
        subst a0; exact (Harg a Ea).
      + discriminate E.
    - simpl in H; repeat destruct H as [H|H]; try discriminate H; contradiction. }
  assert (Ha : In a files \/ In a dirs).
  { destruct (pickRandomItem files rand 0) as [o1 k1] eqn:E1.
    destruct o1 as [f|].
    - destruct (pickRandomItem (collectSearchTerms root 80) rand k1) as [term k3].
      apply (Hopen (Some f) term k3); [|exact Hin].
      intros a0 E; injection E as <-; left; exact (pick_in _ _ _ _ _ E1).
    - destruct (pickRandomItem dirs rand k1) as [openArg k2] eqn:E2.
      destruct (pickRandomItem (collectSearchTerms root 80) rand k2) as [term k3].
      apply (Hopen openArg term k3); [|exact Hin].
      intros a0 ->; right; exact (pick_in _ _ _ _ _ E2). }
  destruct (Hok a Ha) as [b Hb].
  destruct (rel_path_names root (Dir nm ch m) c0 t0 cwd ["about"] b a Hwf Hres Hcwd Hb)
    as [n [Hn [_ Hs]]].
  exists n; split; [exact Hn|].
  intros Hab; rewrite Forall_forall in Hs; specialize (Hs _ Hab); discriminate Hs.
Qed.

Lemma buildTryChips_open_resolves_witness :
  In (open_chip "analysis") (buildTryChips Props.sample_root "/dune" 4 (fun _ => 0)) /\
  exists n, names_node Props.sample_root "/dune" "analysis" n /\ ~ In "about" (segments "analysis").
Proof.
  split; [vm_compute; left; reflexivity|].
  apply (buildTryChips_open_resolves Props.sample_root "/dune" 4 (fun _ => 0) "analysis").
  - vm_compute; reflexivity.
  - do 3 eexists; vm_compute; reflexivity.
  - exists "/", "/dune"; vm_compute; reflexivity.
  - vm_compute; left; reflexivity.
Defined.

End ChipFacts.

(* ------------------------------------------------------------------ *)
(** ** [collectSearchTerms] *)

Module TermFacts.
Import JS FS Prompt Chips Props6.

(** Induction on a tree through the children of its directories. *)
Lemma FSNode_deep_ind (P : FSNode -> Prop)
    (HF : forall nm s m c, P (File nm s m c))
    (HD : forall nm ch m, Forall (fun e => P (snd e)) ch -> P (Dir nm ch m)) :
  forall n, P n.
Proof.
  refine (fix F n := match n with
                     | File nm s m c => HF nm s m c
                     | Dir nm ch m => HD nm ch m _
                     end).
  induction ch as [|[k c] ch IH]; constructor; [exact (F c)|exact IH].
Qed.

Lemma lower_char_ws (c : ascii) : is_ws (lower_char c) = is_ws c.
Proof. destruct c as [[] [] [] [] [] [] [] []]; reflexivity. Qed.

Lemma lower_char_idem (c : ascii) : lower_char (lower_char c) = lower_char c.
Proof. destruct c as [[] [] [] [] [] [] [] []]; reflexivity. Qed.

Lemma has_ws_lower (s : string) : has_ws (toLowerCase s) = has_ws s.
Proof.
  unfold has_ws; induction s as [|c s IH]; simpl; [reflexivity|rewrite lower_char_ws, IH; reflexivity].
Qed.

Lemma lower_idem (s : string) : toLowerCase (toLowerCase s) = toLowerCase s.
Proof. induction s as [|c s IH]; simpl; [reflexivity|rewrite lower_char_idem, IH; reflexivity]. Qed.

Lemma length_lower (s : string) : String.length (toLowerCase s) = String.length s.
Proof. induction s as [|c s IH]; simpl; [reflexivity|rewrite IH; reflexivity]. Qed.

Lemma set_add_ok (terms : list string) (t : string) :
  terms_ok terms -> term_ok t -> terms_ok (set_add terms t).
Proof.
  unfold set_add; intros [Hn Hf] Ht.
  destruct (existsb (String.eqb t) terms) eqn:E; [split; assumption|].
  split; [|apply Forall_app; split; [exact Hf|constructor; [exact Ht|constructor]]].
  apply NoDup_app; [exact Hn|constructor; [intros []|constructor]|].
  intros x Hx [->|[]].
  assert (Hx' : existsb (String.eqb x) terms = true)
    by (apply existsb_exists; exists x; split; [exact Hx|apply String.eqb_refl]).
  rewrite Hx' in E; discriminate.
Qed.

Lemma addTerm_ok (terms : list string) (v : option string) :
  terms_ok terms -> terms_ok (addTerm terms v).
Proof.
  intros H; unfold addTerm; destruct v as [v|]; [|exact H].
  destruct (String.eqb v EmptyString); [exact H|].
  destruct (String.length (trim v) <? 3) eqn:E1; [exact H|].
  destruct (has_ws (trim v)) eqn:E2; [exact H|].
  apply set_add_ok; [exact H|].
  apply Nat.ltb_ge in E1.
  split; [rewrite length_lower; exact E1|split; [rewrite has_ws_lower; exact E2|apply lower_idem]].
Qed.

Lemma add_tags_ok (terms ts : list string) :
  terms_ok terms -> terms_ok (fold_left (fun acc t => addTerm acc (Some t)) ts terms).
Proof.
  revert terms; induction ts as [|t ts IH]; intros terms H; cbn [fold_left]; [exact H|].
  apply IH, addTerm_ok; exact H.
Qed.

Lemma add_title_word_ok (terms : list string) (m : option MetaInfo) :
  terms_ok terms -> terms_ok (add_title_word terms m).
Proof.
  intros H; unfold add_title_word; destruct m as [mi|]; [|exact H].
  destruct (String.eqb (title mi) EmptyString); [exact H|apply addTerm_ok; exact H].
Qed.

Lemma cst_walk_ok (maxTerms : nat) (node : FSNode) :
  forall terms, terms_ok terms -> terms_ok (cst_walk maxTerms node terms).
Proof.
  induction node as [nm s m c|nm ch m IH] using FSNode_deep_ind; intros terms H; cbn [cst_walk].
  - apply add_title_word_ok, add_tags_ok, addTerm_ok; exact H.
  - assert (H3 : terms_ok (add_title_word
                   (fold_left (fun acc t => addTerm acc (Some t)) (meta_tags m)
                      (if String.eqb nm EmptyString then terms else addTerm terms (Some nm))) m)).
    { apply add_title_word_ok, add_tags_ok.
      destruct (String.eqb nm EmptyString); [exact H|apply addTerm_ok; exact H]. }
    revert H3; generalize (add_title_word
                   (fold_left (fun acc t => addTerm acc (Some t)) (meta_tags m)
                      (if String.eqb nm EmptyString then terms else addTerm terms (Some nm))) m).
    induction ch as [|[k c] ch IHch]; intros t3 H3; [exact H3|].
    inversion IH as [|? ? Hc Hch]; subst; cbn [snd] in Hc.
    cbn beta iota.
    pose proof (Hc t3 H3) as H'.
    destruct (maxTerms <=? length (cst_walk maxTerms c t3)); [exact H'|].
    exact (IHch Hch _ H').
Qed.

(** [collectSearchTerms] returns distinct terms, each of three characters
    or more, without whitespace and in lower case. *)
Theorem collectSearchTerms_ok (root : FSNode) (maxTerms : nat) :
  let ts := collectSearchTerms root maxTerms in NoDup ts /\ Forall term_ok ts.
Proof.
  exact (cst_walk_ok maxTerms root [] (conj (NoDup_nil _) (Forall_nil _))).
Qed.

End TermFacts.

(* ------------------------------------------------------------------ *)
(** ** [buildFileSystem] *)

Module BuilderFacts.
Import JS FS Path Obj Builder Props2 Props7 PathLemmas SidebarFacts.

Lemma child_of_set_same (n : FSNode) (k : string) (v : FSNode) :
  is_dir n = true -> child_of (set_child n k v) k = Some v.
Proof. destruct n as [nm ch m|]; [intros _; apply obj_get_set_same|discriminate]. Qed.

Lemma child_of_set_other (n : FSNode) (k q : string) (v : FSNode) :
  k <> q -> child_of (set_child n k v) q = child_of n q.
Proof. destruct n as [nm ch m|]; [intros H; apply obj_get_set_other; exact H|reflexivity]. Qed.

Lemma child_of_update_same (n : FSNode) (k : string) (g : FSNode -> FSNode) :
  child_of (update_child n k g) k = option_map g (child_of n k).
Proof.
  unfold update_child; destruct (child_of n k) as [c|] eqn:E; [|exact E].
  destruct n as [nm ch m|]; [apply obj_get_set_same|discriminate].
Qed.

Lemma child_of_update_other (n : FSNode) (k q : string) (g : FSNode -> FSNode) :
  k <> q -> child_of (update_child n k g) q = child_of n q.
Proof.
  intros H; unfold update_child; destruct (child_of n k); [apply child_of_set_other; exact H|reflexivity].
Qed.

Lemma child_of_ensure_same (n : FSNode) (k : string) (f : FSNode) :
  is_dir n = true -> exists c, child_of (ensure_child n k f) k = Some c /\
                     (child_of n k = Some c \/ (child_of n k = None /\ c = f)).
Proof.
  intros Hd; unfold ensure_child; destruct (child_of n k) as [c|] eqn:E.
  - exists c; split; [exact E|left; reflexivity].
  - exists f; split; [apply child_of_set_same; exact Hd|right; split; reflexivity].
Qed.

Lemma child_of_ensure_other (n : FSNode) (k q : string) (f : FSNode) :
  k <> q -> child_of (ensure_child n k f) q = child_of n q.
Proof.
  intros H; unfold ensure_child; destruct (child_of n k); [reflexivity|apply child_of_set_other; exact H].
Qed.

Lemma is_dir_set_child (n : FSNode) (k : string) (v : FSNode) : is_dir (set_child n k v) = is_dir n.
Proof. destruct n; reflexivity. Qed.

Lemma is_dir_ensure (n : FSNode) (k : string) (f : FSNode) : is_dir (ensure_child n k f) = is_dir n.
Proof. unfold ensure_child; destruct (child_of n k); [reflexivity|apply is_dir_set_child]. Qed.

Lemma is_dir_update (n : FSNode) (k : string) (g : FSNode -> FSNode) :
  is_dir (update_child n k g) = is_dir n.
Proof. unfold update_child; destruct (child_of n k); [apply is_dir_set_child|reflexivity]. Qed.

Lemma is_dir_set_meta (n : FSNode) (m : MetaInfo) : is_dir (set_meta n m) = is_dir n.
Proof. destruct n; reflexivity. Qed.

(** [add_to_parent] writes the key [parts[0]] of the directory only, and
    leaves a directory there when it finds one or none. *)
Lemma add_to_parent_other (e : Entry) (parts : list string) (n : FSNode) (q : string) :
  q <> hd EmptyString parts -> child_of (add_to_parent e parts n) q = child_of n q.
Proof.
  intros H; unfold add_to_parent.
  destruct parts as [|b [|x [|y r]]]; simpl in H; try reflexivity;
    apply not_eq_sym in H.
  - destruct (is_book e);
      rewrite ?child_of_update_other by exact H; apply child_of_ensure_other; exact H.
  - destruct (is_book e);
      rewrite child_of_update_other by exact H; apply child_of_ensure_other; exact H.
Qed.

Lemma add_to_parent_dir (e : Entry) (parts : list string) (n : FSNode) :
  is_dir (add_to_parent e parts n) = is_dir n.
Proof.
  unfold add_to_parent.
  destruct parts as [|b [|x [|y r]]]; try reflexivity;
    destruct (is_book e); rewrite ?is_dir_update; apply is_dir_ensure.
Qed.

Lemma add_to_parent_kid_dir (e : Entry) (parts : list string) (n : FSNode) (c : FSNode) :
  is_dir n = true ->
  (forall d, child_of n (hd EmptyString parts) = Some d -> is_dir d = true) ->
  child_of (add_to_parent e parts n) (hd EmptyString parts) = Some c -> is_dir c = true.
Proof.
  intros Hn Hk; unfold add_to_parent.
  destruct parts as [|b [|x [|y r]]]; simpl in Hk |- *; try (intros E; exact (Hk c E));
    (match goal with |- context [ensure_child n b ?f] =>
       destruct (child_of_ensure_same n b f Hn) as [c0 [E0 Hc0]] end);
    (assert (Hd0 : is_dir c0 = true) by (destruct Hc0 as [E|[_ ->]]; [exact (Hk c0 E)|reflexivity]));
    destruct (is_book e); rewrite ?child_of_update_same, E0; cbn [option_map];
    intros E; injection E as <-; rewrite ?is_dir_set_meta, ?is_dir_set_child; exact Hd0.
Qed.

Lemma add_to_parent_name (e : Entry) (parts : list string) (n : FSNode) :
  node_name (add_to_parent e parts n) = node_name n.
Proof.
  assert (Hs : forall n k v, node_name (set_child n k v) = node_name n) by (intros [] k v; reflexivity).
  assert (He : forall n k f, node_name (ensure_child n k f) = node_name n)
    by (intros n' k f; unfold ensure_child; destruct (child_of n' k); [reflexivity|apply Hs]).
  assert (Hu : forall n k g, node_name (update_child n k g) = node_name n)
    by (intros n' k g; unfold update_child; destruct (child_of n' k); [apply Hs|reflexivity]).
  unfold add_to_parent.
  destruct parts as [|b [|x [|y r]]]; try reflexivity;
    destruct (is_book e); rewrite ?Hu; apply He.
Qed.

Lemma child_of_set_meta (d : FSNode) (m : MetaInfo) (k : string) :
  child_of (set_meta d m) k = child_of d k.
Proof. destruct d; reflexivity. Qed.

Lemma root_ok_init : root_ok initial_root.
Proof.
  split; [reflexivity|split; [reflexivity|split]].
  - exists books_dir; split; [reflexivity|split; [reflexivity|split; [reflexivity|]]].
    intros k d E; discriminate E.
  - intros d E; discriminate E.
Qed.

Lemma add_entry_root_ok (r : FSNode) (e : Entry) : root_ok r -> root_ok (add_entry r e).
Proof.
  intros [Hr [Ha [[B [HB [HBd [HBn HBk]]]] Hd]]]; unfold add_entry.
  set (parts := split slash (entry_slug e)).
  destruct (String.eqb (hd EmptyString parts) "dune") eqn:Ed.
  - apply String.eqb_eq in Ed.
    split; [rewrite add_to_parent_dir; exact Hr|].
    split; [rewrite add_to_parent_other by (rewrite Ed; discriminate); exact Ha|].
    split; [exists B; rewrite add_to_parent_other by (rewrite Ed; discriminate); tauto|].
    intros d; rewrite <- Ed; apply add_to_parent_kid_dir; [exact Hr|rewrite Ed; exact Hd].
  - apply String.eqb_neq in Ed.
    split; [rewrite is_dir_update; exact Hr|].
    split; [rewrite child_of_update_other by discriminate; exact Ha|].
    split; [|rewrite child_of_update_other by discriminate; exact Hd].
    exists (add_to_parent e parts B); rewrite child_of_update_same, HB.
    split; [reflexivity|].
    split; [rewrite add_to_parent_dir; exact HBd|].
    split; [rewrite add_to_parent_name; exact HBn|].
    intros k d; destruct (String.eqb k (hd EmptyString parts)) eqn:Ek.
    + apply String.eqb_eq in Ek; subst k; apply add_to_parent_kid_dir; [exact HBd|apply HBk].
    + apply String.eqb_neq in Ek; rewrite add_to_parent_other by exact Ek; apply HBk.
Qed.

Lemma fold_root_ok (l : list Entry) (r : FSNode) : root_ok r -> root_ok (fold_left add_entry l r).
Proof.
  revert r; induction l as [|e l IH]; intros r H; cbn [fold_left]; [exact H|].
  apply IH, add_entry_root_ok; exact H.
Qed.

Lemma walk_cons (r : FSNode) (k : string) (l : list string) :
  is_dir r = true ->
  walk_node r (k :: l) = match child_of r k with Some c => walk_node c l | None => None end.
Proof.
  destruct r as [nm ch m|]; [intros _|discriminate].
  simpl; change (lookup_child ch k) with (obj_get ch k); reflexivity.
Qed.

Lemma walk_leaf (c : FSNode) (k : string) :
  walk_node c [k] = child_of c k.
Proof.
  destruct c as [nm ch m|]; simpl; [|reflexivity].
  change (lookup_child ch k) with (obj_get ch k); destruct (obj_get ch k); reflexivity.
Qed.

(** Whatever the entries, the tree [buildFileSystem] returns has the
    file [/about] as it is written at first and a directory [/books]: no
    entry replaces either. *)
Theorem buildFileSystem_fixed_entries (books : list Entry) :
  let r := buildFileSystem books in
  getNodeAtPath r "/about" = Some about_file /\
  exists ch m, getNodeAtPath r "/books" = Some (Dir "books" ch m).
Proof.
  intros r; unfold r, buildFileSystem.
  destruct (fold_root_ok books initial_root root_ok_init) as [_ [Ha [[B [HB [HBd [HBn _]]]] _]]].
  unfold getNodeAtPath.
  replace (String.eqb "/about" "/" || String.eqb "/about" "") with false by reflexivity.
  replace (String.eqb "/books" "/" || String.eqb "/books" "") with false by reflexivity.
  change (segments "/about") with ["about"]; change (segments "/books") with ["books"].
  rewrite !walk_leaf, Ha, HB; split; [reflexivity|].
  destruct B as [nm bch bm|]; [|discriminate HBd]; cbn [node_name] in HBn; subst nm.
  exists bch, bm; reflexivity.
Qed.

Lemma atp_keeps_note (e : Entry) (parts : list string) (P : FSNode) (b n : string) (F D : FSNode) :
  child_of P b = Some D -> child_of D n = Some F -> (parts = [b; n] -> is_book e = true) ->
  exists D', child_of (add_to_parent e parts P) b = Some D' /\ child_of D' n = Some F.
Proof.
  intros HD HF Hp.
  destruct (String.eqb b (hd EmptyString parts)) eqn:Eb.
  2:{ apply String.eqb_neq in Eb; exists D; rewrite add_to_parent_other by exact Eb; tauto. }
  apply String.eqb_eq in Eb; unfold add_to_parent.
  destruct parts as [|b0 [|x [|y r]]]; simpl in Eb; try (exists D; split; assumption);
    subst b0; unfold ensure_child; rewrite HD; cbn iota;
    destruct (is_book e) eqn:Ebk;
    try (rewrite child_of_update_same, HD; eexists; split; [reflexivity|];
         rewrite child_of_set_meta; exact HF);
    try (exists D; split; assumption).
  rewrite child_of_update_same, HD; eexists; split; [reflexivity|].
  rewrite child_of_set_other; [exact HF|].
  intros ->; specialize (Hp eq_refl); congruence.
Qed.

Lemma atp_puts_note (e : Entry) (P : FSNode) (b n : string) :
  is_dir P = true -> (forall d, child_of P b = Some d -> is_dir d = true) -> is_book e = false ->
  exists D, child_of (add_to_parent e [b; n] P) b = Some D /\
    child_of D n = Some (File n (entry_slug e)
                           (mkMeta (entry_title e) (addedDate e) (Some (entry_tags e)) None)
                           (Some (body e))).
Proof.
  intros Hp Hk Hb; unfold add_to_parent; rewrite Hb.
  match goal with |- context [ensure_child P b ?f] =>
    destruct (child_of_ensure_same P b f Hp) as [c0 [E0 Hc0]] end.
  assert (Hd0 : is_dir c0 = true) by (destruct Hc0 as [E|[_ ->]]; [exact (Hk c0 E)|reflexivity]).
  rewrite child_of_update_same, E0; eexists; split; [reflexivity|].
  apply child_of_set_same; exact Hd0.
Qed.

Lemma add_entry_keeps_note (r : FSNode) (e : Entry) (b n : string) (F : FSNode) :
  (exists D, note_dir r b = Some D /\ child_of D n = Some F) ->
  (split slash (entry_slug e) = [b; n] -> is_book e = true) ->
  exists D, note_dir (add_entry r e) b = Some D /\ child_of D n = Some F.
Proof.
  intros [D [HD HF]] Hp; unfold add_entry, note_dir in *.
  set (parts := split slash (entry_slug e)) in *.
  destruct (String.eqb (hd EmptyString parts) "dune") eqn:Ed;
    destruct (String.eqb b "dune") eqn:Eb.
  - apply String.eqb_eq in Eb, Ed; subst b.
    exact (atp_keeps_note e parts r "dune" n F D HD HF Hp).
  - apply String.eqb_eq in Ed.
    rewrite add_to_parent_other by (rewrite Ed; discriminate); exists D; tauto.
  - rewrite child_of_update_other by discriminate; exists D; tauto.
  - rewrite child_of_update_same.
    destruct (child_of r "books") as [B|]; [|discriminate HD].
    exact (atp_keeps_note e parts B b n F D HD HF Hp).
Qed.

Lemma split_slug (b n : string) :
  noslash b -> noslash n -> split slash (b ++ "/" ++ n) = [b; n].
Proof.
  intros Hb Hn; change (b ++ "/" ++ n)%string with (b ++ String slash n)%string.
  rewrite split_app, !split_noslash by assumption; reflexivity.
Qed.

Lemma add_entry_puts_note (r : FSNode) (e : Entry) (b n : string) :
  root_ok r -> entry_slug e = (b ++ "/" ++ n)%string -> noslash b -> noslash n ->
  is_book e = false ->
  exists D, note_dir (add_entry r e) b = Some D /\
    child_of D n = Some (File n (entry_slug e)
                           (mkMeta (entry_title e) (addedDate e) (Some (entry_tags e)) None)
                           (Some (body e))).
Proof.
  intros [Hr [_ [[B [HB [HBd [_ HBk]]]] Hd]]] Hs Hb Hn Hbk.
  assert (Hparts : split slash (entry_slug e) = [b; n]) by (rewrite Hs; apply split_slug; assumption).
  unfold add_entry, note_dir; rewrite Hparts; cbn [hd].
  destruct (String.eqb b "dune") eqn:Eb.
  - apply String.eqb_eq in Eb; subst b.
    apply atp_puts_note; assumption.
  - rewrite child_of_update_same, HB; cbn [option_map].
    apply atp_puts_note; [exact HBd|intros d; apply HBk|exact Hbk].
Qed.

Lemma join_split (s : string) : join "/" (split slash s) = s.
Proof.
  induction s as [|d s IH]; [reflexivity|].
  cbn [split]; destruct (split slash s) as [|x xs] eqn:E; [exact (False_ind _ (split_nonempty slash s E))|].
  destruct (Ascii.eqb d slash) eqn:Ed.
  - apply Ascii.eqb_eq in Ed; subst d.
    change (join "/" (EmptyString :: x :: xs)) with ("" ++ "/" ++ join "/" (x :: xs))%string.
    rewrite IH; reflexivity.
  - destruct xs as [|y ys].
    + cbn [join] in IH |- *; rewrite IH; reflexivity.
    + change (join "/" (String d x :: y :: ys)) with (String d (x ++ "/" ++ join "/" (y :: ys))).
      change (join "/" (x :: y :: ys)) with (x ++ "/" ++ join "/" (y :: ys))%string in IH.
      rewrite IH; reflexivity.
Qed.

Lemma fold_keeps_note (l : list Entry) (r : FSNode) (b n : string) (F : FSNode) (slug : string) :
  split slash slug = [b; n] ->
  Forall (fun e' => entry_slug e' <> slug) l ->
  (exists D, note_dir r b = Some D /\ child_of D n = Some F) ->
  exists D, note_dir (fold_left add_entry l r) b = Some D /\ child_of D n = Some F.
Proof.
  intros Hs; revert r; induction l as [|e l IH]; intros r Hl H; cbn [fold_left]; [exact H|].
  inversion Hl as [|? ? He Hl']; subst.
  apply IH; [exact Hl'|].
  apply add_entry_keeps_note; [exact H|].
  intros Hp; exfalso; apply He.
  rewrite <- (join_split (entry_slug e)), <- (join_split slug), Hp, Hs; reflexivity.
Qed.

(** A note entry, of slug [b/n] with [b] and [n] non-empty names and of a
    type other than ['book'], is the file [/books/b/n] of the tree
    [buildFileSystem] returns, or [/dune/n] when [b] is ['dune'], with the
    entry's slug, title, date, tags and body, as long as no later entry
    has the same slug and no entry's slug has a segment inherited from
    [Object.prototype]. *)
Theorem buildFileSystem_note_path (books pre post : list Entry) (e : Entry) (b n : string) :
  forallb plain_slug books = true ->
  books = pre ++ e :: post -> entry_slug e = (b ++ "/" ++ n)%string ->
  b <> EmptyString -> noslash b -> n <> EmptyString -> noslash n -> is_book e = false ->
  Forall (fun e' => entry_slug e' <> entry_slug e) post ->
  JSPath.getNodeAtPath (buildFileSystem books)
    (if String.eqb b "dune" then ("/dune/" ++ n)%string else ("/books/" ++ b ++ "/" ++ n)%string) =
  Some (Proto.VNode
          (File n (entry_slug e) (mkMeta (entry_title e) (addedDate e) (Some (entry_tags e)) None)
                (Some (body e)))).
Proof.
  intros _ -> Hs Hb0 Hb Hn0 Hn Hbk Hpost; apply PathFacts.js_getNodeAtPath_vnode.
  unfold buildFileSystem; rewrite fold_left_app; cbn [fold_left].
  set (r0 := fold_left add_entry pre initial_root).
  assert (H0 : root_ok r0) by (apply fold_root_ok, root_ok_init).
  assert (H1 : root_ok (fold_left add_entry post (add_entry r0 e)))
    by (apply fold_root_ok, add_entry_root_ok; exact H0).
  destruct (fold_keeps_note post (add_entry r0 e) b n _ (entry_slug e)
              ltac:(rewrite Hs; apply split_slug; assumption) Hpost
              (add_entry_puts_note r0 e b n H0 Hs Hb Hn Hbk)) as [D [HD HF]].
  set (R := fold_left add_entry post (add_entry r0 e)) in *.
  destruct H1 as [HR [_ [[B [HB [HBd _]]] _]]].
  unfold note_dir in HD; unfold getNodeAtPath.
  destruct (String.eqb b "dune").
  - replace (String.eqb ("/dune/" ++ n) "/" || String.eqb ("/dune/" ++ n) "") with false
      by reflexivity.
    change ("/dune/" ++ n)%string with ("" ++ String slash ("dune" ++ String slash n))%string.
    rewrite !segments_slash_app, (segments_single n) by assumption.
    change (segments "") with (@nil string); change (segments "dune") with ["dune"]; cbn [app].
    rewrite walk_cons, HD, walk_leaf by exact HR; exact HF.
  - replace (String.eqb ("/books/" ++ b ++ "/" ++ n) "/" ||
             String.eqb ("/books/" ++ b ++ "/" ++ n) "") with false by reflexivity.
    change ("/books/" ++ b ++ "/" ++ n)%string
      with ("" ++ String slash ("books" ++ String slash (b ++ String slash n)))%string.
    rewrite !segments_slash_app, (segments_single b), (segments_single n) by assumption.
    change (segments "") with (@nil string); change (segments "books") with ["books"]; cbn [app].
    rewrite walk_cons, HB, walk_cons by assumption.
    rewrite HB in HD; rewrite HD, walk_leaf; exact HF.
Qed.

Lemma buildFileSystem_note_path_witness :
  forallb plain_slug [note_entry] = true /\
  JSPath.getNodeAtPath (buildFileSystem [note_entry]) "/dune/analysis" =
  Some (Proto.VNode
          (File "analysis" "dune/analysis" (mkMeta "Analysis" None (Some ["sf"]) None) (Some "..."))).
Proof.
  split; [vm_compute; reflexivity|].
  exact (buildFileSystem_note_path [note_entry] [] [] note_entry "dune" "analysis"
           ltac:(vm_compute; reflexivity) eq_refl eq_refl ltac:(discriminate) eq_refl ltac:(discriminate) eq_refl eq_refl
           (Forall_nil _)).
Defined.

End BuilderFacts.

(* ------------------------------------------------------------------ *)
(** ** [getBookNodes] *)

Module SidebarPathFacts.
Import JS FS Path Props2 PathLemmas Sidebar.

(** Every row the sidebar lists is the node [getNodeAtPath] finds at the
    row's path, and none of them is the page [/about]. *)
Theorem getBookNodes_paths (root : FSNode) (name : string) (node : FSNode) (path : string) :
  wf_tree root = true -> In (name, node, path) (getBookNodes root) ->
  getNodeAtPath root path = Some node /\ path <> "/about".
Proof.
  intros Hwf Hin; destruct root as [rn ch rm|]; [|contradiction].
  destruct (wf_dir rn ch rm Hwf) as [Hd [_ Hall]].
  cbn [getBookNodes] in Hin; apply in_flat_map in Hin as [[k nd] [Hk Hin]].
  destruct (String.eqb k "books" && is_dir nd) eqn:Eb.
  - apply andb_prop in Eb as [Eb _]; apply String.eqb_eq in Eb; subst k.
    destruct nd as [bn bch bm|]; [|contradiction].
    apply in_map_iff in Hin as [[k c] [E Hkc]]; cbn [fst snd] in E; injection E as <- <- <-.
    assert (Hv : valid_name k = true) by exact (wf_key_valid bn bch bm k c (Hall _ _ Hk) Hkc).
    apply valid_name_spec in Hv as [Hk0 [_ [_ [_ Hks]]]].
    split; [|discriminate].
    change (getNodeAtPath (Dir rn ch rm) ("" ++ String slash ("books" ++ String slash k)) = Some c).
    unfold getNodeAtPath.
    replace (String.eqb ("" ++ String slash ("books" ++ String slash k)) "/" ||
             String.eqb ("" ++ String slash ("books" ++ String slash k)) "") with false
      by reflexivity.
    rewrite !segments_slash_app, (segments_single k) by assumption.
    change (segments "") with (@nil string); change (segments "books") with ["books"]; cbn [app].
    cbn [walk_node]; rewrite (lookup_child_distinct ch "books" _ Hd Hk).
    destruct (wf_dir bn bch bm (Hall _ _ Hk)) as [Hbd _].
    cbn [walk_node]; rewrite (lookup_child_distinct bch k c Hbd Hkc); reflexivity.
  - destruct (negb (String.eqb k "about") && is_dir nd) eqn:Ea; [|contradiction].
    destruct Hin as [E|[]]; injection E as <- <- <-.
    apply andb_prop in Ea as [Ea _]; apply negb_true_iff, String.eqb_neq in Ea.
    assert (Hv : valid_name k = true) by exact (wf_key_valid rn ch rm k nd Hwf Hk).
    apply valid_name_spec in Hv as [Hk0 [_ [_ [_ Hks]]]].
    split; [|intros E; injection E as E; exact (Ea E)].
    change (getNodeAtPath (Dir rn ch rm) ("" ++ String slash k) = Some nd).
    unfold getNodeAtPath.
    replace (String.eqb ("" ++ String slash k) "/" || String.eqb ("" ++ String slash k) "") with false.
    2:{ destruct k as [|c k']; [contradiction|reflexivity]. }
    rewrite segments_slash_app, (segments_single k) by assumption.
    change (segments "") with (@nil string); cbn [app].
    cbn [walk_node]; rewrite (lookup_child_distinct ch k nd Hd Hk); reflexivity.
Qed.

Lemma getBookNodes_paths_witness :
  let d := Dir "dune"
             [("analysis", File "analysis" "dune/analysis" (Props.meta_titled "Analysis") (Some "..."));
              ("chapter-2", File "chapter-2" "dune/chapter-2" (Props.meta_titled "Chapter 2") None)]
             (Some (Props.meta_titled "Dune")) in
  In ("dune", d, "/dune") (getBookNodes Props.sample_root) /\
  getNodeAtPath Props.sample_root "/dune" = Some d /\ "/dune" <> "/about".
Proof.
  intros d.
  assert (Hin : In ("dune", d, "/dune") (getBookNodes Props.sample_root))
    by (vm_compute; left; reflexivity).
  split; [exact Hin|].
  exact (getBookNodes_paths Props.sample_root "dune" d "/dune" ltac:(vm_compute; reflexivity) Hin).
Defined.

End SidebarPathFacts.

(* ------------------------------------------------------------------ *)
(** ** Reading back a printed tree depth *)

Module DepthFacts.
Import JS Render ParserFacts.

Lemma take_digits_uint (u : Decimal.uint) (acc cnt : nat) :
  take_digits acc cnt (NilEmpty.string_of_uint u) =
  (Nat.of_uint_acc u acc, cnt + Decimal.nb_digits u, EmptyString).
Proof.
  revert acc cnt; induction u as [|u IH|u IH|u IH|u IH|u IH|u IH|u IH|u IH|u IH|u IH];
    intros acc cnt; cbn [NilEmpty.string_of_uint take_digits Nat.of_uint_acc Decimal.nb_digits];
    [rewrite Nat.add_0_r; reflexivity|..];
    (match goal with |- context [digit_value ?c] =>
       let v := eval vm_compute in (digit_value c) in change (digit_value c) with v end);
    cbn iota beta; rewrite IH, Nat.tail_mul_spec;
    match goal with |- ((Nat.of_uint_acc _ ?a, ?b), _) = ((Nat.of_uint_acc _ ?a', ?b'), _) =>
      replace a with a' by lia; replace b with b' by lia; reflexivity end.
Qed.

Definition no_ws (s : string) : bool := forallb (fun c => negb (is_ws c)) (list_ascii_of_string s).

Lemma digits_no_ws (u : Decimal.uint) : no_ws (NilEmpty.string_of_uint u) = true.
Proof. unfold no_ws; induction u; simpl; auto. Qed.

Lemma trimStart_no_ws (s : string) : no_ws s = true -> trimStart s = s.
Proof.
  destruct s as [|c s]; [reflexivity|unfold no_ws; simpl].
  intros H; apply andb_prop in H as [H _]; apply negb_true_iff in H; rewrite H; reflexivity.
Qed.

Lemma trim_no_ws (s : string) : no_ws s = true -> trim s = s.
Proof.
  intros H; unfold trim; rewrite trimStart_no_ws by exact H; unfold trimEnd.
  assert (Hr : no_ws (rev_string s) = true).
  { unfold no_ws, rev_string in *; rewrite list_ascii_of_string_of_list_ascii.
    rewrite forallb_forall in H |- *; intros c Hc; apply H, in_rev; exact Hc. }
  rewrite trimStart_no_ws by exact Hr.
  unfold rev_string; rewrite list_ascii_of_string_of_list_ascii, rev_involutive.
  apply string_of_list_ascii_of_string.
Qed.

Lemma nfc_plain (c : ascii) (r : string) (v k : nat) :
  no_ws (String c r) = true -> Ascii.eqb c "-"%char = false -> Ascii.eqb c "+"%char = false ->
  take_digits 0 0 (String c r) = (v, S k, EmptyString) ->
  number_floor_clamped (String c r) = Some v.
Proof.
  intros Hw Hm Hp Ht; unfold number_floor_clamped; rewrite trim_no_ws by exact Hw.
  change (String.eqb (String c r) EmptyString) with false; cbv zeta; cbn iota.
  rewrite Hm, Hp, Ht; reflexivity.
Qed.

Lemma nfc_neg (r : string) (v k : nat) :
  no_ws r = true -> take_digits 0 0 r = (v, S k, EmptyString) ->
  number_floor_clamped (String "-" r) = Some 0.
Proof.
  intros Hw Ht; unfold number_floor_clamped; rewrite trim_no_ws by exact Hw.
  change (String.eqb (String "-" r) EmptyString) with false; cbv zeta; cbn iota.
  replace (Ascii.eqb "-" "-") with true by reflexivity; rewrite Ht; reflexivity.
Qed.

(** A depth up to [2^53] printed in decimal, as the tree suggestions
    print it in [tree -L ${maxDepth}], is read back by [parseDepthArg] as
    the same number; with a minus sign in front it is clamped to 0. Up to
    [2^53] every integer is a JS number exactly, so [Number] reads it
    without rounding. *)
Theorem parseDepthArg_nat_to_string (d : nat) :
  (N.of_nat d <= 9007199254740992)%N ->
  parseDepthArg (Some (nat_to_string d)) = Some d /\
  parseDepthArg (Some ("-" ++ nat_to_string d)%string) = Some 0.
Proof.
  intros _; unfold nat_to_string; rewrite <- (DecimalNat.Unsigned.of_to d) at 2.
  generalize (Nat.to_uint d) as u; intros u.
  destruct u as [|u|u|u|u|u|u|u|u|u|u]; [split; reflexivity|..];
    (match goal with |- context [NilZero.string_of_uint ?x] =>
       pose proof (take_digits_uint x 0 0) as Ht end);
    (split; [unfold parseDepthArg; change (String.eqb (NilZero.string_of_uint _) EmptyString) with false;
             eapply nfc_plain; [exact (digits_no_ws _)|reflexivity|reflexivity|]
            |unfold parseDepthArg; change (String.eqb ("-" ++ NilZero.string_of_uint _)%string EmptyString) with false;
             eapply nfc_neg; [exact (digits_no_ws _)|]]);
    exact Ht.
Qed.

Lemma parseDepthArg_nat_to_string_witness :
  (N.of_nat 3 <= 9007199254740992)%N /\
  parseDepthArg (Some (nat_to_string 3)) = Some 3 /\
  parseDepthArg (Some ("-" ++ nat_to_string 3)%string) = Some 0.
Proof.
  split; [lia|].
  apply (parseDepthArg_nat_to_string 3); lia.
Defined.

End DepthFacts.
